(** * convert_full_gramps: a shallow embedding of the GRAMPS converter

    The development follows [scripts/convert_full_gramps.py]: the raw
    structural mapper ([elem_to_dict]), the entity parsers
    ([parse_people], [parse_families], [parse_generic]), the tag
    classifier ([collect_objects]), the cross-linking loop of [convert]
    and the tree synthesizer ([build_treant_tree]), and, for the archive
    reader, [read_gramps_bytes] up to its collaborators.

    Modelling choices.
    - A Python [str] is a [string]; every character stands for one code
      point below 256, and whitespace is what [str.isspace] accepts there.
    - A Python [dict] keeps insertion order and the first position of a
      key that is assigned again, so it is an association list read by
      first match ([dict_get]) and written in place ([dict_set]).
    - An [xml.etree] element is its tag, attribute dict, optional text and
      children; tails are never read by the program.
    - A raised exception is the [Raise] branch of [result].
    - The node objects of the tree synthesizer are shared and mutated
      after they are cached, so they live in a store indexed by handle
      (the program's [node_cache]) and are referred to by [NodeRef]. *)

From Stdlib Require Import String Ascii List Bool Arith Lia DecimalString.
From Stdlib Require Import DecimalNat.
Import ListNotations.
Set Warnings "-register-all".
Open Scope string_scope.
Open Scope list_scope.

(** ** Python values *)

(** Truthiness of a [str]: non-empty. *)
Definition truthy (s : string) : bool := negb (s =? "").

(** Truthiness of an [Optional[str]]. *)
Definition otruthy (o : option string) : bool :=
  match o with
  | Some s => truthy s
  | None => false
  end.

(** [a or b] on optional strings. *)
Definition por (a b : option string) : option string :=
  if otruthy a then a else b.

(** [str.isspace] on one character, for code points below 256. *)
Definition isspace (c : ascii) : bool :=
  let n := nat_of_ascii c in
  (((9 <=? n) && (n <=? 13)) || ((28 <=? n) && (n <=? 32))
   || (n =? 133) || (n =? 160))%nat.

Fixpoint lstrip (s : string) : string :=
  match s with
  | EmptyString => EmptyString
  | String c r => if isspace c then lstrip r else s
  end.

Fixpoint rstrip (s : string) : string :=
  match s with
  | EmptyString => EmptyString
  | String c r =>
      let r' := rstrip r in
      if isspace c && (r' =? "") then EmptyString else String c r'
  end.

(** [s.strip()] *)
Definition strip (s : string) : string := rstrip (lstrip s).

(** [f"{n}"] for a natural number. *)
Definition str_of_nat (n : nat) : string :=
  NilEmpty.string_of_uint (Nat.to_uint n).

Definition mem_str (s : string) (l : list string) : bool :=
  existsb (String.eqb s) l.

(** ** Python dicts *)

Definition dict (V : Type) : Type := list (string * V).

Section Dict.
Context {V : Type}.

Fixpoint dict_get (d : dict V) (k : string) : option V :=
  match d with
  | [] => None
  | (k', v) :: r => if k' =? k then Some v else dict_get r k
  end.

Definition dict_mem (d : dict V) (k : string) : bool :=
  match dict_get d k with
  | Some _ => true
  | None => false
  end.

(** [d[k] = v]: replaces the value where [k] already sits, else adds
    the pair at the end. *)
Fixpoint dict_set (d : dict V) (k : string) (v : V) : dict V :=
  match d with
  | [] => [(k, v)]
  | (k', v') :: r =>
      if k' =? k then (k, v) :: r else (k', v') :: dict_set r k v
  end.

Definition dict_keys (d : dict V) : list string := map fst d.
End Dict.

(** ** Exceptions *)

Inductive exn : Type :=
| AttributeError   (* a method looked up on an object that lacks it *)
| ParseError.      (* the document is not well-formed XML *)

Inductive result (A : Type) : Type :=
| Ok (a : A)
| Raise (e : exn).
Arguments Ok {A} a.
Arguments Raise {A} e.

Definition bind {A B : Type} (m : result A) (k : A -> result B) : result B :=
  match m with
  | Ok a => k a
  | Raise e => Raise e
  end.

Notation "x <- m ;; k" := (bind m (fun x => k))
  (at level 61, m at next level, right associativity).

(** [for x in xs: st = body st x], stopping at the first exception. *)
Fixpoint for_each {A S : Type} (body : S -> A -> result S)
  (xs : list A) (st : S) : result S :=
  match xs with
  | [] => Ok st
  | x :: r => st' <- body st x ;; for_each body r st'
  end.

(** ** XML elements *)

Inductive Element : Type :=
| Elem (tag : string) (attrib : dict string) (text : option string)
       (children : list Element).

Definition tag (e : Element) : string :=
  match e with Elem t _ _ _ => t end.
Definition attrib (e : Element) : dict string :=
  match e with Elem _ a _ _ => a end.
Definition text (e : Element) : option string :=
  match e with Elem _ _ t _ => t end.
Definition subelements (e : Element) : list Element :=
  match e with Elem _ _ _ cs => cs end.

(** [elem.iter()]: the element itself, then its descendants in document
    order. *)
Fixpoint iter (e : Element) : list Element :=
  match e with
  | Elem _ _ _ cs =>
      e :: (fix iter_all (l : list Element) : list Element :=
              match l with
              | [] => []
              | c :: r => iter c ++ iter_all r
              end) cs
  end.

(** ** Utility helpers *)

Fixpoint after_brace (s : string) : option string :=
  match s with
  | EmptyString => None
  | String c r => if (c =? "}")%char then Some r else after_brace r
  end.

(** [strip_ns]: ['{ns}tag' -> 'tag']. *)
Definition strip_ns (t : option string) : option string :=
  match t with
  | None => None
  | Some s =>
      match after_brace s with
      | Some r => Some r      (* tag.split('}', 1)[1] *)
      | None => Some s
      end
  end.

(** The stripped tag of an element, as the [in (...)] tests use it. *)
Definition stag (e : Element) : option string := strip_ns (Some (tag e)).

Definition stag_in (e : Element) (names : list string) : bool :=
  match stag e with
  | Some s => mem_str s names
  | None => false
  end.

(** [e.text.strip() if e.text else None] *)
Definition text_strip_or_none (e : Element) : option string :=
  match text e with
  | Some s => if truthy s then Some (strip s) else None
  | None => None
  end.

(** [(e.text or "").strip()] *)
Definition text_or_empty_strip (e : Element) : string :=
  match text e with
  | Some s => strip s
  | None => strip ""
  end.

(** [t.strip()] when [t and t.strip()] holds. *)
Definition nonblank (t : option string) : option string :=
  match t with
  | Some s => if truthy s && truthy (strip s) then Some (strip s) else None
  | None => None
  end.

Definition nonblank_text (e : Element) : option string := nonblank (text e).

(** ** Raw forms *)

Inductive RawValue : Type :=
| RAttrs (a : dict string)
| RText (s : string)
| RList (l : list (list (string * RawValue))).

Definition RawDict : Type := dict RawValue.

(** [d.setdefault(tag, []).append(child_dict)]: [setdefault] hands back
    whatever [d] already holds under [tag]; only a list has [append]. *)
Definition setdefault_append (d : RawDict) (t : string) (cd : RawDict)
  : result RawDict :=
  match dict_get d t with
  | None => Ok (dict_set d t (RList [cd]))
  | Some (RList l) => Ok (dict_set d t (RList (l ++ [cd])))
  | Some (RAttrs _) => Raise AttributeError
  | Some (RText _) => Raise AttributeError
  end.

(** [strip_ns(child.tag) or "unknown"] *)
Definition child_key (child : Element) : string :=
  match stag child with
  | Some s => if truthy s then s else "unknown"
  | None => "unknown"
  end.

Definition elem_to_dict_head (a : dict string) (t : option string) : RawDict :=
  let d0 : RawDict := [] in
  let d1 := match a with
            | [] => d0
            | _ :: _ => dict_set d0 "_attrs" (RAttrs a)
            end in
  match nonblank t with
  | Some s => dict_set d1 "_text" (RText s)
  | None => d1
  end.

Fixpoint elem_to_dict (elem : Element) : result RawDict :=
  match elem with
  | Elem _ a t cs =>
      (fix children_loop (l : list Element) (d : RawDict) : result RawDict :=
         match l with
         | [] => Ok d
         | child :: r =>
             match elem_to_dict child with
             | Raise e => Raise e
             | Ok child_dict =>
                 match setdefault_append d (child_key child) child_dict with
                 | Raise e => Raise e
                 | Ok d' => children_loop r d'
                 end
             end
         end) cs (elem_to_dict_head a t)
  end.

(** ** Records *)

Module Name.
Record t : Type := mk {
  formatted : option string;
  given : option string;
  surname : option string;
  prefix : option string;
  suffix : option string;
  raw : RawDict
}.
End Name.

(** [handle] is optional because [display_info] reads it with a default;
    [parse_people] always stores one. *)
Module Person.
Record t : Type := mk {
  handle : option string;
  raw : RawDict;
  names : list Name.t;
  event_refs : list string;
  attributes : list RawDict;
  parents : list string;
  children : list string;
  families_as_parent : list string;
  families_as_child : option string
}.

Definition set_families_as_child (p : t) (fh : option string) : t :=
  mk (handle p) (raw p) (names p) (event_refs p) (attributes p)
     (parents p) (children p) (families_as_parent p) fh.

Definition extend_parents (p : t) (xs : list string) : t :=
  mk (handle p) (raw p) (names p) (event_refs p) (attributes p)
     (parents p ++ xs) (children p) (families_as_parent p)
     (families_as_child p).

Definition append_families_as_parent (p : t) (fh : string) : t :=
  mk (handle p) (raw p) (names p) (event_refs p) (attributes p)
     (parents p) (children p) (families_as_parent p ++ [fh])
     (families_as_child p).
End Person.

Module Family.
Record t : Type := mk {
  handle : string;
  raw : RawDict;
  father : option string;
  mother : option string;
  children : list string
}.
End Family.

Module Generic.
Record t : Type := mk {
  handle : string;
  raw : RawDict
}.
End Generic.

(** ** Entity parsers *)

(** The first [Some] that [f] gives along [l]: a [for] loop that leaves at
    its first hit. *)
Fixpoint find_map {A B : Type} (f : A -> option B) (l : list A) : option B :=
  match l with
  | [] => None
  | x :: r =>
      match f x with
      | Some b => Some b
      | None => find_map f r
      end
  end.

Fixpoint map_result {A B : Type} (f : A -> result B) (l : list A)
  : result (list B) :=
  match l with
  | [] => Ok []
  | x :: r => y <- f x ;; ys <- map_result f r ;; Ok (y :: ys)
  end.

Definition extract_handle (elem : Element) : option string :=
  if dict_mem (attrib elem) "handle" then dict_get (attrib elem) "handle"
  else if dict_mem (attrib elem) "id" then dict_get (attrib elem) "id"
  else find_map
         (fun child =>
            if stag_in child ["handle"; "id"] then nonblank_text child
            else None)
         (subelements elem).

(** [extract_handle(el) or f"<pre>_{len(out)+1}"] *)
Definition handle_or {V : Type} (el : Element) (pre : string) (out : dict V)
  : string :=
  match extract_handle el with
  | Some h => if truthy h then h else pre ++ "_" ++ str_of_nat (length out + 1)
  | None => pre ++ "_" ++ str_of_nat (length out + 1)
  end.

Record NameFields : Type := mkNameFields {
  nf_formatted : option string;
  nf_given : option string;
  nf_surname : option string;
  nf_prefix : option string;
  nf_suffix : option string
}.

Definition name_field (st : NameFields) (child : Element) : NameFields :=
  let '(mkNameFields fo gi su pr sf) := st in
  if stag_in child ["formatted"; "full"; "display"] then
    mkNameFields (text_strip_or_none child) gi su pr sf
  else if stag_in child ["given"; "first"; "first_name"; "forename"] then
    mkNameFields fo (Some (text_or_empty_strip child)) su pr sf
  else if stag_in child ["surname"; "last"; "last_name"; "family"] then
    mkNameFields fo gi (Some (text_or_empty_strip child)) pr sf
  else if stag_in child ["prefix"; "title"] then
    mkNameFields fo gi su (Some (text_or_empty_strip child)) sf
  else if stag_in child ["suffix"] then
    mkNameFields fo gi su pr (Some (text_or_empty_strip child))
  else st.

Definition parse_name (name_el : Element) : result Name.t :=
  let '(mkNameFields fo gi su pr sf) :=
    fold_left name_field (subelements name_el)
              (mkNameFields None None None None None) in
  r <- elem_to_dict name_el ;;
  Ok (Name.mk fo gi su pr sf r).

(** The name stored when a person has no name element; its dict has no
    [prefix] and [suffix] keys, which reads as [None] through [get]. *)
Definition fallback_name (p : Element) (raw : RawDict) : Name.t :=
  let maybe_name :=
    fold_left
      (fun m c =>
         if stag_in c ["display_name"; "display"] then text_strip_or_none c
         else m)
      (subelements p) None in
  Name.mk maybe_name None None None None raw.

Definition event_ref (evref : Element) : option string :=
  por (por (dict_get (attrib evref) "ref") (dict_get (attrib evref) "handle"))
      (text_strip_or_none evref).

Definition parse_event_refs (p : Element) : list string :=
  fold_left
    (fun refs evref =>
       match event_ref evref with
       | Some r => if truthy r then refs ++ [r] else refs
       | None => refs
       end)
    (filter (fun c => stag_in c ["event_ref"; "eventref"; "event"])
            (subelements p))
    [].

Definition parse_person (out : dict Person.t) (p : Element)
  : result (dict Person.t) :=
  let h := handle_or p "person" out in
  raw <- elem_to_dict p ;;
  names <- map_result parse_name
             (filter (fun c => stag_in c ["name"; "names"; "display_name";
                                          "personal_name"])
                     (subelements p)) ;;
  let names := match names with
               | [] => [fallback_name p raw]
               | _ :: _ => names
               end in
  let event_refs := parse_event_refs p in
  attrs <- map_result elem_to_dict
             (filter (fun c => stag_in c ["attribute"; "attributes"; "custom"])
                     (subelements p)) ;;
  Ok (dict_set out h
        (Person.mk (Some h) raw names event_refs attrs [] [] [] None)).

Definition parse_people (person_elements : list Element)
  : result (dict Person.t) :=
  for_each parse_person person_elements [].

(** [c.attrib.get('ref') or (c.text.strip() if c.text else None)] *)
Definition parent_ref (c : Element) : option string :=
  por (dict_get (attrib c) "ref") (text_strip_or_none c).

(** What one child-reference element adds to [children], if anything. *)
Definition child_ref (c : Element) : option string :=
  if dict_mem (attrib c) "ref" then dict_get (attrib c) "ref"
  else
    let found :=
      find_map
        (fun d =>
           if stag_in d ["handle"; "ref"] then nonblank_text d else None)
        (iter c) in
    if otruthy found then found else nonblank_text c.

Record FamilyFields : Type := mkFamilyFields {
  ff_father : option string;
  ff_mother : option string;
  ff_children : list string
}.

Definition family_field (st : FamilyFields) (c : Element) : FamilyFields :=
  let '(mkFamilyFields fa mo chs) := st in
  if stag_in c ["father"; "husband"; "father_ref"; "father_handle"; "parent"]
  then
    if otruthy (parent_ref c) then mkFamilyFields (parent_ref c) mo chs
    else st
  else if stag_in c ["mother"; "wife"; "mother_ref"; "mother_handle"] then
    if otruthy (parent_ref c) then mkFamilyFields fa (parent_ref c) chs
    else st
  else if stag_in c ["child"; "child_ref"; "children"] then
    match child_ref c with
    | Some h => mkFamilyFields fa mo (chs ++ [h])
    | None => st
    end
  else st.

Definition parse_family (out : dict Family.t) (f : Element)
  : result (dict Family.t) :=
  let h := handle_or f "family" out in
  raw <- elem_to_dict f ;;
  let '(mkFamilyFields fa mo chs) :=
    fold_left family_field (subelements f) (mkFamilyFields None None []) in
  Ok (dict_set out h (Family.mk h raw fa mo chs)).

Definition parse_families (family_elements : list Element)
  : result (dict Family.t) :=
  for_each parse_family family_elements [].

Definition parse_generic_one (out : dict Generic.t) (el : Element)
  : result (dict Generic.t) :=
  let h := handle_or el "obj" out in
  raw <- elem_to_dict el ;;
  Ok (dict_set out h (Generic.mk h raw)).

Definition parse_generic (elements : list Element) : result (dict Generic.t) :=
  for_each parse_generic_one elements [].

(** ** Tag classifier *)

Module Buckets.
Record t : Type := mk {
  people : list Element;
  families : list Element;
  events : list Element;
  places : list Element;
  media : list Element;
  sources : list Element;
  citations : list Element;
  repositories : list Element;
  notes : list Element;
  tags : list Element
}.

Definition empty : t := mk [] [] [] [] [] [] [] [] [] [].
End Buckets.

(** The entries of [TAG_ALIASES] that [collect_objects] reads. *)
Module TAG_ALIASES.
Definition person := ["person"; "person_obj"; "individual"].
Definition family := ["family"; "family_obj"].
Definition event := ["event"].
Definition place := ["place"; "Place"; "PLACE"].
Definition media := ["media"; "media_list"; "images"].
Definition sources := ["sources"; "source_list"].
Definition citations := ["citations"; "citation_list"].
Definition repositories := ["repositories"; "repository_list"].
Definition notes := ["notes"; "note_list"].
Definition tags := ["tags"; "tag_list"].
End TAG_ALIASES.

Definition classify (b : Buckets.t) (el : Element) : Buckets.t :=
  let '(Buckets.mk pe fa ev pl me so ci re no ta) := b in
  if stag_in el TAG_ALIASES.person then
    Buckets.mk (pe ++ [el]) fa ev pl me so ci re no ta
  else if stag_in el TAG_ALIASES.family then
    Buckets.mk pe (fa ++ [el]) ev pl me so ci re no ta
  else if stag_in el TAG_ALIASES.event then
    Buckets.mk pe fa (ev ++ [el]) pl me so ci re no ta
  else if stag_in el TAG_ALIASES.place then
    Buckets.mk pe fa ev (pl ++ [el]) me so ci re no ta
  else if stag_in el TAG_ALIASES.media then
    Buckets.mk pe fa ev pl (me ++ [el]) so ci re no ta
  else if stag_in el TAG_ALIASES.sources then
    Buckets.mk pe fa ev pl me (so ++ [el]) ci re no ta
  else if stag_in el TAG_ALIASES.citations then
    Buckets.mk pe fa ev pl me so (ci ++ [el]) re no ta
  else if stag_in el TAG_ALIASES.repositories then
    Buckets.mk pe fa ev pl me so ci (re ++ [el]) no ta
  else if stag_in el TAG_ALIASES.notes then
    Buckets.mk pe fa ev pl me so ci re (no ++ [el]) ta
  else if stag_in el TAG_ALIASES.tags then
    Buckets.mk pe fa ev pl me so ci re no (ta ++ [el])
  else b.

Definition collect_objects (root : Element) : Buckets.t :=
  fold_left classify (iter root) Buckets.empty.

(** ** Cross-linking families and people *)

(** [[x for x in (fam.get('father'), fam.get('mother')) if x]] *)
Definition present_parents (fam : Family.t) : list string :=
  flat_map (fun o => match o with
                     | Some x => if truthy x then [x] else []
                     | None => []
                     end)
           [Family.father fam; Family.mother fam].

Module Graph.
Record t : Type := mk {
  people : dict Person.t;
  families : dict Family.t
}.
End Graph.

Definition link_child (fh : string) (fam : Family.t)
  (people : dict Person.t) (ch : string) : dict Person.t :=
  match dict_get people ch with
  | Some p =>
      dict_set people ch
        (Person.extend_parents
           (Person.set_families_as_child p (Some fh))
           (present_parents fam))
  | None => people
  end.

Definition link_parent (fh : string) (people : dict Person.t)
  (parent : option string) : dict Person.t :=
  match parent with
  | Some h =>
      if truthy h then
        match dict_get people h with
        | Some p => dict_set people h (Person.append_families_as_parent p fh)
        | None => people
        end
      else people
  | None => people
  end.

(** One turn of [for fh, fam in families.items()]. *)
Definition link_family (g : Graph.t) (item : string * Family.t) : Graph.t :=
  let '(fh, fam) := item in
  let people1 := fold_left (link_child fh fam) (Family.children fam)
                           (Graph.people g) in
  let people2 := fold_left (link_parent fh)
                           [Family.father fam; Family.mother fam] people1 in
  Graph.mk people2 (Graph.families g).

Definition cross_link (g : Graph.t) : Graph.t :=
  fold_left link_family (Graph.families g) g.

(** ** Tree synthesis *)

Inductive NodeRef : Type :=
| Leaf (name : string)      (* a fresh [{"text": {"name": ...}}] *)
| Cached (handle : string). (* the node object held by [node_cache] *)

Module Node.
Record t : Type := mk {
  id : string;
  handle : string;
  name : string;
  title : string;
  person_handle : string;
  children : option (list NodeRef)   (* [None] until the key is set *)
}.

Definition set_children (n : t) (cs : list NodeRef) : t :=
  mk (id n) (handle n) (name n) (title n) (person_handle n) (Some cs).
End Node.

Inductive TreeRoot : Type :=
| Single (r : NodeRef)
| Roots (children : list NodeRef).   (* the synthetic "Roots" node *)

Definition or_empty (o : option string) : string :=
  match o with
  | Some s => if truthy s then s else ""
  | None => ""
  end.

Definition display_info (p : Person.t) : string * option string :=
  let primary :=
    match find (fun nm => otruthy (Name.formatted nm)) (Person.names p) with
    | Some nm => Some nm
    | None => hd_error (Person.names p)
    end in
  let name :=
    match primary with
    | Some nm =>
        if otruthy (Name.formatted nm) then or_empty (Name.formatted nm)
        else strip (or_empty (Name.given nm) ++ " "
                    ++ or_empty (Name.surname nm))
    | None =>
        match Person.handle p with
        | Some h => h
        | None => "<Unknown>"
        end
    end in
  (name, None).

Section Tree.
Variable people : dict Person.t.
Variable families : dict Family.t.

Definition children_handles (p : Person.t) : list string :=
  flat_map
    (fun famh =>
       match dict_get families famh with
       | Some fam => filter truthy (Family.children fam)
       | None => []
       end)
    (Person.families_as_parent p).

(** [node["children"] = node_children] on the node cached under
    [handle]. *)
Definition set_node_children (cache : dict Node.t) (handle : string)
  (cs : list NodeRef) : dict Node.t :=
  match dict_get cache handle with
  | Some n => dict_set cache handle (Node.set_children n cs)
  | None => cache
  end.

Section Loops.
Variable rec : string -> dict Node.t -> option (NodeRef * dict Node.t).

(** The "unique preserve order" loop. *)
Fixpoint node_children_loop (chs seen : list string)
  (node_children : list NodeRef) (cache : dict Node.t)
  : option (list NodeRef * dict Node.t) :=
  match chs with
  | [] => Some (node_children, cache)
  | ch :: r =>
      if negb (truthy ch) || mem_str ch seen then
        node_children_loop r seen node_children cache
      else
        match rec ch cache with
        | None => None
        | Some (n, cache') =>
            node_children_loop r (ch :: seen) (node_children ++ [n]) cache'
        end
  end.

(** [[build_person_node(h) for h in roots]] *)
Fixpoint build_each (roots : list string) (cache : dict Node.t)
  : option (list NodeRef * dict Node.t) :=
  match roots with
  | [] => Some ([], cache)
  | h :: r =>
      match rec h cache with
      | None => None
      | Some (n, cache') =>
          match build_each r cache' with
          | None => None
          | Some (ns, cache'') => Some (n :: ns, cache'')
          end
      end
  end.
End Loops.

(** [build_person_node] with its recursion depth bounded by [fuel];
    [None] only when the bound is hit. *)
Fixpoint build_person_node (fuel : nat) (handle : string)
  (cache : dict Node.t) : option (NodeRef * dict Node.t) :=
  match fuel with
  | O => None
  | S fuel' =>
      match dict_get people handle with
      | None => Some (Leaf (if truthy handle then handle else "<Unknown>"),
                      cache)
      | Some p =>
          if dict_mem cache handle then Some (Cached handle, cache)
          else
            let '(name, title) := display_info p in
            let node := Node.mk handle handle name (or_empty title) handle
                                None in
            let cache1 := dict_set cache handle node in
            match node_children_loop (build_person_node fuel')
                    (children_handles p) [] [] cache1 with
            | None => None
            | Some (node_children, cache2) =>
                Some (Cached handle,
                      set_node_children cache2 handle node_children)
            end
      end
  end.

Definition root_candidates : list string :=
  let roots :=
    map fst (filter (fun hp => negb (otruthy (Person.families_as_child
                                                (snd hp)))) people) in
  match roots with
  | [] => firstn 1 (dict_keys people)
  | _ :: _ => roots
  end.

Definition build_treant_tree_fuel (fuel : nat) (root_handle : option string)
  : option (TreeRoot * dict Node.t) :=
  if otruthy root_handle then
    match build_person_node fuel (or_empty root_handle) [] with
    | Some (n, cache) => Some (Single n, cache)
    | None => None
    end
  else
    match root_candidates with
    | [h] =>
        match build_person_node fuel h [] with
        | Some (n, cache) => Some (Single n, cache)
        | None => None
        end
    | roots =>
        match build_each (build_person_node fuel) roots [] with
        | Some (ns, cache) => Some (Roots ns, cache)
        | None => None
        end
    end.

(** The tree root and the node objects it refers to.  The recursion of
    [build_person_node] is never deeper than the number of people plus
    one ([build_treant_tree_fuel_enough]), so the last branch is not
    taken. *)
Definition build_treant_tree (root_handle : option string)
  : TreeRoot * dict Node.t :=
  match build_treant_tree_fuel (S (length people)) root_handle with
  | Some r => r
  | None => (Roots [], [])
  end.
End Tree.

(** ** Wiring everything together *)

Module Media.
Record t : Type := mk {
  handle : string;
  raw : RawDict;
  file : option string   (* set on extracted members only *)
}.

Definition of_generic (m : Generic.t) : t :=
  mk (Generic.handle m) (Generic.raw m) None.
End Media.

Module Output.
Record t : Type := mk {
  people : dict Person.t;
  families : dict Family.t;
  events : dict Generic.t;
  places : dict Generic.t;
  media : dict Media.t;
  sources : dict Generic.t;
  citations : dict Generic.t;
  repositories : dict Generic.t;
  notes : dict Generic.t;
  tags : dict Generic.t;
  others : dict Generic.t;
  tree_root : TreeRoot;
  tree_nodes : dict Node.t   (* the node objects [tree_root] refers to *)
}.
End Output.

Section Convert.
(** The collaborators [convert] calls into: the XML parser and the two
    path functions.  Writing the extracted members to disk leaves the
    returned object untouched and is not modelled. *)
Variable fromstring : string -> result Element.
Variable basename : string -> string.
Variable path_join : string -> string -> string.

Definition media_out (media : dict Generic.t)
  (media_map : option (dict string)) (extract_media_dir : option string)
  : dict Media.t :=
  match media_map with
  | Some ((_ :: _) as members) =>
      if otruthy extract_media_dir then
        fold_left
          (fun out member =>
             let safe_name := basename (fst member) in
             let out_path := path_join (or_empty extract_media_dir)
                                       safe_name in
             dict_set out safe_name
               (Media.mk safe_name
                  [("_attrs", RAttrs [("source_name", fst member)])]
                  (Some out_path)))
          members []
      else
        fold_left (fun out m => dict_set out (fst m)
                                         (Media.of_generic (snd m)))
                  media []
  | _ =>
      fold_left (fun out m => dict_set out (fst m)
                                       (Media.of_generic (snd m)))
                media []
  end.

Definition convert (xml_bytes : string) (media_map : option (dict string))
  (extract_media_dir root_person : option string) : result Output.t :=
  xml_root <- fromstring xml_bytes ;;
  let buckets := collect_objects xml_root in
  people <- parse_people (Buckets.people buckets) ;;
  families <- parse_families (Buckets.families buckets) ;;
  events <- parse_generic (Buckets.events buckets) ;;
  places <- parse_generic (Buckets.places buckets) ;;
  media <- parse_generic (Buckets.media buckets) ;;
  sources <- parse_generic (Buckets.sources buckets) ;;
  citations <- parse_generic (Buckets.citations buckets) ;;
  repositories <- parse_generic (Buckets.repositories buckets) ;;
  notes <- parse_generic (Buckets.notes buckets) ;;
  tags <- parse_generic (Buckets.tags buckets) ;;
  let g := cross_link (Graph.mk people families) in
  let mo := media_out media media_map extract_media_dir in
  let '(tree_root, nodes) :=
    build_treant_tree (Graph.people g) (Graph.families g) root_person in
  Ok (Output.mk (Graph.people g) (Graph.families g) events places mo
                sources citations repositories notes tags [] tree_root
                nodes).
End Convert.

(** ** What the parsers store *)

(** What [parse_people] stores: distinct keys, and under each key a record
    that carries the key as its handle and has its four link fields
    empty. *)
Definition fresh_people (out : dict Person.t) : Prop :=
  NoDup (dict_keys out)
  /\ forall h p,
      dict_get out h = Some p ->
      Person.handle p = Some h /\ Person.parents p = []
      /\ Person.children p = [] /\ Person.families_as_parent p = []
      /\ Person.families_as_child p = None.

(** A parent handle is absent or a non-empty string. *)
Definition parent_truthy (o : option string) : Prop :=
  forall x, o = Some x -> truthy x = true.

(** What [parse_families] stores: distinct keys, under each key a record
    carrying the key as its handle, and never an empty father or mother
    handle. *)
Definition parsed_families (out : dict Family.t) : Prop :=
  NoDup (dict_keys out)
  /\ forall h fam,
      dict_get out h = Some fam ->
      Family.handle fam = h /\ parent_truthy (Family.father fam)
      /\ parent_truthy (Family.mother fam).

(** ** The cross-linking loop seen from one person

    What the loop of [convert] does to the record stored under one handle
    [H]; [cross_link_person] shows that [cross_link] is these functions
    applied at every key. *)

Definition child_effect (fh : string) (fam : Family.t) (H : string)
  (p : Person.t) (ch : string) : Person.t :=
  if ch =? H then
    Person.extend_parents (Person.set_families_as_child p (Some fh))
                          (present_parents fam)
  else p.

Definition parent_effect (fh : string) (H : string) (p : Person.t)
  (parent : option string) : Person.t :=
  match parent with
  | Some h =>
      if truthy h && (h =? H) then Person.append_families_as_parent p fh
      else p
  | None => p
  end.

Definition family_effect (H : string) (p : Person.t)
  (item : string * Family.t) : Person.t :=
  fold_left (parent_effect (fst item) H)
            [Family.father (snd item); Family.mother (snd item)]
            (fold_left (child_effect (fst item) (snd item) H)
                       (Family.children (snd item)) p).

(** The handles that processing one family appends to the [parents] and
    to the [families_as_parent] of the person stored under [H]. *)
Definition parents_from (H : string) (item : string * Family.t)
  : list string :=
  flat_map (fun ch => if ch =? H then present_parents (snd item) else [])
           (Family.children (snd item)).

Definition families_from (H : string) (item : string * Family.t)
  : list string :=
  flat_map (fun o => match o with
                     | Some h => if truthy h && (h =? H) then [fst item]
                                 else []
                     | None => []
                     end)
           [Family.father (snd item); Family.mother (snd item)].

(** ** Child references, as the specification words them

    The three sources of a child handle in priority order: the [ref]
    attribute of the child-reference element; the trimmed text of the
    first descendant, in document order, tagged [handle] or [ref] whose
    text is not blank; the element's own trimmed text when not blank. *)

Definition descendants (e : Element) : list Element :=
  flat_map iter (subelements e).

Definition blank (e : Element) : bool :=
  match text e with
  | Some s => negb (truthy (strip s))
  | None => true
  end.

Definition trimmed_text (e : Element) : string :=
  match text e with
  | Some s => strip s
  | None => ""
  end.

Definition is_child_ref (c : Element) : bool :=
  stag_in c ["child"; "child_ref"; "children"].

Definition child_ref_spec (c : Element) : option string :=
  match dict_get (attrib c) "ref" with
  | Some r => Some r
  | None =>
      match find (fun d => stag_in d ["handle"; "ref"] && negb (blank d))
                 (descendants c) with
      | Some d => Some (trimmed_text d)
      | None => if blank c then None else Some (trimmed_text c)
      end
  end.

Definition children_spec (f : Element) : list string :=
  flat_map (fun c => match child_ref_spec c with
                     | Some h => [h]
                     | None => []
                     end)
           (filter is_child_ref (subelements f)).

(** ** The node graph, stated without the loops *)

(** The "unique preserve order" loop as a function of the handles alone:
    what is kept of [chs] when [seen] has been met before. *)
Fixpoint unique_in_order (chs seen : list string) : list string :=
  match chs with
  | [] => []
  | ch :: r =>
      if negb (truthy ch) || mem_str ch seen then unique_in_order r seen
      else ch :: unique_in_order r (ch :: seen)
  end.

Section NodeGraph.
Variable people : dict Person.t.
Variable families : dict Family.t.

(** What [build_person_node] returns for a handle: the cached node of a
    known person, else a fresh leaf. *)
Definition ref_of (h : string) : NodeRef :=
  match dict_get people h with
  | Some _ => Cached h
  | None => Leaf (if truthy h then h else "<Unknown>")
  end.

(** The node object of a known person once its [children] are set. *)
Definition final_node (h : string) (p : Person.t) : Node.t :=
  Node.mk h h (fst (display_info p)) "" h
    (Some (map ref_of (unique_in_order (children_handles families p) []))).

(** The number of people without a node object: it bounds how much
    deeper [build_person_node] can go. *)
Definition uncached (cache : dict Node.t) : nat :=
  length (filter (fun k => negb (dict_mem cache k)) (dict_keys people)).

(** [cache'] keeps every node object of [cache] as it is, and whatever
    it holds beyond is a finished node of a known person. *)
Definition extends (cache cache' : dict Node.t) : Prop :=
  forall k,
    match dict_get cache k with
    | Some n => dict_get cache' k = Some n
    | None =>
        dict_get cache' k = None
        \/ exists p, dict_get people k = Some p
                     /\ dict_get cache' k = Some (final_node k p)
    end.

(** Every reference held by a node object of [cache] resolves in
    [cache]. *)
Definition closed (cache : dict Node.t) : Prop :=
  forall k n l ch,
    dict_get cache k = Some n -> Node.children n = Some l ->
    In (Cached ch) l -> dict_mem cache ch = true.

(** A cache in good order: one node object per handle, and no dangling
    reference. *)
Definition sound (cache : dict Node.t) : Prop :=
  closed cache /\ NoDup (dict_keys cache).

(** No node object is dropped from the cache. *)
Definition grows (cache cache' : dict Node.t) : Prop :=
  forall k, dict_mem cache k = true -> dict_mem cache' k = true.

(** What a call of [build_person_node] that returns has done. *)
Definition call_spec
  (rec : string -> dict Node.t -> option (NodeRef * dict Node.t)) : Prop :=
  forall h c r c',
    rec h c = Some (r, c') ->
    r = ref_of h
    /\ extends c c'
    /\ grows c c'
    /\ (dict_get people h <> None -> dict_mem c' h = true)
    /\ (sound c -> sound c').

(** The root [build_treant_tree] returns, by its three cases. *)
Definition expected_root (root_handle : option string) : TreeRoot :=
  if otruthy root_handle then Single (ref_of (or_empty root_handle))
  else
    match root_candidates people with
    | [h] => Single (ref_of h)
    | roots => Roots (map ref_of roots)
    end.
End NodeGraph.

Definition root_refs (root : TreeRoot) : list NodeRef :=
  match root with
  | Single r => [r]
  | Roots rs => rs
  end.

(** ** Reading the node graph as a tree *)

Inductive Tree : Type :=
| TLeaf (name : string)
| TNode (handle name : string) (children : list Tree).

Fixpoint map_option {A B : Type} (f : A -> option B) (l : list A)
  : option (list B) :=
  match l with
  | [] => Some []
  | x :: r =>
      match f x, map_option f r with
      | Some y, Some ys => Some (y :: ys)
      | _, _ => None
      end
  end.

(** The tree below a reference, followed through the node objects for at
    most [depth] levels; [None] when a branch is longer than that. *)
Fixpoint unfold_ref (nodes : dict Node.t) (depth : nat) (r : NodeRef)
  : option Tree :=
  match depth with
  | O => None
  | S d =>
      match r with
      | Leaf name => Some (TLeaf name)
      | Cached h =>
          match dict_get nodes h with
          | Some n =>
              match Node.children n with
              | Some cs =>
                  option_map (TNode h (Node.name n))
                             (map_option (unfold_ref nodes d) cs)
              | None => None
              end
          | None => None
          end
      end
  end.

(** The returned structure is a finite tree when some depth exhausts every
    branch below the root. *)
Definition finite_tree (root : TreeRoot) (nodes : dict Node.t) : Prop :=
  exists depth ts,
    map_option (unfold_ref nodes depth) (root_refs root) = Some ts.

(** ** Where the raw structural mapper raises *)

(** The loop over the children inside [elem_to_dict], by name. *)
Fixpoint children_loop (l : list Element) (d : RawDict) : result RawDict :=
  match l with
  | [] => Ok d
  | child :: r =>
      match elem_to_dict child with
      | Raise e => Raise e
      | Ok child_dict =>
          match setdefault_append d (child_key child) child_dict with
          | Raise e => Raise e
          | Ok d' => children_loop r d'
          end
      end
  end.

Definition is_ok {A : Type} (r : result A) : bool :=
  match r with
  | Ok _ => true
  | Raise _ => false
  end.

Definition has_attrs (a : dict string) : bool :=
  match a with
  | [] => false
  | _ :: _ => true
  end.

Definition has_text (t : option string) : bool :=
  match nonblank t with
  | Some _ => true
  | None => false
  end.

(** A child whose key is taken by the attributes or the text of its
    parent. *)
Definition clashing_child (a : dict string) (t : option string)
  (c : Element) : bool :=
  (has_attrs a && (child_key c =? "_attrs"))
  || (has_text t && (child_key c =? "_text")).

(** Some element of the tree has a clashing child. *)
Fixpoint reserved_clash (e : Element) : bool :=
  match e with
  | Elem _ a t cs =>
      (fix any (l : list Element) : bool :=
         match l with
         | [] => false
         | c :: r => clashing_child a t c || reserved_clash c || any r
         end) cs
  end.

(** The dict under construction holds lists, except for the attribute dict
    under ["_attrs"] and the text under ["_text"] when the element has
    them. *)
Definition head_shape (A T : bool) (d : RawDict) : Prop :=
  (forall k,
      match dict_get d k with
      | None => True
      | Some (RList _) => True
      | Some (RAttrs _) => k = "_attrs" /\ A = true
      | Some (RText _) => k = "_text" /\ T = true
      end)
  /\ (A = true -> exists a, dict_get d "_attrs" = Some (RAttrs a))
  /\ (T = true -> exists s, dict_get d "_text" = Some (RText s)).

(** ** A small document

    [<database>] with two people, [P1] named Ann and [P2] without a name,
    and one family [F1] with father [P1], an unknown mother [M9] and the
    children [P2] and [X7] (unknown). *)
Module Example.
Definition family : Element :=
  Elem "family" [("handle", "F1")] None
    [Elem "father" [("ref", "P1")] None [];
     Elem "mother" [] (Some " M9 ") [];
     Elem "child" [("ref", "P2")] None [];
     Elem "child" [] None [Elem "ref" [] (Some "X7") []]].

Definition root : Element :=
  Elem "database" [] None
    [Elem "people" [] None
       [Elem "person" [("handle", "P1")] None
          [Elem "name" [] None [Elem "formatted" [] (Some "Ann") []]];
        Elem "person" [("handle", "P2")] None []];
     Elem "families" [] None [family]].

Definition fromstring (_ : string) : result Element := Ok root.
Definition basename (s : string) : string := s.
Definition path_join (a b : string) : string := a ++ "/" ++ b.

Definition empty_output : Output.t :=
  Output.mk [] [] [] [] [] [] [] [] [] [] [] (Roots []) [].

Definition output : Output.t :=
  Eval vm_compute in
    match convert fromstring basename path_join "" None None None with
    | Ok out => out
    | Raise _ => empty_output
    end.

Definition graph : Graph.t :=
  Eval vm_compute in
    match parse_people (Buckets.people (collect_objects root)),
          parse_families (Buckets.families (collect_objects root)) with
    | Ok people, Ok families => Graph.mk people families
    | _, _ => Graph.mk [] []
    end.

Definition nobody : Person.t := Person.mk None [] [] [] [] [] [] [] None.
Definition P1 : Person.t :=
  Eval vm_compute in
    match dict_get (Graph.people graph) "P1" with
    | Some p => p
    | None => nobody
    end.
Definition P2 : Person.t :=
  Eval vm_compute in
    match dict_get (Graph.people graph) "P2" with
    | Some p => p
    | None => nobody
    end.
Definition F1 : Family.t :=
  Eval vm_compute in
    match dict_get (Graph.families graph) "F1" with
    | Some f => f
    | None => Family.mk "" [] None None []
    end.

(** A person with two names, the second one formatted. *)
Definition jane : Person.t :=
  Person.mk (Some "P3") []
    [Name.mk None (Some "J.") (Some "D.") None None [];
     Name.mk (Some "Jane Doe") None None None None []]
    [] [] [] [] [] None.

(** A document where [A] is both father and child of family [F], and a
    family with a repeated child. *)
Definition cycle_root : Element :=
  Elem "database" [] None
    [Elem "person" [("handle", "A")] None [];
     Elem "family" [("handle", "F")] None
       [Elem "father" [("ref", "A")] None [];
        Elem "child" [("ref", "A")] None []]].
Definition cycle_fromstring (_ : string) : result Element := Ok cycle_root.
Definition cycle_output : Output.t :=
  Eval vm_compute in
    match convert cycle_fromstring basename path_join "" None None None with
    | Ok out => out
    | Raise _ => empty_output
    end.

(** A person with an attribute and a child element named [_attrs]. *)
Definition clash_root : Element :=
  Elem "database" [] None
    [Elem "person" [("handle", "P1")] None [Elem "_attrs" [] None []]].
Definition clash_fromstring (_ : string) : result Element := Ok clash_root.

(** [<database>] holding one event without any identity. *)
Definition event_root : Element :=
  Elem "database" [] None [Elem "event" [] None []].
Definition event_fromstring (_ : string) : result Element := Ok event_root.
Definition event_output : Output.t :=
  Eval vm_compute in
    match convert event_fromstring basename path_join "" None None None with
    | Ok out => out
    | Raise _ => empty_output
    end.
End Example.

(** ** Display text, as the specification words it

    The formatted value of the first name whose formatted value is not
    absent; else given and surname of the first name joined by a space and
    trimmed; else, when that is empty too, the handle or ["<Unknown>"]. *)
Definition display_name_spec (p : Person.t) : string :=
  let fallback := match Person.handle p with
                  | Some h => h
                  | None => "<Unknown>"
                  end in
  match find (fun nm => match Name.formatted nm with
                        | Some _ => true
                        | None => false
                        end) (Person.names p) with
  | Some nm => or_empty (Name.formatted nm)
  | None =>
      match Person.names p with
      | nm :: _ =>
          let composed := strip (or_empty (Name.given nm) ++ " "
                                 ++ or_empty (Name.surname nm)) in
          if truthy composed then composed else fallback
      | [] => fallback
      end
  end.

(** ** Explicit identity, as the specification words it *)
Definition has_identity (el : Element) : bool :=
  dict_mem (attrib el) "handle" || dict_mem (attrib el) "id"
  || existsb (fun c => stag_in c ["handle"; "id"] && negb (blank c))
             (subelements el).


(** ** Further notions used by the additional properties *)

(** The keys of a raw form that the element itself, not a child, fills. *)
Definition own_key (a : dict string) (t : option string) (k : string) : bool :=
  (has_attrs a && (k =? "_attrs")) || (has_text t && (k =? "_text")).

(** The children stored under the key [k], in document order. *)
Definition children_keyed (k : string) (cs : list Element) : list Element :=
  filter (fun c => child_key c =? k) cs.



(** Two alias lists without a common spelling. *)
Definition disjoint_tags (A B : list string) : bool :=
  forallb (fun a => negb (mem_str a B)) A.

(** The ten buckets and the alias lists that feed them, in the order in
    which [collect_objects] tests them. *)
Definition bucket_list (b : Buckets.t) : list (list Element) :=
  [Buckets.people b; Buckets.families b; Buckets.events b; Buckets.places b;
   Buckets.media b; Buckets.sources b; Buckets.citations b;
   Buckets.repositories b; Buckets.notes b; Buckets.tags b].

Definition alias_list : list (list string) :=
  [TAG_ALIASES.person; TAG_ALIASES.family; TAG_ALIASES.event;
   TAG_ALIASES.place; TAG_ALIASES.media; TAG_ALIASES.sources;
   TAG_ALIASES.citations; TAG_ALIASES.repositories; TAG_ALIASES.notes;
   TAG_ALIASES.tags].

(** The elements of a tree, in document order, whose stripped tag is one
    of [aliases]. *)
Definition tagged (aliases : list string) (root : Element) : list Element :=
  filter (fun el => stag_in el aliases) (iter root).


(** The last family, in processing order, that lists [H] as a child. *)
Definition last_family_of_child (H : string) (families : dict Family.t)
  : option string :=
  option_map fst
    (find (fun item => mem_str H (Family.children (snd item)))
          (rev families)).

(** An element that [collect_objects] puts into some bucket. *)
Definition classified (el : Element) : bool :=
  existsb (stag_in el) alias_list.

(** No element of the bucket has a child named as a reserved key in
    use. *)
Definition clash_free (els : list Element) : bool :=
  forallb (fun el => negb (reserved_clash el)) els.

(** [rank] goes down from every known person to each of its known
    gathered children: the parent-child relation has no cycle. *)
Definition ranked (rank : string -> nat) (people : dict Person.t)
  (families : dict Family.t) : bool :=
  forallb
    (fun hp =>
       forallb (fun ch => negb (dict_mem people ch)
                          || (rank ch <? rank (fst hp))%nat)
               (children_handles families (snd hp)))
    people.

(** The depth that exhausts the tree below a reference. *)
Definition depth_needed (rank : string -> nat) (r : NodeRef) : nat :=
  match r with
  | Leaf _ => 1
  | Cached h => rank h + 2
  end.

(** The people without [families_as_child], in the order of the
    mapping. *)
Definition parentless (people : dict Person.t) : list string :=
  map fst
      (filter (fun hp => negb (otruthy (Person.families_as_child (snd hp))))
              people).

(** ** File handling

    [read_gramps_bytes] up to its collaborators: [tarfile] (the members
    of a gzip-compressed archive in archive order, each with its name and
    the bytes [extractfile] gives, if it gives a file object at all), the
    file system and [gzip].  What these raise is passed on. *)

Definition endswith (s suffix : string) : bool :=
  (String.length suffix <=? String.length s)%nat
  && (substring (String.length s - String.length suffix)
                (String.length suffix) s =? suffix).

(** [str.lower] on one character, for code points below 256. *)
Definition lower_char (c : ascii) : ascii :=
  let n := nat_of_ascii c in
  if (((65 <=? n) && (n <=? 90))
      || ((192 <=? n) && (n <=? 222) && negb (n =? 215)))%nat
  then ascii_of_nat (n + 32)
  else c.

Fixpoint lower (s : string) : string :=
  match s with
  | EmptyString => EmptyString
  | String c r => String (lower_char c) (lower r)
  end.

Definition is_archive_path (path : string) : bool :=
  endswith path ".gpkg" || endswith path ".tar.gz" || endswith path ".tgz".

Definition is_document_name (name : string) : bool :=
  endswith name ".gramps" || endswith name ".xml".

Definition media_extensions : list string :=
  [".jpg"; ".jpeg"; ".png"; ".gif"; ".bmp"; ".mp3"; ".wav"; ".pdf"; ".mp4"].

Definition is_media_name (name : string) : bool :=
  existsb (endswith (lower name)) media_extensions.

Inductive read_exn (E : Type) : Type :=
| FileNotFoundError          (* no document inside the archive *)
| Collaborator (e : E).      (* raised by tarfile, open or gzip *)
Arguments FileNotFoundError {E}.
Arguments Collaborator {E} e.

Module Archive.
Record t : Type := mk {
  xml_bytes : option string;
  media_map : dict string
}.
End Archive.

(** One turn of [for member in tar.getmembers()]. *)
Definition scan_member (st : Archive.t) (member : string * option string)
  : Archive.t :=
  let '(name, f) := member in
  if is_document_name name then
    match f with
    | Some data => Archive.mk (Some data) (Archive.media_map st)
    | None => st
    end
  else if is_media_name name then
    match f with
    | Some data =>
        Archive.mk (Archive.xml_bytes st)
                   (dict_set (Archive.media_map st) name data)
    | None => st
    end
  else st.

Definition scan_members (members : list (string * option string))
  : Archive.t :=
  fold_left scan_member members (Archive.mk None []).

Section ReadGramps.
Variable E : Type.
Variable tar_members : string -> E + list (string * option string).
Variable read_file : string -> E + string.
Variable gzip_decompress : string -> E + string.

Definition gzip_magic : string :=
  String (ascii_of_nat 31) (String (ascii_of_nat 139) EmptyString).

Definition read_gramps_bytes (path : string)
  : read_exn E + (string * dict string) :=
  if is_archive_path path then
    match tar_members path with
    | inl e => inl (Collaborator e)
    | inr members =>
        match Archive.xml_bytes (scan_members members) with
        | None => inl FileNotFoundError
        | Some xml => inr (xml, Archive.media_map (scan_members members))
        end
    end
  else
    match read_file path with
    | inl e => inl (Collaborator e)
    | inr content =>
        if substring 0 2 content =? gzip_magic then
          match gzip_decompress content with
          | inl e => inl (Collaborator e)
          | inr xml => inr (xml, [])
          end
        else inr (content, [])
    end.
End ReadGramps.

(** The readable members that are documents, and those that are media
    files, with their bytes. *)
Definition documents (members : list (string * option string))
  : list string :=
  flat_map (fun m => match snd m with
                     | Some data => if is_document_name (fst m) then [data]
                                    else []
                     | None => []
                     end) members.

Definition media_members (members : list (string * option string))
  : list (string * string) :=
  flat_map (fun m => match snd m with
                     | Some data =>
                         if negb (is_document_name (fst m))
                            && is_media_name (fst m)
                         then [(fst m, data)] else []
                     | None => []
                     end) members.

(** The bytes of the media members called [name], in archive order. *)
Definition media_named (name : string)
  (members : list (string * option string)) : list string :=
  map snd (filter (fun m => fst m =? name) (media_members members)).

(** A person element none of whose children is a name or display
    element. *)
Definition nameless (p : Element) : bool :=
  forallb (fun c => negb (stag_in c ["name"; "names"; "display_name";
                                     "personal_name"; "display"]))
          (subelements p).

(** The handle [parse_generic] synthesizes for the [i]-th record. *)
Definition obj_handle (i : nat) : string := "obj_" ++ str_of_nat i.

(** A non-empty child handle of one of the families a person is a parent
    of. *)
Definition child_of (families : dict Family.t) (p : Person.t) (ch : string)
  : Prop :=
  ch <> ""
  /\ exists fh fam,
      In fh (Person.families_as_parent p)
      /\ dict_get families fh = Some fam
      /\ In ch (Family.children fam).

(** No media file is written: there is no target directory or no
    auxiliary file, so [convert] does no input or output of its own. *)
Definition no_extraction (media_map : option (dict string))
  (extract_media_dir : option string) : bool :=
  negb (otruthy extract_media_dir
        && match media_map with
           | Some (_ :: _) => true
           | _ => false
           end).

(** The media record that stands for the auxiliary file [name] written
    under the directory [dir]. *)
Definition extracted_record (basename : string -> string)
  (path_join : string -> string -> string) (dir name : string) : Media.t :=
  Media.mk (basename name)
           [("_attrs", RAttrs [("source_name", name)])]
           (Some (path_join dir (basename name))).

(** The member names of the auxiliary mapping whose base name is [k], in
    the order of the mapping. *)
Definition members_named (basename : string -> string) (k : string)
  (members : dict string) : list string :=
  filter (fun name => basename name =? k) (dict_keys members).

(** * Properties *)

(** ** Dicts *)

Lemma dict_get_set_same {V : Type} (d : dict V) (k : string) (v : V) :
  dict_get (dict_set d k v) k = Some v.
Proof.
  induction d as [|[k' v'] r IH]; simpl.
  - now rewrite String.eqb_refl.
  - destruct (k' =? k) eqn:E; simpl.
    + now rewrite String.eqb_refl.
    + now rewrite E.
Qed.

Lemma dict_get_set_other {V : Type} (d : dict V) (k k' : string) (v : V) :
  k <> k' -> dict_get (dict_set d k v) k' = dict_get d k'.
Proof.
  intros Hne. induction d as [|[k0 v0] r IH]; simpl.
  - destruct (String.eqb_spec k k'); [contradiction | reflexivity].
  - destruct (String.eqb_spec k0 k) as [->|Hk]; simpl.
    + destruct (String.eqb_spec k k'); [contradiction | reflexivity].
    + destruct (String.eqb_spec k0 k'); [reflexivity | exact IH].
Qed.

Lemma dict_get_set {V : Type} (d : dict V) (k k' : string) (v : V) :
  dict_get (dict_set d k v) k' = if k =? k' then Some v else dict_get d k'.
Proof.
  destruct (String.eqb_spec k k') as [->|Hne].
  - apply dict_get_set_same.
  - now apply dict_get_set_other.
Qed.

Lemma dict_keys_set_present {V : Type} (d : dict V) (k : string) (v v0 : V) :
  dict_get d k = Some v0 -> dict_keys (dict_set d k v) = dict_keys d.
Proof.
  induction d as [|[k' v'] r IH]; simpl; [discriminate|].
  destruct (String.eqb_spec k' k) as [->|Hk]; simpl; intros Hg.
  - reflexivity.
  - f_equal. now apply IH.
Qed.

Lemma dict_mem_set {V : Type} (d : dict V) (k k' : string) (v : V) :
  dict_mem (dict_set d k v) k' = (k =? k') || dict_mem d k'.
Proof.
  unfold dict_mem. rewrite dict_get_set.
  now destruct (k =? k').
Qed.

Lemma dict_get_In {V : Type} (d : dict V) (k : string) (v : V) :
  dict_get d k = Some v -> In (k, v) d.
Proof.
  induction d as [|[k' v'] r IH]; simpl; [discriminate|].
  destruct (String.eqb_spec k' k) as [->|Hk]; intros Hg.
  - left. congruence.
  - right. now apply IH.
Qed.

Lemma dict_set_In {V : Type} (d : dict V) (k : string) (v : V) kv :
  In kv (dict_set d k v) -> kv = (k, v) \/ In kv d.
Proof.
  induction d as [|[k' v'] r IH]; simpl.
  - intros [<-|[]]. now left.
  - destruct (k' =? k); simpl.
    + intros [<-|Hin]; [now left | right; now right].
    + intros [<-|Hin]; [right; now left|].
      destruct (IH Hin); [now left | right; now right].
Qed.

(** ** Exceptions *)

Lemma bind_Ok {A B : Type} (m : result A) (k : A -> result B) (b : B) :
  bind m k = Ok b -> exists a, m = Ok a /\ k a = Ok b.
Proof.
  destruct m as [a|e]; simpl; [|discriminate].
  intros Hk. now exists a.
Qed.

Ltac bind_inv H :=
  let a := fresh "a" in
  let Ha := fresh "Ha" in
  apply bind_Ok in H; destruct H as (a & Ha & H).

(** ** Cross-linking *)

Lemma option_map_id {A : Type} (o : option A) : option_map (fun x => x) o = o.
Proof. now destruct o. Qed.

Lemma link_child_person fh fam people ch H :
  dict_get (link_child fh fam people ch) H
  = option_map (fun p => child_effect fh fam H p ch) (dict_get people H).
Proof.
  unfold link_child, child_effect.
  destruct (String.eqb_spec ch H) as [->|Hne].
  - destruct (dict_get people H) as [p|] eqn:Hp; simpl.
    + now rewrite dict_get_set_same.
    + now rewrite Hp.
  - rewrite option_map_id.
    destruct (dict_get people ch); [now apply dict_get_set_other | reflexivity].
Qed.

Lemma link_parent_person fh people parent H :
  dict_get (link_parent fh people parent) H
  = option_map (fun p => parent_effect fh H p parent) (dict_get people H).
Proof.
  unfold link_parent, parent_effect.
  destruct parent as [h|]; [|now rewrite option_map_id].
  destruct (truthy h); simpl; [|now rewrite option_map_id].
  destruct (String.eqb_spec h H) as [->|Hne].
  - destruct (dict_get people H) as [p|] eqn:Hp; simpl.
    + now rewrite dict_get_set_same.
    + now rewrite Hp.
  - rewrite option_map_id.
    destruct (dict_get people h); [now apply dict_get_set_other | reflexivity].
Qed.

Lemma fold_left_person {A : Type}
  (step : dict Person.t -> A -> dict Person.t)
  (eff : Person.t -> A -> Person.t) (H : string) :
  (forall people a,
      dict_get (step people a) H
      = option_map (fun p => eff p a) (dict_get people H)) ->
  forall xs people,
    dict_get (fold_left step xs people) H
    = option_map (fun p => fold_left eff xs p) (dict_get people H).
Proof.
  intros Hstep xs. induction xs as [|a r IH]; intros people; simpl.
  - now rewrite option_map_id.
  - rewrite IH, Hstep. now destruct (dict_get people H).
Qed.

Lemma link_family_person g item H :
  dict_get (Graph.people (link_family g item)) H
  = option_map (fun p => family_effect H p item) (dict_get (Graph.people g) H).
Proof.
  destruct item as [fh fam]. unfold link_family, family_effect.
  cbn [Graph.people fst snd].
  rewrite (fold_left_person (link_parent fh) (parent_effect fh H) H
             (fun people a => link_parent_person fh people a H)).
  rewrite (fold_left_person (link_child fh fam) (child_effect fh fam H) H
             (fun people a => link_child_person fh fam people a H)).
  now destruct (dict_get (Graph.people g) H).
Qed.

Lemma link_families_person fams g H :
  dict_get (Graph.people (fold_left link_family fams g)) H
  = option_map (fun p => fold_left (family_effect H) fams p)
               (dict_get (Graph.people g) H).
Proof.
  revert g. induction fams as [|item r IH]; intros g; simpl.
  - now rewrite option_map_id.
  - rewrite IH, link_family_person. now destruct (dict_get (Graph.people g) H).
Qed.

(** [cross_link] acts on each stored person as [family_effect], family by
    family. *)
Lemma cross_link_person g H :
  dict_get (Graph.people (cross_link g)) H
  = option_map (fun p => fold_left (family_effect H) (Graph.families g) p)
               (dict_get (Graph.people g) H).
Proof. apply link_families_person. Qed.

Lemma link_child_keys fh fam people ch :
  dict_keys (link_child fh fam people ch) = dict_keys people.
Proof.
  unfold link_child. destruct (dict_get people ch) eqn:Hp; [|reflexivity].
  eapply dict_keys_set_present; eassumption.
Qed.

Lemma link_parent_keys fh people parent :
  dict_keys (link_parent fh people parent) = dict_keys people.
Proof.
  unfold link_parent. destruct parent as [h|]; [|reflexivity].
  destruct (truthy h); [|reflexivity].
  destruct (dict_get people h) eqn:Hp; [|reflexivity].
  eapply dict_keys_set_present; eassumption.
Qed.

Lemma fold_left_keys {A : Type} (step : dict Person.t -> A -> dict Person.t) :
  (forall people a, dict_keys (step people a) = dict_keys people) ->
  forall xs people, dict_keys (fold_left step xs people) = dict_keys people.
Proof.
  intros Hstep xs. induction xs as [|a r IH]; intros people; simpl.
  - reflexivity.
  - now rewrite IH, Hstep.
Qed.

Lemma link_family_keys g item :
  dict_keys (Graph.people (link_family g item)) = dict_keys (Graph.people g).
Proof.
  destruct item as [fh fam]. unfold link_family. cbn [Graph.people].
  rewrite (fold_left_keys (link_parent fh) (link_parent_keys fh)).
  now rewrite (fold_left_keys (link_child fh fam) (link_child_keys fh fam)).
Qed.

Lemma link_family_families g item :
  Graph.families (link_family g item) = Graph.families g.
Proof. now destruct item. Qed.

Lemma link_families_frame fams g :
  Graph.families (fold_left link_family fams g) = Graph.families g
  /\ dict_keys (Graph.people (fold_left link_family fams g))
     = dict_keys (Graph.people g).
Proof.
  revert g. induction fams as [|item r IH]; intros g; simpl.
  - now split.
  - destruct (IH (link_family g item)) as [Hf Hk].
    rewrite Hf, Hk, link_family_families, link_family_keys. now split.
Qed.

(** The loop leaves the family mapping as it found it. *)
Lemma cross_link_families g :
  Graph.families (cross_link g) = Graph.families g.
Proof. apply link_families_frame. Qed.

(** The loop neither adds nor removes a person. *)
Lemma cross_link_keys g :
  dict_keys (Graph.people (cross_link g)) = dict_keys (Graph.people g).
Proof. apply link_families_frame. Qed.

(** *** The fields of one person through the loop *)

Lemma fold_left_field_app {A B : Type} (eff : Person.t -> A -> Person.t)
  (field : Person.t -> list B) (g : A -> list B) :
  (forall p a, field (eff p a) = field p ++ g a) ->
  forall xs p, field (fold_left eff xs p) = field p ++ flat_map g xs.
Proof.
  intros Heff xs. induction xs as [|a r IH]; intros p; simpl.
  - now rewrite app_nil_r.
  - now rewrite IH, Heff, app_assoc.
Qed.

Lemma fold_left_field_same {A B : Type} (eff : Person.t -> A -> Person.t)
  (field : Person.t -> B) :
  (forall p a, field (eff p a) = field p) ->
  forall xs p, field (fold_left eff xs p) = field p.
Proof.
  intros Heff xs. induction xs as [|a r IH]; intros p; simpl.
  - reflexivity.
  - now rewrite IH, Heff.
Qed.

Lemma family_effect_children H p item :
  Person.children (family_effect H p item) = Person.children p.
Proof.
  unfold family_effect.
  rewrite (fold_left_field_same _ Person.children).
  - apply (fold_left_field_same _ Person.children).
    intros q ch. unfold child_effect. now destruct (ch =? H).
  - intros q o. unfold parent_effect. destruct o as [h|]; [|reflexivity].
    now destruct (truthy h && (h =? H)).
Qed.

Lemma family_effect_parents H p item :
  Person.parents (family_effect H p item)
  = Person.parents p ++ parents_from H item.
Proof.
  unfold family_effect.
  rewrite (fold_left_field_same _ Person.parents).
  - apply (fold_left_field_app _ Person.parents).
    intros q ch. unfold child_effect.
    destruct (ch =? H); simpl; [reflexivity | now rewrite app_nil_r].
  - intros q o. unfold parent_effect. destruct o as [h|]; [|reflexivity].
    now destruct (truthy h && (h =? H)).
Qed.

Lemma family_effect_families_as_parent H p item :
  Person.families_as_parent (family_effect H p item)
  = Person.families_as_parent p ++ families_from H item.
Proof.
  unfold family_effect, families_from.
  rewrite (fold_left_field_app _ Person.families_as_parent
             (fun o => match o with
                       | Some h => if truthy h && (h =? H) then [fst item]
                                   else []
                       | None => []
                       end)).
  - f_equal. apply (fold_left_field_same _ Person.families_as_parent).
    intros q ch. unfold child_effect. now destruct (ch =? H).
  - intros q o. unfold parent_effect.
    destruct o as [h|]; [|now rewrite app_nil_r].
    destruct (truthy h && (h =? H)); simpl;
      [reflexivity | now rewrite app_nil_r].
Qed.

Lemma child_effects_families_as_child fh fam H chs p :
  Person.families_as_child (fold_left (child_effect fh fam H) chs p)
  = if mem_str H chs then Some fh else Person.families_as_child p.
Proof.
  revert p. induction chs as [|ch r IH]; intros p; simpl; [reflexivity|].
  rewrite IH. unfold child_effect. rewrite (String.eqb_sym H ch).
  destruct (ch =? H); simpl; [now destruct (mem_str H r) | reflexivity].
Qed.

Lemma family_effect_families_as_child H p item :
  Person.families_as_child (family_effect H p item)
  = if mem_str H (Family.children (snd item)) then Some (fst item)
    else Person.families_as_child p.
Proof.
  unfold family_effect.
  rewrite (fold_left_field_same _ Person.families_as_child).
  - apply child_effects_families_as_child.
  - intros q o. unfold parent_effect. destruct o as [h|]; [|reflexivity].
    now destruct (truthy h && (h =? H)).
Qed.

Lemma mem_str_In s l : mem_str s l = true <-> In s l.
Proof.
  unfold mem_str. rewrite existsb_exists. split.
  - intros (x & Hin & Heq). apply String.eqb_eq in Heq. now subst.
  - intros Hin. exists s. split; [assumption | apply String.eqb_refl].
Qed.

Lemma mem_str_not_In s l : mem_str s l = false <-> ~ In s l.
Proof.
  rewrite <- mem_str_In. now destruct (mem_str s l).
Qed.

Lemma families_effect_children H fams p :
  Person.children (fold_left (family_effect H) fams p) = Person.children p.
Proof.
  apply (fold_left_field_same _ Person.children).
  intros q item. apply family_effect_children.
Qed.

Lemma families_effect_parents H fams p :
  Person.parents (fold_left (family_effect H) fams p)
  = Person.parents p ++ flat_map (parents_from H) fams.
Proof.
  apply (fold_left_field_app _ Person.parents).
  intros q item. apply family_effect_parents.
Qed.

Lemma families_effect_families_as_parent H fams p :
  Person.families_as_parent (fold_left (family_effect H) fams p)
  = Person.families_as_parent p ++ flat_map (families_from H) fams.
Proof.
  apply (fold_left_field_app _ Person.families_as_parent).
  intros q item. apply family_effect_families_as_parent.
Qed.

Lemma families_effect_not_child H fams p :
  (forall item, In item fams -> ~ In H (Family.children (snd item))) ->
  Person.families_as_child (fold_left (family_effect H) fams p)
  = Person.families_as_child p.
Proof.
  revert p. induction fams as [|item r IH]; intros p Hno; simpl.
  - reflexivity.
  - rewrite IH by (intros i Hi; apply Hno; now right).
    rewrite family_effect_families_as_child.
    assert (Hm : mem_str H (Family.children (snd item)) = false)
      by (apply mem_str_not_In, Hno; now left).
    now rewrite Hm.
Qed.

(** The last family that lists [H] as a child decides
    [families_as_child]. *)
Lemma families_effect_last_child H pre fh fam post p :
  In H (Family.children fam) ->
  (forall item, In item post -> ~ In H (Family.children (snd item))) ->
  Person.families_as_child
    (fold_left (family_effect H) (pre ++ (fh, fam) :: post) p) = Some fh.
Proof.
  intros Hin Hno. rewrite fold_left_app. simpl.
  rewrite families_effect_not_child by assumption.
  rewrite family_effect_families_as_child. simpl.
  apply mem_str_In in Hin. now rewrite Hin.
Qed.

Lemma parents_from_child H fh fam :
  In H (Family.children fam) ->
  exists l1 l2, parents_from H (fh, fam) = l1 ++ present_parents fam ++ l2.
Proof.
  unfold parents_from. simpl. induction (Family.children fam) as [|ch r IH].
  - intros [].
  - intros [->|Hin]; simpl.
    + rewrite String.eqb_refl. exists [].
      now eexists.
    + destruct (IH Hin) as (l1 & l2 & ->).
      exists ((if ch =? H then present_parents fam else []) ++ l1), l2.
      now rewrite app_assoc.
Qed.

Lemma present_parents_In x fam :
  In x (present_parents fam) ->
  truthy x = true /\ (Family.father fam = Some x \/ Family.mother fam = Some x).
Proof.
  unfold present_parents. simpl. rewrite app_nil_r, in_app_iff.
  intros [Hin|Hin].
  - destruct (Family.father fam) as [f|]; [|destruct Hin].
    destruct (truthy f) eqn:Ht; [|destruct Hin].
    destruct Hin as [<-|[]]. split; [assumption | now left].
  - destruct (Family.mother fam) as [m|]; [|destruct Hin].
    destruct (truthy m) eqn:Ht; [|destruct Hin].
    destruct Hin as [<-|[]]. split; [assumption | now right].
Qed.

Lemma families_from_parent x fh fam :
  In x (present_parents fam) -> In fh (families_from x (fh, fam)).
Proof.
  intros Hin. apply present_parents_In in Hin. destruct Hin as [Ht [Hf|Hm]];
    unfold families_from; simpl; rewrite app_nil_r, in_app_iff.
  - left. rewrite Hf, Ht, String.eqb_refl. now left.
  - right. rewrite Hm, Ht, String.eqb_refl. now left.
Qed.

Lemma flat_map_split {A B : Type} (f : A -> list B) pre x post :
  flat_map f (pre ++ x :: post)
  = flat_map f pre ++ f x ++ flat_map f post.
Proof. now rewrite flat_map_app. Qed.

Lemma present_parents_explicit fam :
  present_parents fam
  = match Family.father fam with
    | Some x => if x =? "" then [] else [x]
    | None => []
    end
    ++ match Family.mother fam with
       | Some x => if x =? "" then [] else [x]
       | None => []
       end.
Proof.
  unfold present_parents, truthy. simpl. rewrite app_nil_r. f_equal.
  - destruct (Family.father fam) as [x|]; [|reflexivity].
    now destruct (x =? "").
  - destruct (Family.mother fam) as [x|]; [|reflexivity].
    now destruct (x =? "").
Qed.

Lemma present_parents_intro x fam :
  Family.father fam = Some x \/ Family.mother fam = Some x ->
  x <> "" -> In x (present_parents fam).
Proof.
  intros Hx Hne.
  assert (Ht : truthy x = true).
  { unfold truthy. destruct (String.eqb_spec x ""); [contradiction|].
    reflexivity. }
  unfold present_parents. simpl. rewrite app_nil_r, in_app_iff.
  destruct Hx as [-> | ->]; [left | right]; rewrite Ht; now left.
Qed.

(** C1.  After the cross-linking loop, for every family [fam] stored
    under [fh]:
    - every child handle [H] of [fam] that is a key of the people mapping
      has [families_as_child] equal to [fh] when no family processed
      later lists [H] (the last such family wins), and its [parents]
      were extended by the father handle of [fam] followed by the mother
      handle of [fam], each only if present (not [None] and not empty),
      with nothing removed or merged;
    - every present father or mother handle of [fam] that is a key of
      the people mapping had [fh] appended to its [families_as_parent],
      whether or not [fam] has any known child;
    - the key sequence of the people mapping is unchanged and a handle
      that is no key stays none: unknown handles create no record.
    The loop is a total function, so nothing is raised. *)
Theorem cross_link_child_and_parents :
  forall (g : Graph.t) pre fh fam post,
    Graph.families g = pre ++ (fh, fam) :: post ->
    (forall H p0,
        In H (Family.children fam) ->
        dict_get (Graph.people g) H = Some p0 ->
        exists p',
          dict_get (Graph.people (cross_link g)) H = Some p'
          /\ ((forall item,
                  In item post -> ~ In H (Family.children (snd item)))
              -> Person.families_as_child p' = Some fh)
          /\ exists l1 l2,
              Person.parents p'
              = Person.parents p0 ++ l1
                ++ (match Family.father fam with
                    | Some x => if x =? "" then [] else [x]
                    | None => []
                    end
                    ++ match Family.mother fam with
                       | Some x => if x =? "" then [] else [x]
                       | None => []
                       end)
                ++ l2)
    /\ (forall x q0,
           Family.father fam = Some x \/ Family.mother fam = Some x ->
           x <> "" ->
           dict_get (Graph.people g) x = Some q0 ->
           exists q' l1 l2,
             dict_get (Graph.people (cross_link g)) x = Some q'
             /\ Person.families_as_parent q'
                = Person.families_as_parent q0 ++ l1 ++ fh :: l2)
    /\ dict_keys (Graph.people (cross_link g)) = dict_keys (Graph.people g)
    /\ (forall H,
           dict_get (Graph.people g) H = None ->
           dict_get (Graph.people (cross_link g)) H = None).
Proof.
  intros g pre fh fam post Hfams. split; [|split; [|split]].
  - intros H p0 Hin Hp0.
    exists (fold_left (family_effect H) (Graph.families g) p0).
    split; [now rewrite cross_link_person, Hp0|].
    split; [intros Hno; rewrite Hfams;
            now apply families_effect_last_child|].
    rewrite families_effect_parents, Hfams, flat_map_split.
    destruct (parents_from_child H fh fam Hin) as (l1 & l2 & ->).
    rewrite present_parents_explicit.
    exists (flat_map (parents_from H) pre ++ l1),
           (l2 ++ flat_map (parents_from H) post).
    now rewrite <- !app_assoc.
  - intros x q0 Hx Hne Hq0.
    exists (fold_left (family_effect x) (Graph.families g) q0).
    destruct (in_split _ _ (families_from_parent x fh fam
                              (present_parents_intro x fam Hx Hne)))
      as (a & b & Hab).
    exists (flat_map (families_from x) pre ++ a),
           (b ++ flat_map (families_from x) post).
    split; [now rewrite cross_link_person, Hq0|].
    rewrite families_effect_families_as_parent, Hfams, flat_map_split, Hab.
    now rewrite <- !app_assoc.
  - apply cross_link_keys.
  - intros H Hnone. now rewrite cross_link_person, Hnone.
Qed.

(** ** Parsers *)

Lemma for_each_invariant {A S : Type} (P : S -> Prop)
  (body : S -> A -> result S) :
  (forall st x st', P st -> body st x = Ok st' -> P st') ->
  forall xs st st', P st -> for_each body xs st = Ok st' -> P st'.
Proof.
  intros Hbody xs. induction xs as [|x r IH]; intros st st' HP Hrun; simpl in *.
  - now inversion Hrun; subst.
  - bind_inv Hrun. eapply IH; [|eassumption]. eapply Hbody; eassumption.
Qed.

Lemma dict_keys_set_In {V : Type} (d : dict V) (k k' : string) (v : V) :
  In k' (dict_keys (dict_set d k v)) -> k' = k \/ In k' (dict_keys d).
Proof.
  unfold dict_keys. rewrite in_map_iff. intros ([k0 v0] & <- & Hin).
  apply dict_set_In in Hin. destruct Hin as [Heq|Hin].
  - left. now inversion Heq.
  - right. apply in_map_iff. now exists (k0, v0).
Qed.

Lemma dict_set_NoDup {V : Type} (d : dict V) (k : string) (v : V) :
  NoDup (dict_keys d) -> NoDup (dict_keys (dict_set d k v)).
Proof.
  induction d as [|[k' v'] r IH]; simpl; intros Hnd.
  - constructor; [intros [] | constructor].
  - inversion Hnd as [|? ? Hnotin Hr]; subst.
    destruct (String.eqb_spec k' k) as [->|Hk]; simpl.
    + now constructor.
    + constructor; [|now apply IH].
      intros Hin. apply dict_keys_set_In in Hin. destruct Hin; auto.
Qed.

Lemma dict_In_get {V : Type} (d : dict V) (k : string) (v : V) :
  NoDup (dict_keys d) -> In (k, v) d -> dict_get d k = Some v.
Proof.
  induction d as [|[k' v'] r IH]; simpl; intros Hnd Hin; [destruct Hin|].
  inversion Hnd as [|? ? Hnotin Hr]; subst.
  destruct Hin as [Heq|Hin].
  - inversion Heq; subst. now rewrite String.eqb_refl.
  - destruct (String.eqb_spec k' k) as [->|Hk]; [|now apply IH].
    exfalso. apply Hnotin. apply in_map_iff. now exists (k, v).
Qed.

Lemma parse_person_fresh out p out' :
  fresh_people out -> parse_person out p = Ok out' -> fresh_people out'.
Proof.
  intros [Hnd Hrec] Hrun. unfold parse_person in Hrun.
  bind_inv Hrun. bind_inv Hrun. bind_inv Hrun.
  inversion Hrun; subst; clear Hrun. split.
  - now apply dict_set_NoDup.
  - intros h q. rewrite dict_get_set.
    destruct (String.eqb_spec (handle_or p "person" out) h) as [<-|Hne].
    + intros Hq. inversion Hq; subst. now simpl.
    + apply Hrec.
Qed.

Lemma parse_people_fresh els people :
  parse_people els = Ok people -> fresh_people people.
Proof.
  unfold parse_people.
  apply (for_each_invariant fresh_people parse_person parse_person_fresh).
  split; [constructor | intros h p; discriminate].
Qed.

Lemma family_field_truthy st c :
  parent_truthy (ff_father st) /\ parent_truthy (ff_mother st) ->
  parent_truthy (ff_father (family_field st c))
  /\ parent_truthy (ff_mother (family_field st c)).
Proof.
  destruct st as [fa mo chs]. simpl. intros [Hfa Hmo]. unfold family_field.
  destruct (stag_in c _).
  { destruct (otruthy (parent_ref c)) eqn:Hr; simpl; [|now split].
    split; [|assumption]. intros x Hx. now rewrite Hx in Hr. }
  destruct (stag_in c _).
  { destruct (otruthy (parent_ref c)) eqn:Hr; simpl; [|now split].
    split; [assumption|]. intros x Hx. now rewrite Hx in Hr. }
  destruct (stag_in c _); [|now split].
  destruct (child_ref c); now split.
Qed.

Lemma family_fields_truthy cs st :
  parent_truthy (ff_father st) /\ parent_truthy (ff_mother st) ->
  parent_truthy (ff_father (fold_left family_field cs st))
  /\ parent_truthy (ff_mother (fold_left family_field cs st)).
Proof.
  revert st. induction cs as [|c r IH]; intros st Hst; simpl; [assumption|].
  apply IH. now apply family_field_truthy.
Qed.

Lemma parse_family_parsed out f out' :
  parsed_families out -> parse_family out f = Ok out' -> parsed_families out'.
Proof.
  intros [Hnd Hrec] Hrun. unfold parse_family in Hrun. bind_inv Hrun.
  pose proof (family_fields_truthy (subelements f)
                (mkFamilyFields None None [])) as Ht.
  destruct (fold_left family_field (subelements f) _) as [fa mo chs].
  inversion Hrun; subst; clear Hrun. split.
  - now apply dict_set_NoDup.
  - intros h fam. rewrite dict_get_set.
    destruct (String.eqb_spec (handle_or f "family" out) h) as [<-|Hne].
    + intros Hq. inversion Hq; subst. simpl in *.
      split; [reflexivity|]. apply Ht. split; intros x; discriminate.
    + apply Hrec.
Qed.

Lemma parse_families_parsed els families :
  parse_families els = Ok families -> parsed_families families.
Proof.
  unfold parse_families.
  apply (for_each_invariant parsed_families parse_family parse_family_parsed).
  split; [constructor | intros h p; discriminate].
Qed.

(** On a parsed family, the handles the linking loop treats as present are
    the father, then the mother, each unless it is [None]. *)
Lemma parse_families_parents_truthy els families h fam :
  parse_families els = Ok families ->
  dict_get families h = Some fam ->
  present_parents fam
  = match Family.father fam with Some x => [x] | None => [] end
    ++ match Family.mother fam with Some x => [x] | None => [] end.
Proof.
  intros Hp Hg. apply parse_families_parsed in Hp. destruct Hp as [_ Hrec].
  destruct (Hrec h fam Hg) as (_ & Hfa & Hmo).
  unfold present_parents. simpl. rewrite app_nil_r. f_equal.
  - destruct (Family.father fam) as [x|]; [|reflexivity].
    now rewrite (Hfa x eq_refl).
  - destruct (Family.mother fam) as [x|]; [|reflexivity].
    now rewrite (Hmo x eq_refl).
Qed.

(** ** The composite object *)

Section ConvertFacts.
Variable fromstring : string -> result Element.
Variable basename : string -> string.
Variable path_join : string -> string -> string.

Lemma convert_Ok xml_bytes media_map extract_media_dir root_person out :
  convert fromstring basename path_join xml_bytes media_map
          extract_media_dir root_person = Ok out ->
  exists xml_root people families,
    fromstring xml_bytes = Ok xml_root
    /\ parse_people (Buckets.people (collect_objects xml_root)) = Ok people
    /\ parse_families (Buckets.families (collect_objects xml_root))
       = Ok families
    /\ Output.people out
       = Graph.people (cross_link (Graph.mk people families))
    /\ Output.families out
       = Graph.families (cross_link (Graph.mk people families))
    /\ (Output.tree_root out, Output.tree_nodes out)
       = build_treant_tree (Output.people out) (Output.families out)
                           root_person.
Proof.
  unfold convert. intros Hrun.
  bind_inv Hrun. rename a into xml_root.
  bind_inv Hrun. rename a into people.
  bind_inv Hrun. rename a into families.
  do 8 bind_inv Hrun.
  destruct (build_treant_tree _ _ root_person) as [tree_root nodes] eqn:Ht.
  inversion Hrun; subst; clear Hrun. cbn [Output.people Output.families
    Output.tree_root Output.tree_nodes].
  exists xml_root, people, families. now rewrite Ht.
Qed.
End ConvertFacts.

(** Witness of [cross_link_child_and_parents] on the small document:
    [P2] is a child of [F1], whose father [P1] is known and whose mother
    [M9] is not. *)
Lemma cross_link_child_and_parents_witness :
  Graph.families Example.graph = [] ++ ("F1", Example.F1) :: []
  /\ (exists p',
         dict_get (Graph.people (cross_link Example.graph)) "P2" = Some p'
         /\ Person.families_as_child p' = Some "F1"
         /\ exists l1 l2, Person.parents p' = [] ++ l1 ++ ["P1"; "M9"] ++ l2)
  /\ (exists q' l1 l2,
         dict_get (Graph.people (cross_link Example.graph)) "P1" = Some q'
         /\ Person.families_as_parent q' = [] ++ l1 ++ "F1" :: l2)
  /\ dict_keys (Graph.people (cross_link Example.graph)) = ["P1"; "P2"]
  /\ dict_get (Graph.people (cross_link Example.graph)) "M9" = None.
Proof.
  destruct (cross_link_child_and_parents Example.graph [] "F1" Example.F1 []
              eq_refl) as (Hchild & Hparent & Hkeys & Hunknown).
  split; [reflexivity|]. split; [|split; [|split]].
  - destruct (Hchild "P2" Example.P2 (or_introl eq_refl) eq_refl)
      as (p' & Hget & Hlast & Hparents).
    exists p'. split; [exact Hget|].
    split; [apply Hlast; intros item [] | exact Hparents].
  - apply (Hparent "P1" Example.P1 (or_introl eq_refl));
      [discriminate | reflexivity].
  - exact Hkeys.
  - apply Hunknown. reflexivity.
Defined.

(** C9.  The cross-linking loop leaves the family mapping as it is, and in
    the object [convert] returns the family mapping is exactly the one
    [parse_families] produced from the classified family elements: every
    family record keeps its handle, raw form, father, mother and
    children. *)
Theorem convert_families_from_parser :
  (forall g, Graph.families (cross_link g) = Graph.families g)
  /\ forall fromstring basename path_join xml_bytes media_map
            extract_media_dir root_person out,
      convert fromstring basename path_join xml_bytes media_map
              extract_media_dir root_person = Ok out ->
      exists xml_root,
        fromstring xml_bytes = Ok xml_root
        /\ parse_families (Buckets.families (collect_objects xml_root))
           = Ok (Output.families out).
Proof.
  split; [exact cross_link_families|].
  intros fromstring basename path_join xml_bytes media_map extract_media_dir
         root_person out Hrun.
  apply convert_Ok in Hrun.
  destruct Hrun as (xml_root & people & families & Hx & _ & Hf & _ & Hof & _).
  exists xml_root. split; [assumption|].
  now rewrite Hof, cross_link_families.
Qed.

Lemma convert_families_from_parser_witness :
  convert Example.fromstring Example.basename Example.path_join "" None None
          None = Ok Example.output
  /\ parse_families (Buckets.families (collect_objects Example.root))
     = Ok (Output.families Example.output).
Proof.
  split; [reflexivity|].
  destruct (proj2 convert_families_from_parser Example.fromstring
              Example.basename Example.path_join "" None None None
              Example.output eq_refl) as (xml_root & Hx & Hf).
  inversion Hx; subst. exact Hf.
Defined.

(** C10.  In the object [convert] returns, every person record has an
    empty [children] sequence: [parse_people] stores it empty and neither
    the cross-linking loop nor the tree synthesizer writes to it. *)
Theorem convert_person_children_empty :
  forall fromstring basename path_join xml_bytes media_map extract_media_dir
         root_person out h p,
    convert fromstring basename path_join xml_bytes media_map
            extract_media_dir root_person = Ok out ->
    In (h, p) (Output.people out) ->
    Person.children p = [].
Proof.
  intros fromstring basename path_join xml_bytes media_map extract_media_dir
         root_person out h p Hrun Hin.
  apply convert_Ok in Hrun.
  destruct Hrun as (xml_root & people & families & _ & Hp & _ & Hop & _).
  apply parse_people_fresh in Hp. destruct Hp as [Hnd Hrec].
  rewrite Hop in Hin. apply dict_In_get in Hin.
  - rewrite cross_link_person in Hin. cbn [Graph.people Graph.families] in Hin.
    destruct (dict_get people h) as [p0|] eqn:Hp0; [|discriminate].
    inversion Hin; subst. rewrite families_effect_children.
    now destruct (Hrec h p0 Hp0) as (_ & _ & Hc & _).
  - now rewrite cross_link_keys.
Qed.

Lemma convert_person_children_empty_witness :
  convert Example.fromstring Example.basename Example.path_join "" None None
          None = Ok Example.output
  /\ In ("P1", nth 0 (map snd (Output.people Example.output)) Example.nobody)
        (Output.people Example.output)
  /\ Person.children
       (nth 0 (map snd (Output.people Example.output)) Example.nobody) = [].
Proof.
  split; [reflexivity|]. split; [now left|].
  apply (convert_person_children_empty Example.fromstring Example.basename
           Example.path_join "" None None None Example.output "P1" _ eq_refl).
  now left.
Defined.

(** ** Child references *)

Lemma iter_descendants e : iter e = e :: descendants e.
Proof.
  destruct e as [t a x cs]. unfold descendants. simpl. reflexivity.
Qed.

Lemma nonblank_text_blank e :
  nonblank_text e = if blank e then None else Some (trimmed_text e).
Proof.
  unfold nonblank_text, nonblank, blank, trimmed_text.
  destruct (text e) as [s|]; [|reflexivity].
  destruct s as [|c r]; [reflexivity|]. simpl truthy at 1. simpl andb.
  now destruct (truthy (strip (String c r))).
Qed.

Lemma nonblank_text_truthy e s : nonblank_text e = Some s -> truthy s = true.
Proof.
  unfold nonblank_text, nonblank.
  destruct (text e) as [x|]; [|discriminate].
  destruct (truthy x); simpl; [|discriminate].
  destruct (truthy (strip x)) eqn:Ht; [|discriminate].
  intros Heq. inversion Heq; subst. exact Ht.
Qed.

Lemma find_map_tagged tags l :
  find_map (fun d => if stag_in d tags then nonblank_text d else None) l
  = match find (fun d => stag_in d tags && negb (blank d)) l with
    | Some d => Some (trimmed_text d)
    | None => None
    end.
Proof.
  induction l as [|d r IH]; simpl; [reflexivity|].
  rewrite nonblank_text_blank.
  destruct (stag_in d tags); simpl; [|exact IH].
  destruct (blank d); simpl; [exact IH | reflexivity].
Qed.

Lemma find_map_tagged_truthy tags l s :
  find_map (fun d => if stag_in d tags then nonblank_text d else None) l
  = Some s -> truthy s = true.
Proof.
  induction l as [|d r IH]; simpl; [discriminate|].
  destruct (stag_in d tags); [|exact IH].
  destruct (nonblank_text d) as [x|] eqn:Hx; [|exact IH].
  intros Heq. inversion Heq; subst. eapply nonblank_text_truthy; eassumption.
Qed.

Lemma child_tag_not c names :
  is_child_ref c = true ->
  mem_str "child" names = false ->
  mem_str "child_ref" names = false ->
  mem_str "children" names = false ->
  stag_in c names = false.
Proof.
  unfold is_child_ref, stag_in. destruct (stag c) as [s|]; [|reflexivity].
  simpl. intros Hc H1 H2 H3.
  destruct (String.eqb_spec s "child") as [E|_]; [now rewrite E|].
  destruct (String.eqb_spec s "child_ref") as [E|_]; [now rewrite E|].
  destruct (String.eqb_spec s "children") as [E|_]; [now rewrite E|].
  discriminate.
Qed.

(** On a child-reference element the loop body of [parse_families] picks
    the handle the three-step rule describes. *)
Lemma child_ref_priority c :
  is_child_ref c = true -> child_ref c = child_ref_spec c.
Proof.
  intros Hc. unfold child_ref, child_ref_spec, dict_mem.
  destruct (dict_get (attrib c) "ref") as [r|]; [reflexivity|].
  rewrite iter_descendants. simpl find_map.
  rewrite (child_tag_not c ["handle"; "ref"] Hc) by reflexivity.
  destruct (find_map _ (descendants c)) as [s|] eqn:Hfound.
  - cbn [otruthy]. rewrite (find_map_tagged_truthy _ _ _ Hfound).
    rewrite find_map_tagged in Hfound.
    destruct (find _ (descendants c)); [now symmetry | discriminate].
  - cbn [otruthy]. rewrite find_map_tagged in Hfound.
    destruct (find _ (descendants c)); [discriminate|].
    apply nonblank_text_blank.
Qed.

Lemma family_field_children st c :
  ff_children (family_field st c)
  = ff_children st
    ++ (if is_child_ref c
        then match child_ref_spec c with Some h => [h] | None => [] end
        else []).
Proof.
  destruct st as [fa mo chs]. unfold family_field.
  destruct (is_child_ref c) eqn:Hc.
  - rewrite (child_tag_not c _ Hc) by reflexivity.
    rewrite (child_tag_not c _ Hc) by reflexivity.
    unfold is_child_ref in Hc. rewrite Hc. fold (is_child_ref c) in Hc.
    rewrite (child_ref_priority c Hc).
    destruct (child_ref_spec c); simpl; [reflexivity | now rewrite app_nil_r].
  - unfold is_child_ref in Hc. rewrite Hc, app_nil_r.
    repeat match goal with
           | |- context [if ?b then _ else _] => destruct b
           end; reflexivity.
Qed.

Lemma family_fields_children cs st :
  ff_children (fold_left family_field cs st)
  = ff_children st
    ++ flat_map (fun c => match child_ref_spec c with
                          | Some h => [h]
                          | None => []
                          end)
                (filter is_child_ref cs).
Proof.
  revert st. induction cs as [|c r IH]; intros st; simpl.
  - now rewrite app_nil_r.
  - rewrite IH, family_field_children, <- app_assoc. f_equal.
    destruct (is_child_ref c); reflexivity.
Qed.

(** C4.  The [children] sequence [parse_families] stores for a family
    element holds, for each child-reference element in order, the handle
    chosen by the priority rule ([ref] attribute, else first descendant
    tagged [handle] or [ref] with non-blank text, else the element's own
    non-blank text, all trimmed), and nothing for an element where all
    three fail.  Resolving the references never raises: the only exception
    [parse_families] can meet comes from [elem_to_dict], and whenever that
    succeeds the record is stored. *)
Theorem parse_families_child_refs :
  forall out f raw,
    elem_to_dict f = Ok raw ->
    exists fam,
      parse_family out f = Ok (dict_set out (handle_or f "family" out) fam)
      /\ Family.children fam = children_spec f.
Proof.
  intros out f raw Hraw. unfold parse_family. rewrite Hraw. simpl.
  pose proof (family_fields_children (subelements f)
                (mkFamilyFields None None [])) as Hch.
  destruct (fold_left family_field (subelements f) _) as [fa mo chs].
  eexists. split; [reflexivity|]. exact Hch.
Qed.

Lemma parse_families_child_refs_witness :
  elem_to_dict Example.family = Ok (Family.raw Example.F1)
  /\ exists fam,
      parse_family [] Example.family = Ok [("F1", fam)]
      /\ Family.children fam = ["P2"; "X7"].
Proof.
  split; [reflexivity|].
  destruct (parse_families_child_refs [] Example.family
              (Family.raw Example.F1) eq_refl) as (fam & Hrun & Hch).
  exists fam. split; [exact Hrun | exact Hch].
Defined.

(** ** Display text *)

Lemma find_first {A : Type} (f : A -> bool) pre x post :
  Forall (fun y => f y = false) pre -> f x = true ->
  find f (pre ++ x :: post) = Some x.
Proof.
  intros Hpre Hx. induction Hpre as [|y r Hy _ IH]; simpl.
  - now rewrite Hx.
  - now rewrite Hy.
Qed.

Lemma find_none {A : Type} (f : A -> bool) l :
  Forall (fun y => f y = false) l -> find f l = None.
Proof.
  intros Hl. induction Hl as [|y r Hy _ IH]; simpl; [reflexivity|].
  now rewrite Hy.
Qed.

Lemma truthy_iff s : truthy s = true <-> s <> "".
Proof.
  unfold truthy. destruct (String.eqb_spec s ""); simpl; split; intros;
    congruence.
Qed.

(** The claim as worded fails on a person that has a name entry without
    formatted value, given name or surname (what [parse_people] stores for
    a person without name elements): the display text is empty, not the
    handle. *)
Lemma display_info_not_handle_fallback :
  fst (display_info Example.P2) = ""
  /\ display_name_spec Example.P2 = "P2"
  /\ fst (display_info Example.P2) <> display_name_spec Example.P2.
Proof.
  split; [reflexivity|]. split; [reflexivity|]. discriminate.
Qed.

(** C5.  The handle fallback of [display_info] is never reached for a
    parsed person.  [parse_people] stores a placeholder name entry for a
    person element without name children, here [<person handle="P2"/>];
    [display_info] then takes that entry as primary, composes the empty
    string from its absent given name and surname, and stops there: the
    display text, and the name of the node in the tree, is the empty
    string, where the claim (and the fallback branch of the code) gives
    the handle [P2]. *)
Theorem display_info_parsed_person_not_handle :
  parse_people [Elem "person" [("handle", "P2")] None []]
  = Ok [("P2", Example.P2)]
  /\ Person.names Example.P2
     = [Name.mk None None None None None (Person.raw Example.P2)]
  /\ fst (display_info Example.P2) = ""
  /\ display_name_spec Example.P2 = "P2"
  /\ option_map Node.name (dict_get (Output.tree_nodes Example.output) "P2")
     = Some "".
Proof. repeat split; reflexivity. Qed.

(** What [display_info] computes, case by case.  The display text is the
    formatted value of the first name whose formatted value is neither
    absent nor empty; when no name has one, it is given and surname of
    the first name joined by a space and trimmed, whatever that yields;
    a person without any name entry gets the handle, or ["<Unknown>"]
    without a handle.  A person whose first name has no formatted value
    and whose second has ["Jane Doe"] displays as ["Jane Doe"]; the title
    is always absent. *)
Theorem display_info_cases :
  forall p,
    (forall pre nm post s,
        Person.names p = pre ++ nm :: post ->
        Forall (fun n => otruthy (Name.formatted n) = false) pre ->
        Name.formatted nm = Some s -> s <> "" ->
        display_info p = (s, None))
    /\ (forall nm rest,
           Person.names p = nm :: rest ->
           Forall (fun n => otruthy (Name.formatted n) = false) (nm :: rest) ->
           display_info p
           = (strip (or_empty (Name.given nm) ++ " "
                     ++ or_empty (Name.surname nm)), None))
    /\ (Person.names p = [] ->
        display_info p
        = (match Person.handle p with Some h => h | None => "<Unknown>" end,
           None))
    /\ (forall n1 n2 rest,
           Person.names p = n1 :: n2 :: rest ->
           Name.formatted n1 = None ->
           Name.formatted n2 = Some "Jane Doe" ->
           display_info p = ("Jane Doe", None)).
Proof.
  intros p.
  assert (Hfirst : forall pre nm post s,
             Person.names p = pre ++ nm :: post ->
             Forall (fun n => otruthy (Name.formatted n) = false) pre ->
             Name.formatted nm = Some s -> s <> "" ->
             display_info p = (s, None)).
  { intros pre nm post s Hnames Hpre Hfo Hs. unfold display_info.
    assert (Ht : otruthy (Name.formatted nm) = true)
      by (rewrite Hfo; now apply truthy_iff).
    rewrite Hnames, (find_first _ pre nm post Hpre Ht), Ht.
    unfold or_empty. rewrite Hfo. rewrite Hfo in Ht. simpl in Ht.
    now rewrite Ht. }
  split; [exact Hfirst|]. split; [|split].
  - intros nm rest Hnames Hall. unfold display_info.
    rewrite Hnames, (find_none _ _ Hall). simpl.
    inversion Hall as [|? ? Hnm _]; subst. now rewrite Hnm.
  - intros Hnames. unfold display_info. now rewrite Hnames.
  - intros n1 n2 rest Hnames H1 H2.
    apply (Hfirst [n1] n2 rest "Jane Doe" Hnames); [|assumption|discriminate].
    constructor; [now rewrite H1 | constructor].
Qed.

Lemma display_info_cases_witness :
  Person.names Example.jane
  = [Name.mk None (Some "J.") (Some "D.") None None [];
     Name.mk (Some "Jane Doe") None None None None []]
  /\ display_info Example.jane = ("Jane Doe", None).
Proof.
  split; [reflexivity|].
  exact (proj2 (proj2 (proj2 (display_info_cases Example.jane)))
           _ _ [] eq_refl eq_refl eq_refl).
Defined.

(** ** Synthesized handles *)

Lemma find_map_none {A B : Type} (f : A -> option B) l :
  Forall (fun x => f x = None) l -> find_map f l = None.
Proof.
  intros Hl. induction Hl as [|x r Hx _ IH]; simpl; [reflexivity|].
  now rewrite Hx.
Qed.

(** An element without [handle] or [id] attribute and without non-blank
    [handle] or [id] child has no explicit handle. *)
Lemma extract_handle_none el :
  has_identity el = false -> extract_handle el = None.
Proof.
  unfold has_identity, extract_handle. intros Hid.
  apply orb_false_elim in Hid. destruct Hid as [Hid Hch].
  apply orb_false_elim in Hid. destruct Hid as [Hh Hi].
  rewrite Hh, Hi. apply find_map_none. apply Forall_forall. intros c Hc.
  rewrite nonblank_text_blank.
  destruct (stag_in c ["handle"; "id"]) eqn:Ht; [|reflexivity].
  destruct (blank c) eqn:Hb; [reflexivity|]. exfalso.
  assert (Hex : existsb (fun c => stag_in c ["handle"; "id"]
                                  && negb (blank c)) (subelements el) = true).
  { apply existsb_exists. exists c. now rewrite Ht, Hb. }
  congruence.
Qed.

Lemma handle_or_synth {V : Type} el pre (out : dict V) :
  has_identity el = false ->
  handle_or el pre out = (pre ++ "_" ++ str_of_nat (length out + 1))%string.
Proof.
  intros Hid. unfold handle_or. now rewrite (extract_handle_none el Hid).
Qed.

(** The claim as worded fails for the generic categories: the only event
    of a document, carrying no identity, is stored under ["obj_1"], and
    neither under ["events_1"] nor under ["event_1"]. *)
Lemma convert_event_handle_is_obj :
  has_identity (Elem "event" [] None []) = false
  /\ convert Example.event_fromstring Example.basename Example.path_join ""
             None None None = Ok Example.event_output
  /\ Output.events Example.event_output
     = [("obj_1", Generic.mk "obj_1" [])]
  /\ dict_get (Output.events Example.event_output) "events_1" = None
  /\ dict_get (Output.events Example.event_output) "event_1" = None.
Proof.
  split; [reflexivity|]. split; [reflexivity|].
  split; [reflexivity|]. split; reflexivity.
Qed.

(** C6, amended.  A record whose source element carries no explicit
    identity is stored under a synthesized handle [<prefix>_<n>], where
    [n] is one more than the number of records its category's mapping
    holds at that moment and the prefix is [person] for people, [family]
    for families and [obj] for every other category (events, places,
    media, sources, citations, repositories, notes and tags alike). *)
Theorem synthesized_handles :
  forall el raw,
    has_identity el = false ->
    elem_to_dict el = Ok raw ->
    (forall out : dict Generic.t,
        let h := ("obj_" ++ str_of_nat (length out + 1))%string in
        parse_generic_one out el = Ok (dict_set out h (Generic.mk h raw)))
    /\ (forall out : dict Family.t,
           let h := ("family_" ++ str_of_nat (length out + 1))%string in
           exists fam,
             parse_family out el = Ok (dict_set out h fam)
             /\ Family.handle fam = h)
    /\ (forall (out out' : dict Person.t),
           let h := ("person_" ++ str_of_nat (length out + 1))%string in
           parse_person out el = Ok out' ->
           exists p,
             out' = dict_set out h p /\ Person.handle p = Some h).
Proof.
  intros el raw Hid Hraw. split; [|split].
  - intros out h. unfold parse_generic_one.
    rewrite (handle_or_synth el "obj" out Hid), Hraw. reflexivity.
  - intros out h. unfold parse_family.
    rewrite (handle_or_synth el "family" out Hid), Hraw. simpl bind.
    destruct (fold_left family_field (subelements el) _) as [fa mo chs].
    eexists. split; reflexivity.
  - intros out out' h Hrun. unfold parse_person in Hrun.
    rewrite (handle_or_synth el "person" out Hid) in Hrun.
    do 3 bind_inv Hrun. inversion Hrun; subst. eexists. split; reflexivity.
Qed.

Lemma synthesized_handles_witness :
  has_identity (Elem "event" [] None []) = false
  /\ elem_to_dict (Elem "event" [] None []) = Ok []
  /\ parse_generic_one [("e1", Generic.mk "e1" [])] (Elem "event" [] None [])
     = Ok [("e1", Generic.mk "e1" []); ("obj_2", Generic.mk "obj_2" [])].
Proof.
  split; [reflexivity|]. split; [reflexivity|].
  exact (proj1 (synthesized_handles (Elem "event" [] None []) [] eq_refl
                  eq_refl) [("e1", Generic.mk "e1" [])]).
Defined.

(** ** Tree synthesis: unknown root, no people *)

(** The claim as worded fails for the empty string, which is a root handle
    a caller can pass and is no key of the people mapping of the small
    document: the guard [if root_handle] sends it to root detection, and
    the result is the subtree of [P1]. *)
Lemma build_treant_tree_empty_root_handle :
  dict_get (Output.people Example.output) "" = None
  /\ fst (build_treant_tree (Output.people Example.output)
                            (Output.families Example.output) (Some ""))
     = Single (Cached "P1")
  /\ fst (build_treant_tree (Output.people Example.output)
                            (Output.families Example.output) (Some ""))
     <> Single (Leaf "").
Proof.
  split; [reflexivity|]. split; [reflexivity|]. discriminate.
Qed.

(** C7, amended.  Called with a non-empty root handle that is no key of
    the people mapping, [build_treant_tree] returns, without raising and
    without creating any node object, a single leaf whose display text is
    that handle and which has no children. *)
Theorem build_treant_tree_unknown_root :
  forall people families h,
    h <> "" ->
    dict_get people h = None ->
    build_treant_tree people families (Some h) = (Single (Leaf h), [])
    /\ forall fuel,
        build_treant_tree_fuel people families (S fuel) (Some h)
        = Some (Single (Leaf h), []).
Proof.
  intros people families h Hne Hnone.
  assert (Ht : truthy h = true) by now apply truthy_iff.
  assert (Hfuel : forall fuel,
             build_treant_tree_fuel people families (S fuel) (Some h)
             = Some (Single (Leaf h), [])).
  { intros fuel. unfold build_treant_tree_fuel. simpl otruthy. rewrite Ht.
    simpl. now rewrite Ht, Hnone, Ht. }
  split; [|exact Hfuel].
  unfold build_treant_tree. now rewrite Hfuel.
Qed.

Lemma build_treant_tree_unknown_root_witness :
  "Z9" <> ""
  /\ dict_get (Output.people Example.output) "Z9" = None
  /\ build_treant_tree (Output.people Example.output)
                       (Output.families Example.output) (Some "Z9")
     = (Single (Leaf "Z9"), []).
Proof.
  split; [discriminate|]. split; [reflexivity|].
  apply (build_treant_tree_unknown_root (Output.people Example.output)
           (Output.families Example.output) "Z9");
    [discriminate | reflexivity].
Defined.

(** C8.  With an empty people mapping and no root handle,
    [build_treant_tree] does not fail, whatever the recursion bound, and
    returns exactly the synthetic root node with an empty children list;
    no other node object exists. *)
Theorem build_treant_tree_no_people :
  forall families,
    build_treant_tree [] families None = (Roots [], [])
    /\ forall fuel,
        build_treant_tree_fuel [] families fuel None = Some (Roots [], []).
Proof.
  intros families. split; [reflexivity|]. intros fuel. reflexivity.
Qed.

(** ** Tree synthesis: termination *)

Lemma filter_length_le {A : Type} (f g : A -> bool) l :
  (forall x, g x = true -> f x = true) ->
  length (filter g l) <= length (filter f l).
Proof.
  intros Hgf. induction l as [|x r IH]; simpl; [lia|].
  destruct (g x) eqn:Hg.
  - rewrite (Hgf x Hg). simpl. lia.
  - destruct (f x); simpl; lia.
Qed.

Lemma filter_length_lt {A : Type} (f g : A -> bool) l y :
  (forall x, g x = true -> f x = true) ->
  In y l -> f y = true -> g y = false ->
  length (filter g l) < length (filter f l).
Proof.
  intros Hgf Hin Hfy Hgy. induction l as [|x r IH]; simpl; [destruct Hin|].
  destruct Hin as [->|Hin].
  - rewrite Hfy, Hgy. simpl.
    pose proof (filter_length_le f g r Hgf). lia.
  - specialize (IH Hin). destruct (g x) eqn:Hg.
    + rewrite (Hgf x Hg). simpl. lia.
    + destruct (f x); simpl; lia.
Qed.

Lemma display_info_title p : display_info p = (fst (display_info p), None).
Proof. reflexivity. Qed.

Section TreeFacts.
Variable people : dict Person.t.
Variable families : dict Family.t.

Lemma grows_refl (c : dict Node.t) : grows c c.
Proof. intros k Hk. exact Hk. Qed.

Lemma grows_trans (c1 c2 c3 : dict Node.t) :
  grows c1 c2 -> grows c2 c3 -> grows c1 c3.
Proof. intros H12 H23 k Hk. apply H23, H12, Hk. Qed.

Lemma grows_set (c : dict Node.t) h n : grows c (dict_set c h n).
Proof.
  intros k Hk. rewrite dict_mem_set, Hk. apply orb_true_r.
Qed.

Lemma set_node_children_get (c : dict Node.t) h l k :
  dict_get (set_node_children c h l) k
  = if h =? k then option_map (fun n => Node.set_children n l) (dict_get c h)
    else dict_get c k.
Proof.
  unfold set_node_children. destruct (dict_get c h) as [n|] eqn:Hn.
  - rewrite dict_get_set. reflexivity.
  - destruct (String.eqb_spec h k) as [<-|_]; [now rewrite Hn | reflexivity].
Qed.

Lemma set_node_children_mem (c : dict Node.t) h l k :
  dict_mem (set_node_children c h l) k = dict_mem c k.
Proof.
  unfold dict_mem. rewrite set_node_children_get.
  destruct (String.eqb_spec h k) as [<-|_]; [|reflexivity].
  now destruct (dict_get c h).
Qed.

Lemma uncached_grows c c' :
  grows c c' -> uncached people c' <= uncached people c.
Proof.
  intros Hg. apply filter_length_le. intros k Hk.
  destruct (dict_mem c k) eqn:Hc; [|reflexivity].
  now rewrite (Hg k Hc) in Hk.
Qed.

Lemma uncached_set c h p n :
  dict_get people h = Some p -> dict_mem c h = false ->
  uncached people (dict_set c h n) < uncached people c.
Proof.
  intros Hp Hc. apply filter_length_lt with (y := h).
  - intros k Hk. destruct (dict_mem c k) eqn:Hck; [|reflexivity].
    now rewrite (grows_set c h n k Hck) in Hk.
  - apply dict_get_In in Hp. apply in_map_iff. now exists (h, p).
  - now rewrite Hc.
  - now rewrite dict_mem_set, String.eqb_refl.
Qed.

Lemma uncached_empty : uncached people [] = length people.
Proof.
  unfold uncached, dict_keys. rewrite <- (length_map fst people).
  f_equal. induction (map fst people) as [|k r IH]; simpl; [reflexivity|].
  f_equal. exact IH.
Qed.

Section LoopsTerminate.
Variable rec : string -> dict Node.t -> option (NodeRef * dict Node.t).
Variable bound : nat.
Hypothesis rec_terminates :
  forall h c,
    uncached people c < bound ->
    exists r c', rec h c = Some (r, c') /\ grows c c'.

Lemma node_children_loop_terminates chs :
  forall seen acc c,
    uncached people c < bound ->
    exists l c',
      node_children_loop rec chs seen acc c = Some (l, c') /\ grows c c'.
Proof.
  induction chs as [|ch r IH]; intros seen acc c Hc; simpl.
  - exists acc, c. split; [reflexivity | apply grows_refl].
  - destruct (negb (truthy ch) || mem_str ch seen); [now apply IH|].
    destruct (rec_terminates ch c Hc) as (n & c1 & -> & Hg1).
    destruct (IH (ch :: seen) (acc ++ [n]) c1) as (l & c2 & -> & Hg2).
    + pose proof (uncached_grows c c1 Hg1). lia.
    + exists l, c2. split; [reflexivity|]. eapply grows_trans; eassumption.
Qed.

Lemma build_each_terminates roots :
  forall c,
    uncached people c < bound ->
    exists l c', build_each rec roots c = Some (l, c') /\ grows c c'.
Proof.
  induction roots as [|h r IH]; intros c Hc; simpl.
  - exists [], c. split; [reflexivity | apply grows_refl].
  - destruct (rec_terminates h c Hc) as (n & c1 & -> & Hg1).
    destruct (IH c1) as (l & c2 & -> & Hg2).
    + pose proof (uncached_grows c c1 Hg1). lia.
    + exists (n :: l), c2. split; [reflexivity|].
      eapply grows_trans; eassumption.
Qed.
End LoopsTerminate.

(** One level of [build_person_node], with the name and the empty title
    of [display_info] filled in. *)
Lemma build_person_node_S fuel h c :
  build_person_node people families (S fuel) h c
  = match dict_get people h with
    | None => Some (Leaf (if truthy h then h else "<Unknown>"), c)
    | Some p =>
        if dict_mem c h then Some (Cached h, c)
        else
          match node_children_loop (build_person_node people families fuel)
                  (children_handles families p) [] []
                  (dict_set c h (Node.mk h h (fst (display_info p)) "" h
                                         None)) with
          | None => None
          | Some (l, c2) => Some (Cached h, set_node_children c2 h l)
          end
    end.
Proof. reflexivity. Qed.

(** A bound above the number of people without node object is never
    hit: the call returns. *)
Lemma build_person_node_terminates fuel :
  forall h c,
    uncached people c < fuel ->
    exists r c',
      build_person_node people families fuel h c = Some (r, c')
      /\ grows c c'.
Proof.
  induction fuel as [|fuel IH]; intros h c Hc; [lia|].
  rewrite build_person_node_S.
  destruct (dict_get people h) as [p|] eqn:Hp.
  2: { eexists _, c. split; [reflexivity | apply grows_refl]. }
  destruct (dict_mem c h) eqn:Hm.
  { eexists _, c. split; [reflexivity | apply grows_refl]. }
  set (node := Node.mk h h (fst (display_info p)) "" h None).
  pose proof (uncached_set c h p node Hp Hm) as Hlt.
  destruct (node_children_loop_terminates (build_person_node people families
              fuel) fuel IH (children_handles families p) [] []
              (dict_set c h node)) as (l & c2 & -> & Hg); [lia|].
  eexists _, _. split; [reflexivity|].
  intros k Hk. rewrite set_node_children_mem. apply Hg.
  now apply grows_set.
Qed.
End TreeFacts.

(** ** Tree synthesis: the node graph *)

Section TreeSpec.
Variable people : dict Person.t.
Variable families : dict Family.t.

Lemma extends_refl c : extends people families c c.
Proof.
  intros k. destruct (dict_get c k) eqn:Hk; [reflexivity | now left].
Qed.

Lemma extends_trans c1 c2 c3 :
  extends people families c1 c2 -> extends people families c2 c3 ->
  extends people families c1 c3.
Proof.
  intros H12 H23 k. specialize (H12 k). specialize (H23 k).
  destruct (dict_get c1 k) as [n|].
  - now rewrite H12 in H23.
  - destruct H12 as [H|(p & Hp & H)]; rewrite H in H23; [exact H23|].
    right. now exists p.
Qed.

Lemma ref_of_cached h x :
  ref_of people h = Cached x -> x = h /\ dict_get people h <> None.
Proof.
  unfold ref_of. destruct (dict_get people h); [|discriminate].
  intros Heq. inversion Heq. split; [reflexivity | discriminate].
Qed.

Section LoopsSpec.
Variable rec : string -> dict Node.t -> option (NodeRef * dict Node.t).
Hypothesis rec_spec : call_spec people families rec.

Lemma node_children_loop_spec chs :
  forall seen acc c l c',
    node_children_loop rec chs seen acc c = Some (l, c') ->
    l = acc ++ map (ref_of people) (unique_in_order chs seen)
    /\ extends people families c c'
    /\ grows c c'
    /\ (sound c -> sound c')
    /\ forall ch,
        In (Cached ch) (map (ref_of people) (unique_in_order chs seen)) ->
        dict_mem c' ch = true.
Proof.
  induction chs as [|ch r IH]; intros seen acc c l c' Hrun; simpl in *.
  - inversion Hrun; subst. rewrite app_nil_r.
    split; [reflexivity|]. split; [apply extends_refl|].
    split; [apply grows_refl|]. split; [auto|]. intros ch [].
  - destruct (negb (truthy ch) || mem_str ch seen); [now apply IH|].
    destruct (rec ch c) as [[n c1]|] eqn:Hrec; [|discriminate].
    destruct (rec_spec ch c n c1 Hrec) as (-> & He1 & Hg1 & Hm1 & Hc1).
    destruct (IH _ _ _ _ _ Hrun) as (-> & He2 & Hg2 & Hc2 & Hin2).
    split; [now rewrite <- app_assoc|].
    split; [eapply extends_trans; eassumption|].
    split; [eapply grows_trans; eassumption|].
    split; [auto|].
    intros x [Hx|Hx]; [|now apply Hin2].
    apply ref_of_cached in Hx. destruct Hx as [-> Hp]. auto.
Qed.

Lemma build_each_spec roots :
  forall c l c',
    build_each rec roots c = Some (l, c') ->
    l = map (ref_of people) roots
    /\ extends people families c c'
    /\ grows c c'
    /\ (sound c -> sound c')
    /\ forall ch,
        In (Cached ch) (map (ref_of people) roots) ->
        dict_mem c' ch = true.
Proof.
  induction roots as [|h r IH]; intros c l c' Hrun; simpl in *.
  - inversion Hrun; subst.
    split; [reflexivity|]. split; [apply extends_refl|].
    split; [apply grows_refl|]. split; [auto|]. intros ch [].
  - destruct (rec h c) as [[n c1]|] eqn:Hrec; [|discriminate].
    destruct (build_each rec r c1) as [[ns c2]|] eqn:Hrest;
      [|discriminate].
    inversion Hrun; subst; clear Hrun.
    destruct (rec_spec h c n c1 Hrec) as (-> & He1 & Hg1 & Hm1 & Hc1).
    destruct (IH _ _ _ Hrest) as (-> & He2 & Hg2 & Hc2 & Hin2).
    split; [reflexivity|].
    split; [eapply extends_trans; eassumption|].
    split; [eapply grows_trans; eassumption|].
    split; [auto|].
    intros x [Hx|Hx]; [|now apply Hin2].
    apply ref_of_cached in Hx. destruct Hx as [-> Hp]. auto.
Qed.
End LoopsSpec.

Lemma sound_set_unfinished c h n :
  Node.children n = None -> sound c -> sound (dict_set c h n).
Proof.
  intros Hn [Hc Hnd]. split; [|now apply dict_set_NoDup].
  intros k m l ch Hk Hl Hin. rewrite dict_get_set in Hk.
  destruct (String.eqb_spec h k) as [<-|Hne].
  - inversion Hk; subst. congruence.
  - apply grows_set. eapply Hc; eassumption.
Qed.

Lemma set_node_children_NoDup (c : dict Node.t) h l :
  NoDup (dict_keys c) -> NoDup (dict_keys (set_node_children c h l)).
Proof.
  intros Hnd. unfold set_node_children.
  destruct (dict_get c h); [now apply dict_set_NoDup | assumption].
Qed.

Lemma build_person_node_spec fuel :
  call_spec people families (build_person_node people families fuel).
Proof.
  induction fuel as [|fuel IH]; intros h c r c' Hrun; [discriminate|].
  rewrite build_person_node_S in Hrun.
  destruct (dict_get people h) as [p|] eqn:Hp.
  2: { inversion Hrun; subst. unfold ref_of. rewrite Hp.
       split; [reflexivity|]. split; [apply extends_refl|].
       split; [apply grows_refl|]. split; [|auto].
       intros Hne; now elim Hne. }
  destruct (dict_mem c h) eqn:Hm.
  { inversion Hrun; subst. unfold ref_of. rewrite Hp.
    split; [reflexivity|]. split; [apply extends_refl|].
    split; [apply grows_refl|]. split; auto. }
  set (node := Node.mk h h (fst (display_info p)) "" h None) in Hrun.
  destruct (node_children_loop _ _ _ _ _) as [[l c2]|] eqn:Hloop;
    [|discriminate].
  inversion Hrun; subst; clear Hrun.
  destruct (node_children_loop_spec _ IH _ _ _ _ _ _ Hloop)
    as (Hl & He & Hg & Hc & Hin).
  simpl in Hl. subst l.
  assert (Hnode : dict_get c2 h = Some node).
  { specialize (He h). now rewrite dict_get_set_same in He. }
  assert (Hgc : grows c (set_node_children c2 h
                  (map (ref_of people)
                       (unique_in_order (children_handles families p) [])))).
  { intros k Hk. rewrite set_node_children_mem. apply Hg.
    now apply grows_set. }
  split; [unfold ref_of; now rewrite Hp|].
  split; [|split; [exact Hgc|split]].
  - intros k. rewrite set_node_children_get.
    destruct (String.eqb_spec h k) as [<-|Hne].
    + unfold dict_mem in Hm. destruct (dict_get c h); [discriminate|].
      right. exists p. split; [assumption|]. now rewrite Hnode.
    + specialize (He k). now rewrite dict_get_set_other in He.
  - intros _. rewrite set_node_children_mem. apply Hg.
    now rewrite dict_mem_set, String.eqb_refl.
  - intros Hs.
    assert (Hs2 : sound c2) by (apply Hc; now apply sound_set_unfinished).
    destruct Hs2 as [Hc2 Hnd2].
    split; [|now apply set_node_children_NoDup].
    intros k m l ch Hk Hl Hch. rewrite set_node_children_mem.
    rewrite set_node_children_get in Hk.
    destruct (String.eqb_spec h k) as [<-|Hne].
    + rewrite Hnode in Hk. inversion Hk; subst. simpl in Hl.
      inversion Hl; subst. now apply Hin.
    + eapply Hc2; eassumption.
Qed.
End TreeSpec.

(** ** Tree synthesis: the bound does not matter *)

Section TreeFuel.
Variable people : dict Person.t.
Variable families : dict Family.t.

Section LoopsMono.
Variables rec1 rec2 : string -> dict Node.t
                      -> option (NodeRef * dict Node.t).
Hypothesis rec_le :
  forall h c res, rec1 h c = Some res -> rec2 h c = Some res.

Lemma node_children_loop_mono chs :
  forall seen acc c res,
    node_children_loop rec1 chs seen acc c = Some res ->
    node_children_loop rec2 chs seen acc c = Some res.
Proof.
  induction chs as [|ch r IH]; intros seen acc c res Hrun; simpl in *.
  - exact Hrun.
  - destruct (negb (truthy ch) || mem_str ch seen); [now apply IH|].
    destruct (rec1 ch c) as [[n c1]|] eqn:Hrec; [|discriminate].
    rewrite (rec_le _ _ _ Hrec). now apply IH.
Qed.

Lemma build_each_mono roots :
  forall c res,
    build_each rec1 roots c = Some res ->
    build_each rec2 roots c = Some res.
Proof.
  induction roots as [|h r IH]; intros c res Hrun; simpl in *.
  - exact Hrun.
  - destruct (rec1 h c) as [[n c1]|] eqn:Hrec; [|discriminate].
    rewrite (rec_le _ _ _ Hrec).
    destruct (build_each rec1 r c1) as [[ns c2]|] eqn:Hrest;
      [|discriminate].
    now rewrite (IH _ _ Hrest).
Qed.
End LoopsMono.

Lemma build_person_node_mono_S fuel :
  forall h c res,
    build_person_node people families fuel h c = Some res ->
    build_person_node people families (S fuel) h c = Some res.
Proof.
  induction fuel as [|fuel IH]; intros h c res Hrun; [discriminate|].
  rewrite build_person_node_S in *.
  destruct (dict_get people h) as [p|]; [|exact Hrun].
  destruct (dict_mem c h); [exact Hrun|].
  destruct (node_children_loop (build_person_node people families fuel)
              _ _ _ _) as [[l c2]|] eqn:Hloop; [|discriminate].
  now rewrite (node_children_loop_mono _ _ IH _ _ _ _ _ Hloop).
Qed.

Lemma build_person_node_mono fuel fuel' :
  fuel <= fuel' ->
  forall h c res,
    build_person_node people families fuel h c = Some res ->
    build_person_node people families fuel' h c = Some res.
Proof.
  induction 1 as [|fuel' _ IH]; intros h c res Hrun; [exact Hrun|].
  now apply build_person_node_mono_S, IH.
Qed.

Lemma build_treant_tree_fuel_mono fuel fuel' root_handle res :
  fuel <= fuel' ->
  build_treant_tree_fuel people families fuel root_handle = Some res ->
  build_treant_tree_fuel people families fuel' root_handle = Some res.
Proof.
  intros Hle. unfold build_treant_tree_fuel.
  pose proof (build_person_node_mono fuel fuel' Hle) as Hmono.
  assert (Hone : forall h,
             match build_person_node people families fuel h [] with
             | Some (n, cache) => Some (Single n, cache)
             | None => None
             end = Some res ->
             match build_person_node people families fuel' h [] with
             | Some (n, cache) => Some (Single n, cache)
             | None => None
             end = Some res).
  { intros h Hrun.
    destruct (build_person_node people families fuel h [])
      as [[n c]|] eqn:Hb; [|discriminate].
    now rewrite (Hmono _ _ _ Hb). }
  assert (Hmany : forall roots,
             match build_each (build_person_node people families fuel)
                              roots [] with
             | Some (ns, cache) => Some (Roots ns, cache)
             | None => None
             end = Some res ->
             match build_each (build_person_node people families fuel')
                              roots [] with
             | Some (ns, cache) => Some (Roots ns, cache)
             | None => None
             end = Some res).
  { intros roots Hrun.
    destruct (build_each (build_person_node people families fuel) roots [])
      as [[ns c]|] eqn:Hb; [|discriminate].
    now rewrite (build_each_mono _ _ Hmono _ _ _ Hb). }
  destruct (otruthy root_handle); [apply Hone|].
  destruct (root_candidates people) as [|h [|h' r]];
    [apply Hmany | apply Hone | apply Hmany].
Qed.

Lemma build_treant_tree_fuel_terminates fuel root_handle :
  length people < fuel ->
  exists res,
    build_treant_tree_fuel people families fuel root_handle = Some res.
Proof.
  intros Hfuel. unfold build_treant_tree_fuel.
  assert (H0 : uncached people [] < fuel)
    by now rewrite uncached_empty.
  assert (Hone : forall h,
             exists res,
               match build_person_node people families fuel h [] with
               | Some (n, cache) => Some (Single n, cache)
               | None => None
               end = Some res).
  { intros h.
    destruct (build_person_node_terminates people families fuel h [] H0)
      as (r & c & -> & _). now eexists. }
  assert (Hmany : forall roots,
             exists res,
               match build_each (build_person_node people families fuel)
                                roots [] with
               | Some (ns, cache) => Some (Roots ns, cache)
               | None => None
               end = Some res).
  { intros roots.
    destruct (build_each_terminates people
                (build_person_node people families fuel) fuel
                (build_person_node_terminates people families fuel)
                roots [] H0) as (l & c & -> & _). now eexists. }
  destruct (otruthy root_handle); [apply Hone|].
  destruct (root_candidates people) as [|h [|h' r]];
    [apply Hmany | apply Hone | apply Hmany].
Qed.

(** Any bound above the number of people gives the result of
    [build_treant_tree]. *)
Lemma build_treant_tree_fuel_enough fuel root_handle :
  length people < fuel ->
  build_treant_tree_fuel people families fuel root_handle
  = Some (build_treant_tree people families root_handle).
Proof.
  intros Hfuel. unfold build_treant_tree.
  destruct (build_treant_tree_fuel_terminates (S (length people))
              root_handle (Nat.lt_succ_diag_r _)) as (res & Hres).
  rewrite Hres. apply (build_treant_tree_fuel_mono (S (length people)));
    [lia | exact Hres].
Qed.

Lemma sound_empty : sound ([] : dict Node.t).
Proof.
  split; [intros k n l ch Hk; discriminate | constructor].
Qed.

Lemma build_treant_tree_fuel_spec fuel root_handle root nodes :
  build_treant_tree_fuel people families fuel root_handle
  = Some (root, nodes) ->
  root = expected_root people root_handle
  /\ extends people families [] nodes
  /\ sound nodes
  /\ forall ch, In (Cached ch) (root_refs root) -> dict_mem nodes ch = true.
Proof.
  unfold build_treant_tree_fuel, expected_root.
  pose proof (build_person_node_spec people families fuel) as Hspec.
  assert (Hone : forall h,
             match build_person_node people families fuel h [] with
             | Some (n, cache) => Some (Single n, cache)
             | None => None
             end = Some (root, nodes) ->
             root = Single (ref_of people h)
             /\ extends people families [] nodes
             /\ sound nodes
             /\ forall ch, In (Cached ch) (root_refs root) ->
                           dict_mem nodes ch = true).
  { intros h Hrun.
    destruct (build_person_node people families fuel h [])
      as [[n c]|] eqn:Hb; [|discriminate].
    inversion Hrun; subst; clear Hrun.
    destruct (Hspec h [] n nodes Hb) as (-> & He & _ & Hm & Hs).
    split; [reflexivity|]. split; [exact He|].
    split; [apply Hs, sound_empty|].
    intros ch [Hch|[]]. apply ref_of_cached in Hch.
    destruct Hch as [-> Hp]. auto. }
  assert (Hmany : forall roots,
             match build_each (build_person_node people families fuel)
                              roots [] with
             | Some (ns, cache) => Some (Roots ns, cache)
             | None => None
             end = Some (root, nodes) ->
             root = Roots (map (ref_of people) roots)
             /\ extends people families [] nodes
             /\ sound nodes
             /\ forall ch, In (Cached ch) (root_refs root) ->
                           dict_mem nodes ch = true).
  { intros roots Hrun.
    destruct (build_each (build_person_node people families fuel) roots [])
      as [[ns c]|] eqn:Hb; [|discriminate].
    inversion Hrun; subst; clear Hrun.
    destruct (build_each_spec people families _ Hspec _ _ _ _ Hb)
      as (-> & He & _ & Hs & Hin).
    split; [reflexivity|]. split; [exact He|].
    split; [apply Hs, sound_empty | exact Hin]. }
  destruct (otruthy root_handle); [apply Hone|].
  destruct (root_candidates people) as [|h [|h' r]];
    [apply Hmany | apply Hone | apply Hmany].
Qed.
End TreeFuel.

(** ** Tree synthesis: duplicates among the gathered children *)

Lemma unique_in_order_In chs :
  forall seen x,
    In x (unique_in_order chs seen)
    <-> In x chs /\ x <> "" /\ ~ In x seen.
Proof.
  induction chs as [|ch r IH]; intros seen x; simpl.
  - tauto.
  - destruct (truthy ch) eqn:Ht; simpl.
    + apply truthy_iff in Ht.
      destruct (mem_str ch seen) eqn:Hm.
      * apply mem_str_In in Hm. rewrite IH. split.
        -- intros (Hin & Hne & Hs). auto.
        -- intros ([->|Hin] & Hne & Hs); [contradiction | auto].
      * apply mem_str_not_In in Hm. simpl. rewrite IH. simpl. split.
        -- intros [->|(Hin & Hne & Hs)]; [auto|].
           split; [now right|]. split; [assumption|]. intros Hx. apply Hs.
           now right.
        -- intros ([->|Hin] & Hne & Hs); [now left|].
           destruct (String.eqb_spec ch x) as [->|Hcx]; [now left|].
           right. split; [assumption|]. split; [assumption|].
           intros [Heq|Hx]; [contradiction | contradiction].
    + assert (Hch : ch = "").
      { unfold truthy in Ht. destruct (String.eqb_spec ch ""); [assumption|].
        discriminate. }
      rewrite IH. split.
      * intros (Hin & Hne & Hs). auto.
      * intros ([Heq|Hin] & Hne & Hs); [congruence | auto].
Qed.

Lemma unique_in_order_NoDup chs :
  forall seen, NoDup (unique_in_order chs seen).
Proof.
  induction chs as [|ch r IH]; intros seen; simpl; [constructor|].
  destruct (negb (truthy ch) || mem_str ch seen); [apply IH|].
  constructor; [|apply IH].
  rewrite unique_in_order_In. intros (_ & _ & Hs). apply Hs. now left.
Qed.

Lemma unique_in_order_seen x chs :
  forall seen seen',
    (forall z, mem_str z seen' = (z =? x) || mem_str z seen) ->
    unique_in_order chs seen'
    = unique_in_order (filter (fun y => negb (y =? x)) chs) seen.
Proof.
  induction chs as [|ch r IH]; intros seen seen' Hseen; simpl; [reflexivity|].
  rewrite Hseen. destruct (String.eqb_spec ch x) as [->|Hne]; simpl.
  - rewrite orb_true_r. now apply IH.
  - destruct (negb (truthy ch) || mem_str ch seen); [now apply IH|].
    f_equal. apply IH. intros z. simpl. rewrite Hseen.
    now destruct (z =? ch), (z =? x).
Qed.

(** The first occurrence wins: a non-empty head is kept in front and its
    later copies are the ones dropped. *)
Lemma unique_in_order_head x r :
  x <> "" ->
  unique_in_order (x :: r) []
  = x :: unique_in_order (filter (fun y => negb (y =? x)) r) [].
Proof.
  intros Hx. apply truthy_iff in Hx. simpl. rewrite Hx. simpl. f_equal.
  apply unique_in_order_seen. intros z. reflexivity.
Qed.

(** ** Tree synthesis: cycles *)

Lemma cycle_unfold_none depth :
  unfold_ref (Output.tree_nodes Example.cycle_output) depth (Cached "A")
  = None.
Proof.
  induction depth as [|d IH]; [reflexivity|].
  cbn [unfold_ref]. simpl dict_get. cbn [Node.children map_option].
  now rewrite IH.
Qed.

(** C2.  On a cycle the code does not return a finite tree.  In the
    document where [A] is father and child of the same family, [convert]
    hands [build_treant_tree] a people mapping where [A] is a parent in
    [F] and [F] lists [A] as child; the cache stops the recursion, but the
    node object of [A] that is returned holds itself in its children
    list, so no depth exhausts the structure: it is a cyclic object
    graph, not the finite tree (the nested node structure to be written
    as JSON) that the claim and the code's own comments promise. *)
Lemma build_treant_tree_cycle_not_tree :
  convert Example.cycle_fromstring Example.basename Example.path_join ""
          None None None = Ok Example.cycle_output
  /\ build_treant_tree (Output.people Example.cycle_output)
                       (Output.families Example.cycle_output) None
     = (Single (Cached "A"),
        [("A", Node.mk "A" "A" "" "" "A" (Some [Cached "A"]))])
  /\ ~ finite_tree (Output.tree_root Example.cycle_output)
                   (Output.tree_nodes Example.cycle_output).
Proof.
  split; [reflexivity|]. split; [reflexivity|].
  intros (depth & ts & Hts). unfold root_refs in Hts. simpl in Hts.
  change (match unfold_ref (Output.tree_nodes Example.cycle_output) depth
                  (Cached "A") with
          | Some y => Some [y]
          | None => None
          end = Some ts) in Hts.
  now rewrite cycle_unfold_none in Hts.
Qed.

(** Without a cycle the structure is a finite tree: the one of the small
    document is exhausted at depth 2. *)
Lemma example_finite_tree :
  finite_tree (Output.tree_root Example.output)
              (Output.tree_nodes Example.output).
Proof.
  exists 2. eexists. reflexivity.
Qed.

(** Termination and shape of the result in the model, where the depth of
    the interpreter's call stack is not bounded: any recursion bound
    above the number of people yields the same result; the root is the
    cached node of a known handle or a leaf; the node objects are one per
    handle, each the finished node of a known person, whose children list
    holds one reference per distinct non-empty gathered child handle,
    first occurrence first; every reference resolves to a node object,
    which on a cycle is a node above it; a handle met again while cached
    gets the cached node back with the cache untouched. *)
Theorem build_treant_tree_terminates :
  forall people families root_handle,
    let res := build_treant_tree people families root_handle in
    (forall fuel,
        length people < fuel ->
        build_treant_tree_fuel people families fuel root_handle = Some res)
    /\ fst res = expected_root people root_handle
    /\ (forall k n,
           dict_get (snd res) k = Some n ->
           exists p, dict_get people k = Some p
                     /\ n = final_node people families k p)
    /\ NoDup (dict_keys (snd res))
    /\ (forall ch,
           In (Cached ch) (root_refs (fst res)) ->
           dict_mem (snd res) ch = true)
    /\ (forall k n l ch,
           dict_get (snd res) k = Some n -> Node.children n = Some l ->
           In (Cached ch) l -> dict_mem (snd res) ch = true)
    /\ (forall fuel h c,
           dict_get people h <> None -> dict_mem c h = true ->
           build_person_node people families (S fuel) h c
           = Some (Cached h, c))
    /\ (forall chs,
           NoDup (unique_in_order chs [])
           /\ forall x, In x (unique_in_order chs []) <-> In x chs /\ x <> "")
    /\ (forall x r,
           x <> "" ->
           unique_in_order (x :: r) []
           = x :: unique_in_order (filter (fun y => negb (y =? x)) r) []).
Proof.
  intros people families root_handle res.
  pose proof (build_treant_tree_fuel_enough people families
                (S (length people)) root_handle (Nat.lt_succ_diag_r _))
    as Hres.
  fold res in Hres. destruct res as [root nodes] eqn:Eres.
  destruct (build_treant_tree_fuel_spec people families _ _ _ _ Hres)
    as (Hroot & Hext & [Hclosed Hnd] & Hrefs).
  split; [intros fuel Hfuel; rewrite <- Eres;
          now apply build_treant_tree_fuel_enough|].
  split; [exact Hroot|]. split.
  { intros k n Hk. specialize (Hext k). simpl in Hext, Hk.
    destruct Hext as [Hnone|(p & Hp & Hfin)]; [congruence|].
    exists p. split; [assumption | congruence]. }
  split; [exact Hnd|]. split; [exact Hrefs|]. split; [exact Hclosed|].
  split.
  { intros fuel h c Hp Hm. rewrite build_person_node_S.
    destruct (dict_get people h); [now rewrite Hm | now elim Hp]. }
  split; [|exact unique_in_order_head].
  intros chs. split; [apply unique_in_order_NoDup|].
  intros x. rewrite unique_in_order_In. simpl. tauto.
Qed.

Lemma build_treant_tree_terminates_witness :
  length (Output.people Example.cycle_output) < 2
  /\ build_treant_tree_fuel (Output.people Example.cycle_output)
                            (Output.families Example.cycle_output) 2 None
     = Some (Single (Cached "A"),
             [("A", Node.mk "A" "A" "" "" "A" (Some [Cached "A"]))]).
Proof.
  split; [simpl; lia|].
  exact (proj1 (build_treant_tree_terminates
                  (Output.people Example.cycle_output)
                  (Output.families Example.cycle_output) None)
               2 (le_n 2)).
Defined.

(** ** The raw structural mapper *)

(** C3.  [elem_to_dict] is not total.  On [<a k="v"><_attrs/></a>] the
    attribute dict already sits under the key ["_attrs"] when the child of
    that name arrives; [setdefault] hands the dict back and [append] on it
    raises [AttributeError].  The same happens with non-blank text and a
    child named [_text], with or without a namespace on the child, and
    [convert] raises with it when a classified element is of that kind.
    [elem_to_dict_ok_iff] shows that these clashes are the only inputs on
    which the function does not return. *)
Theorem elem_to_dict_reserved_key_raises :
  elem_to_dict (Elem "a" [("k", "v")] None [Elem "_attrs" [] None []])
  = Raise AttributeError
  /\ elem_to_dict (Elem "a" [] (Some "hi") [Elem "{ns}_text" [] None []])
     = Raise AttributeError
  /\ convert Example.clash_fromstring Example.basename Example.path_join ""
             None None None = Raise AttributeError.
Proof. split; [reflexivity|]. split; reflexivity. Qed.

(** *** Where [elem_to_dict] raises, and where it does not *)

Lemma Element_forall_ind (P : Element -> Prop) :
  (forall t a x cs, Forall P cs -> P (Elem t a x cs)) ->
  forall e, P e.
Proof.
  intros Hstep. fix IH 1. intros [t a x cs]. apply Hstep.
  induction cs as [|c r IHr]; constructor; [apply IH | exact IHr].
Qed.

Lemma elem_to_dict_children t a x cs :
  elem_to_dict (Elem t a x cs) = children_loop cs (elem_to_dict_head a x).
Proof.
  simpl. generalize (elem_to_dict_head a x).
  induction cs as [|c r IH]; intros d; simpl; [reflexivity|].
  destruct (elem_to_dict c) as [cd|e]; [|reflexivity].
  destruct (setdefault_append d (child_key c) cd); [apply IH | reflexivity].
Qed.

Lemma head_shape_empty : head_shape false false [].
Proof.
  split; [intros k; exact I | split; discriminate].
Qed.

Lemma head_shape_attrs a T d :
  head_shape false T d -> dict_get d "_attrs" = None ->
  head_shape true T (dict_set d "_attrs" (RAttrs a)).
Proof.
  intros (Hall & _ & HT) Hnone. split; [|split].
  - intros k. rewrite dict_get_set.
    destruct (String.eqb_spec "_attrs" k) as [<-|Hne]; [now split|].
    specialize (Hall k). destruct (dict_get d k) as [[a'|s|l]|]; auto.
    destruct Hall as [_ Hf]. discriminate.
  - intros _. exists a. apply dict_get_set_same.
  - intros HTt. rewrite dict_get_set_other by discriminate. auto.
Qed.

Lemma head_shape_text s A d :
  head_shape A false d -> dict_get d "_text" = None ->
  head_shape A true (dict_set d "_text" (RText s)).
Proof.
  intros (Hall & HA & _) Hnone. split; [|split].
  - intros k. rewrite dict_get_set.
    destruct (String.eqb_spec "_text" k) as [<-|Hne]; [now split|].
    specialize (Hall k). destruct (dict_get d k) as [[a'|s'|l]|]; auto.
    destruct Hall as [_ Hf]. discriminate.
  - intros HAt. rewrite dict_get_set_other by discriminate. auto.
  - intros _. exists s. apply dict_get_set_same.
Qed.

Lemma head_shape_head a x :
  head_shape (has_attrs a) (has_text x) (elem_to_dict_head a x).
Proof.
  unfold elem_to_dict_head, has_text.
  assert (H1 : head_shape (has_attrs a) false
                 (match a with
                  | [] => []
                  | _ :: _ => dict_set [] "_attrs" (RAttrs a)
                  end)
               /\ dict_get (match a with
                            | [] => []
                            | _ :: _ => dict_set [] "_attrs" (RAttrs a)
                            end) "_text" = None).
  { destruct a as [|kv a]; simpl has_attrs.
    - split; [apply head_shape_empty | reflexivity].
    - split; [|reflexivity].
      apply head_shape_attrs; [apply head_shape_empty | reflexivity]. }
  destruct H1 as [H1 Hnone].
  destruct (nonblank x) as [s|]; [|exact H1].
  now apply head_shape_text.
Qed.

Lemma setdefault_append_shape A T d k cd :
  head_shape A T d ->
  match setdefault_append d k cd with
  | Ok d' => head_shape A T d'
             /\ (A && (k =? "_attrs")) || (T && (k =? "_text")) = false
  | Raise _ => (A && (k =? "_attrs")) || (T && (k =? "_text")) = true
  end.
Proof.
  intros (Hall & HA & HT). unfold setdefault_append.
  pose proof (Hall k) as Hk.
  assert (Hlist : forall v,
             (A = true -> k <> "_attrs") -> (T = true -> k <> "_text") ->
             head_shape A T (dict_set d k (RList v))
             /\ (A && (k =? "_attrs")) || (T && (k =? "_text")) = false).
  { intros v HkA HkT. split.
    - split; [|split].
      + intros k'. rewrite dict_get_set.
        destruct (k =? k'); [exact I | apply Hall].
      + intros HAt. rewrite dict_get_set_other by (intros E; now apply HkA).
        now apply HA.
      + intros HTt. rewrite dict_get_set_other by (intros E; now apply HkT).
        now apply HT.
    - destruct A, T; simpl;
        repeat match goal with
               | |- context [String.eqb ?u ?v] =>
                   destruct (String.eqb_spec u v); simpl
               end; try reflexivity; exfalso;
        first [now apply HkA | now apply HkT]. }
  destruct (dict_get d k) as [[a'|s|l]|] eqn:Hget.
  - destruct Hk as [-> ->]. reflexivity.
  - destruct Hk as [-> ->]. simpl. apply orb_true_r.
  - apply Hlist.
    + intros HAt E. subst k. destruct (HA HAt) as (a' & Ha'). congruence.
    + intros HTt E. subst k. destruct (HT HTt) as (s & Hs). congruence.
  - apply Hlist.
    + intros HAt E. subst k. destruct (HA HAt) as (a' & Ha'). congruence.
    + intros HTt E. subst k. destruct (HT HTt) as (s & Hs). congruence.
Qed.

Lemma children_loop_ok a x cs :
  forall d,
    head_shape (has_attrs a) (has_text x) d ->
    is_ok (children_loop cs d)
    = forallb (fun c => is_ok (elem_to_dict c) && negb (clashing_child a x c))
              cs.
Proof.
  induction cs as [|c r IH]; intros d Hd; simpl; [reflexivity|].
  destruct (elem_to_dict c) as [cd|e]; simpl; [|reflexivity].
  pose proof (setdefault_append_shape _ _ d (child_key c) cd Hd) as Hs.
  unfold clashing_child at 1.
  destruct (setdefault_append d (child_key c) cd) as [d'|e].
  - destruct Hs as [Hd' ->]. simpl. now apply IH.
  - now rewrite Hs.
Qed.

(** [elem_to_dict] returns exactly on the trees without a child named as a
    reserved key that its parent uses; the recursion itself is structural,
    so it always terminates. *)
Lemma elem_to_dict_ok_iff e :
  is_ok (elem_to_dict e) = negb (reserved_clash e).
Proof.
  induction e as [t a x cs IH] using Element_forall_ind.
  rewrite elem_to_dict_children, (children_loop_ok a x cs _
                                    (head_shape_head a x)).
  simpl. induction IH as [|c r Hc _ IHr]; simpl; [reflexivity|].
  rewrite IHr, Hc.
  now destruct (clashing_child a x c), (reserved_clash c).
Qed.

(** * Additional properties *)

(** ** Namespaces *)

Lemma after_brace_app ns t :
  after_brace ns = None -> after_brace (ns ++ String "}" t) = Some t.
Proof.
  induction ns as [|c r IH]; simpl; [reflexivity|].
  destruct (c =? "}")%char; [discriminate | exact IH].
Qed.

(** X1.  [strip_ns] removes a namespace written in front of a tag as
    [{uri}], whatever the uri as long as it holds no closing brace, leaves
    a tag without closing brace as it is, and never turns a tag into
    [None]. *)
Theorem strip_ns_namespace :
  forall ns t,
    after_brace ns = None ->
    strip_ns (Some (String "{" (ns ++ String "}" t))) = Some t
    /\ strip_ns (Some ns) = Some ns
    /\ forall s, strip_ns (Some s) <> None.
Proof.
  intros ns t Hns. split; [|split].
  - unfold strip_ns. simpl. now rewrite (after_brace_app ns t Hns).
  - unfold strip_ns. now rewrite Hns.
  - intros s. unfold strip_ns. destruct (after_brace s); discriminate.
Qed.

Lemma strip_ns_namespace_witness :
  after_brace "http://gramps-project.org/xml/1.7.1/" = None
  /\ strip_ns (Some "{http://gramps-project.org/xml/1.7.1/}person")
     = Some "person".
Proof.
  split; [reflexivity|].
  exact (proj1 (strip_ns_namespace "http://gramps-project.org/xml/1.7.1/"
                  "person" eq_refl)).
Defined.

(** ** The raw form of an element *)

Lemma setdefault_append_exn d k cd x :
  setdefault_append d k cd = Raise x -> x = AttributeError.
Proof.
  unfold setdefault_append.
  destruct (dict_get d k) as [[a|s|l]|]; intros H; now inversion H.
Qed.

Lemma elem_to_dict_exn e :
  forall x, elem_to_dict e = Raise x -> x = AttributeError.
Proof.
  induction e as [t a s cs IH] using Element_forall_ind. intros x.
  rewrite elem_to_dict_children. generalize (elem_to_dict_head a s).
  induction IH as [|c r Hc _ IHr]; intros d; simpl; [discriminate|].
  destruct (elem_to_dict c) as [cd|e] eqn:Hcd.
  - destruct (setdefault_append d (child_key c) cd) as [d'|e] eqn:Hsd.
    + apply IHr.
    + intros H. inversion H; subst. eapply setdefault_append_exn; eassumption.
  - intros H. inversion H; subst. now apply Hc.
Qed.

(** X2.  [elem_to_dict] returns a raw form exactly for the element trees
    in which no child is named as a reserved key that its own parent
    fills ([_attrs] under a parent with attributes, [_text] under a parent
    with non-blank text); on all others it raises, and what it raises is
    always [AttributeError]. *)
Theorem elem_to_dict_returns_iff :
  forall e,
    ((exists d, elem_to_dict e = Ok d) <-> reserved_clash e = false)
    /\ (elem_to_dict e = Raise AttributeError <-> reserved_clash e = true).
Proof.
  intros e. pose proof (elem_to_dict_ok_iff e) as Hok.
  pose proof (elem_to_dict_exn e) as Hexn.
  destruct (elem_to_dict e) as [d|x]; simpl in Hok;
    destruct (reserved_clash e); try discriminate.
  - split; split; try discriminate; intros; eauto.
  - rewrite (Hexn x eq_refl). split; split; try discriminate; auto.
    intros (d & Hd). discriminate.
Qed.

Lemma elem_to_dict_returns_iff_witness :
  reserved_clash Example.family = false
  /\ exists d, elem_to_dict Example.family = Ok d.
Proof.
  split; [reflexivity|].
  exact (proj2 (proj1 (elem_to_dict_returns_iff Example.family)) eq_refl).
Defined.

Lemma setdefault_append_get d k cd d' :
  setdefault_append d k cd = Ok d' ->
  (exists l, dict_get d' k = Some (RList (l ++ [cd]))
             /\ (dict_get d k = None /\ l = []
                 \/ dict_get d k = Some (RList l)))
  /\ forall k', k <> k' -> dict_get d' k' = dict_get d k'.
Proof.
  unfold setdefault_append.
  destruct (dict_get d k) as [[a|s|l]|] eqn:Hget; intros H; inversion H; subst.
  - split.
    + exists l. rewrite dict_get_set_same. split; [reflexivity | now right].
    + intros k' Hne. now apply dict_get_set_other.
  - split.
    + exists []. rewrite dict_get_set_same. split; [reflexivity | now left].
    + intros k' Hne. now apply dict_get_set_other.
Qed.

Lemma children_loop_list k cs :
  forall d0 d l0,
    children_loop cs d0 = Ok d ->
    dict_get d0 k = Some (RList l0) ->
    exists ds,
      map_result elem_to_dict (children_keyed k cs) = Ok ds
      /\ dict_get d k = Some (RList (l0 ++ ds)).
Proof.
  induction cs as [|c r IH]; intros d0 d l0 Hrun Hget; simpl in *.
  - inversion Hrun; subst. exists []. now rewrite app_nil_r.
  - destruct (elem_to_dict c) as [cd|e] eqn:Hcd; [|discriminate].
    destruct (setdefault_append d0 (child_key c) cd) as [d1|e] eqn:Hsd;
      [|discriminate].
    destruct (setdefault_append_get _ _ _ _ Hsd)
      as ((l & Hnew & Hold) & Hother).
    destruct (String.eqb_spec (child_key c) k) as [Hk|Hk].
    + subst k. destruct Hold as [[Hnone _]|Hold]; [congruence|].
      assert (l = l0) by congruence. subst l.
      destruct (IH _ _ _ Hrun Hnew) as (ds & Hds & Hd).
      exists (cd :: ds). simpl. rewrite Hcd. simpl. rewrite Hds. simpl.
      split; [reflexivity|]. now rewrite Hd, <- app_assoc.
    + apply (IH d1 d l0 Hrun). now rewrite Hother.
Qed.

Lemma children_loop_none k cs :
  forall d0 d,
    children_loop cs d0 = Ok d ->
    dict_get d0 k = None ->
    exists ds,
      map_result elem_to_dict (children_keyed k cs) = Ok ds
      /\ dict_get d k = match ds with
                        | [] => None
                        | _ :: _ => Some (RList ds)
                        end.
Proof.
  induction cs as [|c r IH]; intros d0 d Hrun Hget; simpl in *.
  - inversion Hrun; subst. now exists [].
  - destruct (elem_to_dict c) as [cd|e] eqn:Hcd; [|discriminate].
    destruct (setdefault_append d0 (child_key c) cd) as [d1|e] eqn:Hsd;
      [|discriminate].
    destruct (setdefault_append_get _ _ _ _ Hsd)
      as ((l & Hnew & Hold) & Hother).
    destruct (String.eqb_spec (child_key c) k) as [Hk|Hk].
    + subst k. destruct Hold as [[_ ->]|Hold]; [|congruence].
      destruct (children_loop_list _ _ _ _ _ Hrun Hnew) as (ds & Hds & Hd).
      exists (cd :: ds). simpl. rewrite Hcd. simpl. rewrite Hds. simpl.
      split; [reflexivity | exact Hd].
    + apply (IH d1 d Hrun). now rewrite Hother.
Qed.

Lemma children_loop_keeps k v cs :
  forall d0 d,
    children_loop cs d0 = Ok d ->
    dict_get d0 k = Some v ->
    (forall l, v <> RList l) ->
    dict_get d k = Some v.
Proof.
  induction cs as [|c r IH]; intros d0 d Hrun Hget Hv; simpl in *.
  - now inversion Hrun; subst.
  - destruct (elem_to_dict c) as [cd|e] eqn:Hcd; [|discriminate].
    destruct (setdefault_append d0 (child_key c) cd) as [d1|e] eqn:Hsd;
      [|discriminate].
    destruct (setdefault_append_get _ _ _ _ Hsd)
      as ((l & Hnew & Hold) & Hother).
    apply (IH d1 d Hrun); [|exact Hv].
    destruct (String.eqb_spec (child_key c) k) as [Hk|Hk].
    + subst k. destruct Hold as [[Hnone _]|Hold]; [congruence|].
      rewrite Hget in Hold. inversion Hold. now elim (Hv l).
    + now rewrite Hother.
Qed.

Lemma elem_to_dict_head_get a x k :
  dict_get (elem_to_dict_head a x) k
  = if has_attrs a && (k =? "_attrs") then Some (RAttrs a)
    else match nonblank x with
         | Some s => if k =? "_text" then Some (RText s) else None
         | None => None
         end.
Proof.
  unfold elem_to_dict_head.
  destruct (nonblank x) as [s|]; destruct a as [|kv a]; simpl has_attrs;
    cbn [andb]; rewrite ?dict_get_set; cbn [dict_get];
    rewrite ?(String.eqb_sym k);
    repeat match goal with
           | |- context [String.eqb ?u ?v] =>
               destruct (String.eqb_spec u v); subst; try discriminate
           end; reflexivity.
Qed.

(** X3.  When [elem_to_dict] returns, the raw form holds the attribute
    dict under [_attrs] if the element has attributes, the trimmed text
    under [_text] if the text is not blank, and under every other key the
    raw forms of exactly the children of that key, in document order and
    without merging repeated ones; a key no child has is absent. *)
Theorem elem_to_dict_groups :
  forall t a x cs d,
    elem_to_dict (Elem t a x cs) = Ok d ->
    (has_attrs a = true -> dict_get d "_attrs" = Some (RAttrs a))
    /\ (forall s, nonblank x = Some s -> dict_get d "_text" = Some (RText s))
    /\ forall k,
        own_key a x k = false ->
        exists ds,
          map_result elem_to_dict (children_keyed k cs) = Ok ds
          /\ dict_get d k = match ds with
                            | [] => None
                            | _ :: _ => Some (RList ds)
                            end.
Proof.
  intros t a x cs d Hrun. rewrite elem_to_dict_children in Hrun.
  split; [|split].
  - intros Ha. apply (children_loop_keeps _ _ _ _ _ Hrun);
      [|intros l; discriminate].
    rewrite elem_to_dict_head_get, Ha. reflexivity.
  - intros s Hs. apply (children_loop_keeps _ _ _ _ _ Hrun);
      [|intros l; discriminate].
    rewrite elem_to_dict_head_get, Hs. simpl.
    now rewrite andb_false_r.
  - intros k Hk. apply (children_loop_none _ _ _ _ Hrun).
    rewrite elem_to_dict_head_get. unfold own_key, has_text in Hk.
    apply orb_false_elim in Hk. destruct Hk as [Hk1 Hk2]. rewrite Hk1.
    destruct (nonblank x); [|reflexivity].
    simpl in Hk2. now rewrite Hk2.
Qed.

Lemma elem_to_dict_groups_witness :
  elem_to_dict Example.family = Ok (Family.raw Example.F1)
  /\ own_key [("handle", "F1")] None "child" = false
  /\ exists ds,
      map_result elem_to_dict (children_keyed "child"
                                 (subelements Example.family)) = Ok ds
      /\ dict_get (Family.raw Example.F1) "child"
         = match ds with
           | [] => None
           | _ :: _ => Some (RList ds)
           end.
Proof.
  split; [reflexivity|]. split; [reflexivity|].
  exact (proj2 (proj2 (elem_to_dict_groups "family" [("handle", "F1")] None
                         (subelements Example.family)
                         (Family.raw Example.F1) eq_refl))
           "child" eq_refl).
Defined.

(** ** Handles *)

Lemma find_map_some {A B : Type} (f : A -> option B) l x y :
  In x l -> f x = Some y -> find_map f l <> None.
Proof.
  induction l as [|z r IH]; simpl; [intros []|].
  intros [->|Hin] Hx.
  - now rewrite Hx.
  - destruct (f z); [discriminate | now apply IH].
Qed.

Lemma dict_mem_get {V : Type} (d : dict V) k :
  dict_mem d k = true <-> exists v, dict_get d k = Some v.
Proof.
  unfold dict_mem. destruct (dict_get d k) as [v|]; split;
    try discriminate; eauto. intros (v & Hv). discriminate.
Qed.

Lemma extract_handle_attr el h :
  dict_get (attrib el) "handle" = Some h -> extract_handle el = Some h.
Proof.
  intros Hh. unfold extract_handle, dict_mem. now rewrite Hh.
Qed.

(** X4.  [extract_handle] finds a handle exactly when the element carries
    an identity: a [handle] attribute wins over an [id] attribute, and
    both win over the text of [handle] or [id] children, of which the
    first non-blank one counts; without any of these the result is
    [None]. *)
Theorem extract_handle_identity :
  forall el,
    (extract_handle el = None <-> has_identity el = false)
    /\ (forall h,
           dict_get (attrib el) "handle" = Some h ->
           extract_handle el = Some h)
    /\ (forall i,
           dict_get (attrib el) "handle" = None ->
           dict_get (attrib el) "id" = Some i ->
           extract_handle el = Some i)
    /\ (dict_get (attrib el) "handle" = None ->
        dict_get (attrib el) "id" = None ->
        extract_handle el
        = match find (fun c => stag_in c ["handle"; "id"] && negb (blank c))
                     (subelements el) with
          | Some c => Some (trimmed_text c)
          | None => None
          end).
Proof.
  intros el. split; [|split; [|split]].
  - split; [|apply extract_handle_none].
    intros Hnone. destruct (has_identity el) eqn:Hid; [|reflexivity].
    exfalso. unfold has_identity in Hid. unfold extract_handle in Hnone.
    apply orb_true_iff in Hid. destruct Hid as [Hid|Hch].
    + apply orb_true_iff in Hid. destruct Hid as [Hh|Hi].
      * rewrite Hh in Hnone. apply dict_mem_get in Hh.
        destruct Hh as (v & Hv). congruence.
      * destruct (dict_mem (attrib el) "handle") eqn:Hh.
        -- apply dict_mem_get in Hh. destruct Hh as (v & Hv). congruence.
        -- rewrite Hi in Hnone. apply dict_mem_get in Hi.
           destruct Hi as (v & Hv). congruence.
    + destruct (dict_mem (attrib el) "handle") eqn:Hh.
      { apply dict_mem_get in Hh. destruct Hh as (v & Hv). congruence. }
      destruct (dict_mem (attrib el) "id") eqn:Hi.
      { apply dict_mem_get in Hi. destruct Hi as (v & Hv). congruence. }
      apply existsb_exists in Hch. destruct Hch as (c & Hin & Hc).
      apply andb_true_iff in Hc. destruct Hc as [Ht Hb].
      revert Hnone. apply (find_map_some _ _ c (trimmed_text c) Hin).
      rewrite Ht, nonblank_text_blank.
      now destruct (blank c).
  - apply extract_handle_attr.
  - intros i Hh Hi. unfold extract_handle, dict_mem. now rewrite Hh, Hi.
  - intros Hh Hi. unfold extract_handle, dict_mem. rewrite Hh, Hi.
    apply find_map_tagged.
Qed.

Lemma extract_handle_identity_witness :
  dict_get (attrib Example.family) "handle" = Some "F1"
  /\ extract_handle Example.family = Some "F1".
Proof.
  split; [reflexivity|].
  exact (proj1 (proj2 (extract_handle_identity Example.family)) "F1" eq_refl).
Defined.

Lemma truthy_app_l a b : truthy a = true -> truthy (a ++ b)%string = true.
Proof. destruct a; [discriminate | reflexivity]. Qed.

Lemma handle_or_nonempty {V : Type} el pre (out : dict V) :
  pre <> "" -> handle_or el pre out <> "".
Proof.
  intros Hpre. apply truthy_iff. unfold handle_or.
  apply truthy_iff in Hpre.
  destruct (extract_handle el) as [h|]; [|now apply truthy_app_l].
  destruct (truthy h) eqn:Hh; [exact Hh | now apply truthy_app_l].
Qed.



(** ** What the parsers store *)

Lemma dict_set_length {V : Type} (d : dict V) k v :
  length (dict_set d k v) <= S (length d).
Proof.
  induction d as [|[k' v'] r IH]; simpl; [lia|].
  destruct (k' =? k); simpl; lia.
Qed.

Lemma for_each_length {A V : Type} (body : dict V -> A -> result (dict V)) :
  (forall st x st', body st x = Ok st' -> length st' <= S (length st)) ->
  forall xs st st',
    for_each body xs st = Ok st' -> length st' <= length st + length xs.
Proof.
  intros Hbody xs. induction xs as [|x r IH]; intros st st' Hrun; simpl in *.
  - inversion Hrun; subst. lia.
  - bind_inv Hrun. apply Hbody in Ha. apply IH in Hrun. lia.
Qed.

Lemma for_each_invariant_in {A S : Type} (P : S -> Prop)
  (body : S -> A -> result S) (all : list A) :
  (forall st x st', In x all -> P st -> body st x = Ok st' -> P st') ->
  forall xs st st',
    incl xs all -> P st -> for_each body xs st = Ok st' -> P st'.
Proof.
  intros Hbody xs. induction xs as [|x r IH]; intros st st' Hin HP Hrun;
    simpl in *.
  - now inversion Hrun; subst.
  - bind_inv Hrun. eapply IH; [| |eassumption].
    + intros y Hy. apply Hin. now right.
    + eapply Hbody; [|eassumption|eassumption]. apply Hin. now left.
Qed.

Lemma parse_event_refs_truthy p :
  Forall (fun r => r <> "") (parse_event_refs p).
Proof.
  unfold parse_event_refs.
  assert (H : forall l acc,
             Forall (fun r => r <> "") acc ->
             Forall (fun r => r <> "")
               (fold_left
                  (fun refs evref =>
                     match event_ref evref with
                     | Some r => if truthy r then refs ++ [r] else refs
                     | None => refs
                     end) l acc)).
  { induction l as [|c r IH]; intros acc Hacc; simpl; [exact Hacc|].
    apply IH. destruct (event_ref c) as [x|]; [|exact Hacc].
    destruct (truthy x) eqn:Hx; [|exact Hacc].
    apply Forall_app. split; [exact Hacc|].
    constructor; [now apply truthy_iff | constructor]. }
  apply H. constructor.
Qed.

(** X6.  What [parse_people] returns: at most one record per element,
    under distinct non-empty handles; each record carries its key as
    handle and the raw form of one of the person elements, has at least
    one name entry, only non-empty event references, and empty link
    fields ([parents], [children], [families_as_parent],
    [families_as_child]). *)
Theorem parse_people_records :
  forall els people,
    parse_people els = Ok people ->
    NoDup (dict_keys people)
    /\ length people <= length els
    /\ forall h p,
        dict_get people h = Some p ->
        h <> "" /\ Person.handle p = Some h
        /\ (exists el, In el els /\ elem_to_dict el = Ok (Person.raw p))
        /\ Person.names p <> []
        /\ Forall (fun r => r <> "") (Person.event_refs p)
        /\ Person.parents p = [] /\ Person.children p = []
        /\ Person.families_as_parent p = []
        /\ Person.families_as_child p = None.
Proof.
  intros els people Hrun.
  split; [exact (proj1 (parse_people_fresh els people Hrun))|].
  split.
  { apply (for_each_length parse_person) in Hrun; [exact Hrun|].
    intros st x st' Hx. unfold parse_person in Hx. do 3 bind_inv Hx.
    inversion Hx; subst. apply dict_set_length. }
  unfold parse_people in Hrun. revert Hrun.
  apply (for_each_invariant_in
           (fun out => forall h p,
                dict_get out h = Some p ->
                h <> "" /\ Person.handle p = Some h
                /\ (exists el, In el els /\ elem_to_dict el = Ok (Person.raw p))
                /\ Person.names p <> []
                /\ Forall (fun r => r <> "") (Person.event_refs p)
                /\ Person.parents p = [] /\ Person.children p = []
                /\ Person.families_as_parent p = []
                /\ Person.families_as_child p = None)
           parse_person els).
  - intros st x st' Hin HP Hx h p. unfold parse_person in Hx.
    bind_inv Hx. rename a into raw. bind_inv Hx. bind_inv Hx.
    inversion Hx; subst; clear Hx. rewrite dict_get_set.
    destruct (String.eqb_spec (handle_or x "person" st) h) as [<-|Hne];
      [|apply HP].
    intros Hp. inversion Hp; subst; clear Hp.
    cbn [Person.handle Person.raw Person.names Person.event_refs
         Person.parents Person.children Person.families_as_parent
         Person.families_as_child].
    split; [now apply handle_or_nonempty|].
    split; [reflexivity|].
    split; [exists x; split; [exact Hin | assumption]|].
    split; [now destruct a|].
    split; [apply parse_event_refs_truthy|]. now repeat split.
  - apply incl_refl.
  - intros h p. discriminate.
Qed.

Lemma parse_people_records_witness :
  parse_people (Buckets.people (collect_objects Example.root))
  = Ok (Graph.people Example.graph)
  /\ length (Graph.people Example.graph)
     <= length (Buckets.people (collect_objects Example.root)).
Proof.
  split; [reflexivity|].
  exact (proj1 (proj2 (parse_people_records
                         (Buckets.people (collect_objects Example.root))
                         (Graph.people Example.graph) eq_refl))).
Defined.

Lemma last_cons_default {A : Type} (l : list A) x d d' :
  last (x :: l) d = last (x :: l) d'.
Proof.
  revert x. induction l as [|y l IH]; intros x; [reflexivity|].
  change (last (y :: l) d = last (y :: l) d'). apply IH.
Qed.

Lemma last_app {A : Type} (a b : list A) d :
  last (a ++ b) d = last b (last a d).
Proof.
  revert d. induction a as [|x a IH]; intros d; [reflexivity|].
  destruct a as [|y a].
  - destruct b as [|z b]; [reflexivity|].
    change (last (z :: b) d = last (z :: b) x). apply last_cons_default.
  - change (last ((x :: y :: a) ++ b) d) with (last ((y :: a) ++ b) d).
    change (last (x :: y :: a) d) with (last (y :: a) d). apply IH.
Qed.

Lemma stag_in_disjoint c A B :
  disjoint_tags A B = true -> stag_in c A = true -> stag_in c B = false.
Proof.
  unfold disjoint_tags, stag_in. intros Hd.
  destruct (stag c) as [s|]; [|reflexivity]. intros Hs.
  apply mem_str_In in Hs. rewrite forallb_forall in Hd.
  apply Hd in Hs. now destruct (mem_str s B).
Qed.






(** X8.  What [parse_generic] returns, for events, places, media, sources,
    citations, repositories, notes and tags alike: at most one record per
    element, under distinct non-empty handles, each carrying its key as
    handle and the raw form of one of the elements. *)
Theorem parse_generic_records :
  forall els out,
    parse_generic els = Ok out ->
    NoDup (dict_keys out)
    /\ length out <= length els
    /\ forall h r,
        dict_get out h = Some r ->
        h <> "" /\ Generic.handle r = h
        /\ exists el, In el els /\ elem_to_dict el = Ok (Generic.raw r).
Proof.
  intros els out Hrun. split; [|split].
  - revert Hrun. unfold parse_generic.
    apply (for_each_invariant (fun o : dict Generic.t => NoDup (dict_keys o))
             parse_generic_one); [|constructor].
    intros st x st' Hnd Hx. unfold parse_generic_one in Hx. bind_inv Hx.
    inversion Hx; subst. now apply dict_set_NoDup.
  - apply (for_each_length parse_generic_one) in Hrun; [exact Hrun|].
    intros st x st' Hx. unfold parse_generic_one in Hx. bind_inv Hx.
    inversion Hx; subst. apply dict_set_length.
  - revert Hrun. unfold parse_generic.
    apply (for_each_invariant_in
             (fun o => forall h r,
                  dict_get o h = Some r ->
                  h <> "" /\ Generic.handle r = h
                  /\ exists el,
                      In el els /\ elem_to_dict el = Ok (Generic.raw r))
             parse_generic_one els).
    + intros st x st' Hin HP Hx h r. unfold parse_generic_one in Hx.
      bind_inv Hx. inversion Hx; subst; clear Hx. rewrite dict_get_set.
      destruct (String.eqb_spec (handle_or x "obj" st) h) as [<-|Hne];
        [|apply HP].
      intros Hr. inversion Hr; subst; clear Hr.
      cbn [Generic.handle Generic.raw].
      split; [now apply handle_or_nonempty|].
      split; [reflexivity|]. exists x. now split.
    + apply incl_refl.
    + intros h r. discriminate.
Qed.

Lemma parse_generic_records_witness :
  parse_generic [Elem "event" [] None []; Elem "event" [("id", "e7")] None []]
  = Ok [("obj_1", Generic.mk "obj_1" []);
        ("e7", Generic.mk "e7" [("_attrs", RAttrs [("id", "e7")])])]
  /\ NoDup ["obj_1"; "e7"].
Proof.
  split; [reflexivity|].
  exact (proj1 (parse_generic_records
                  [Elem "event" [] None [];
                   Elem "event" [("id", "e7")] None []] _ eq_refl)).
Defined.

(** ** The tag classifier *)

Lemma classify_buckets b el :
  bucket_list (classify b el)
  = map (fun lA => fst lA ++ if stag_in el (snd lA) then [el] else [])
        (combine (bucket_list b) alias_list).
Proof.
  destruct b as [pe fa ev pl me so ci re no ta].
  unfold classify, stag_in.
  destruct (stag el) as [s|];
    [|cbn; now rewrite !app_nil_r].
  unfold alias_list, TAG_ALIASES.person, TAG_ALIASES.family,
    TAG_ALIASES.event, TAG_ALIASES.place, TAG_ALIASES.media,
    TAG_ALIASES.sources, TAG_ALIASES.citations, TAG_ALIASES.repositories,
    TAG_ALIASES.notes, TAG_ALIASES.tags, mem_str.
  cbn [existsb bucket_list combine map fst snd].
  repeat match goal with
         | |- context [String.eqb s ?lit] =>
             destruct (String.eqb_spec s lit) as [E|_];
             [rewrite ?E; cbn; now rewrite ?app_nil_r|]
         end.
  cbn. now rewrite !app_nil_r.
Qed.

Lemma app_if_cons {A : Type} (x l : list A) (c : bool) el :
  (x ++ if c then [el] else []) ++ l = x ++ if c then el :: l else l.
Proof. destruct c; now rewrite <- app_assoc. Qed.

Lemma fold_classify_buckets l :
  forall b,
    bucket_list (fold_left classify l b)
    = map (fun lA => fst lA ++ filter (fun el => stag_in el (snd lA)) l)
          (combine (bucket_list b) alias_list).
Proof.
  induction l as [|el r IH]; intros b.
  - destruct b. cbn. now rewrite !app_nil_r.
  - cbn [fold_left]. rewrite IH, classify_buckets.
    destruct b as [pe fa ev pl me so ci re no ta].
    cbn [bucket_list alias_list combine map fst snd filter
         Buckets.people Buckets.families Buckets.events Buckets.places
         Buckets.media Buckets.sources Buckets.citations
         Buckets.repositories Buckets.notes Buckets.tags].
    now rewrite !app_if_cons.
Qed.

Lemma collect_objects_bucket_list root :
  bucket_list (collect_objects root)
  = map (fun aliases => tagged aliases root) alias_list.
Proof.
  unfold collect_objects. rewrite fold_classify_buckets. reflexivity.
Qed.

(** X9.  [collect_objects] sorts the elements of the whole tree, the root
    included, by stripped tag alone: each bucket holds, in document order,
    exactly the elements whose stripped tag is one of that bucket's
    aliases, at any depth; no alias is shared, so an element lands in at
    most one bucket, and an element with any other tag in none. *)
Theorem collect_objects_buckets :
  forall root,
    bucket_list (collect_objects root)
    = map (fun aliases => tagged aliases root) alias_list
    /\ forall el A B pre post,
        alias_list = pre ++ A :: post -> In B (pre ++ post) ->
        stag_in el A = true -> stag_in el B = false.
Proof.
  intros root. split; [apply collect_objects_bucket_list|].
  intros el A B pre post Hsplit HB HA.
  {
    apply (stag_in_disjoint el A B); [|exact HA].
    assert (Hall : forall X Y xs ys,
               alias_list = xs ++ X :: ys -> In Y (xs ++ ys) ->
               disjoint_tags X Y = true).
    { clear. intros X Y xs ys Hs HY. unfold alias_list in Hs.
      repeat (destruct xs as [|? xs];
              [inversion Hs; subst; clear Hs; cbn in HY;
               repeat (destruct HY as [<-|HY]; [reflexivity|]); destruct HY
              |inversion Hs as [[E Hs']]; subst; clear Hs; rename Hs' into Hs;
               try (destruct xs; discriminate)]). }
    eapply Hall; eassumption. }
Qed.

Lemma collect_objects_buckets_witness :
  alias_list = [] ++ TAG_ALIASES.person :: tl alias_list
  /\ In TAG_ALIASES.family ([] ++ tl alias_list)
  /\ stag_in (Elem "{ns}person" [] None []) TAG_ALIASES.person = true
  /\ stag_in (Elem "{ns}person" [] None []) TAG_ALIASES.family = false.
Proof.
  split; [reflexivity|]. split; [now left|]. split; [reflexivity|].
  exact (proj2 (collect_objects_buckets (Elem "{ns}person" [] None []))
           (Elem "{ns}person" [] None []) TAG_ALIASES.person
           TAG_ALIASES.family [] (tl alias_list) eq_refl
           (or_introl eq_refl) eq_refl).
Defined.

(** ** The linking loop, in full *)




Lemma find_app {A : Type} (f : A -> bool) a b :
  find f (a ++ b) = match find f a with
                    | Some x => Some x
                    | None => find f b
                    end.
Proof.
  induction a as [|x a IH]; simpl; [reflexivity|].
  now destruct (f x).
Qed.

Lemma families_effect_families_as_child H fams :
  forall p,
    Person.families_as_child (fold_left (family_effect H) fams p)
    = match last_family_of_child H fams with
      | Some fh => Some fh
      | None => Person.families_as_child p
      end.
Proof.
  unfold last_family_of_child.
  induction fams as [|item r IH]; intros p; simpl; [reflexivity|].
  rewrite IH, find_app, family_effect_families_as_child.
  destruct (find _ (rev r)); simpl; [reflexivity|].
  now destruct (mem_str H (Family.children (snd item))).
Qed.


Lemma parents_from_In H item x :
  In x (parents_from H item) ->
  In H (Family.children (snd item)) /\ In x (present_parents (snd item)).
Proof.
  unfold parents_from. rewrite in_flat_map. intros (ch & Hch & Hx).
  destruct (String.eqb_spec ch H) as [->|_]; [now split | destruct Hx].
Qed.

Lemma families_from_In H item fh :
  In fh (families_from H item) ->
  fh = fst item
  /\ (Family.father (snd item) = Some H \/ Family.mother (snd item) = Some H).
Proof.
  unfold families_from. rewrite in_flat_map. intros (o & Ho & Hfh).
  destruct o as [h|]; [|destruct Hfh].
  destruct (truthy h); [|destruct Hfh]. simpl in Hfh.
  destruct (String.eqb_spec h H) as [->|_]; [|destruct Hfh].
  destruct Hfh as [<-|[]]. split; [reflexivity|].
  destruct Ho as [Ho|[Ho|[]]]; [now left | now right].
Qed.

(** X11.  In the object [convert] returns, the links of a person point
    back into the family mapping: its [families_as_child] is the key of a
    family that lists the person as child, and is absent exactly when no
    family does; every entry of [families_as_parent] is the key of a
    family whose father or mother is the person; every entry of [parents]
    is the father or mother of a family that lists the person as child. *)
Theorem convert_backlinks :
  forall fromstring basename path_join xml_bytes media_map extract_media_dir
         root_person out h p,
    convert fromstring basename path_join xml_bytes media_map
            extract_media_dir root_person = Ok out ->
    dict_get (Output.people out) h = Some p ->
    (forall fh,
        Person.families_as_child p = Some fh ->
        exists fam, dict_get (Output.families out) fh = Some fam
                    /\ In h (Family.children fam))
    /\ (Person.families_as_child p = None <->
        forall fh fam,
          dict_get (Output.families out) fh = Some fam ->
          ~ In h (Family.children fam))
    /\ (forall fh,
           In fh (Person.families_as_parent p) ->
           exists fam, dict_get (Output.families out) fh = Some fam
                       /\ (Family.father fam = Some h
                           \/ Family.mother fam = Some h))
    /\ (forall x,
           In x (Person.parents p) ->
           exists fh fam,
             dict_get (Output.families out) fh = Some fam
             /\ In h (Family.children fam)
             /\ (Family.father fam = Some x \/ Family.mother fam = Some x)).
Proof.
  intros fromstring basename path_join xml_bytes media_map extract_media_dir
         root_person out h p Hrun Hget.
  apply convert_Ok in Hrun.
  destruct Hrun as (xml_root & people & families & _ & Hp & Hf & Hop & Hof & _).
  rewrite Hof, cross_link_families. cbn [Graph.families].
  rewrite Hop, cross_link_person in Hget. cbn [Graph.people Graph.families]
    in Hget.
  destruct (dict_get people h) as [p0|] eqn:Hp0; [|discriminate].
  inversion Hget; subst p; clear Hget.
  destruct (parse_people_fresh _ _ Hp) as [_ Hfresh].
  destruct (Hfresh h p0 Hp0) as (_ & Hpar & _ & Hfap & Hfac).
  destruct (parse_families_parsed _ _ Hf) as [Hnd _].
  assert (Hin : forall item, In item families ->
                             dict_get families (fst item) = Some (snd item)).
  { intros [fh fam] Hi. now apply dict_In_get. }
  rewrite families_effect_families_as_child, families_effect_parents,
    families_effect_families_as_parent, Hpar, Hfap, Hfac.
  unfold last_family_of_child. cbn [app].
  split; [|split; [|split]].
  - intros fh Hfh.
    destruct (find _ (rev families)) as [item|] eqn:Hfind; [|discriminate].
    apply find_some in Hfind. destruct Hfind as [Hi Hm].
    apply in_rev in Hi. apply mem_str_In in Hm.
    simpl in Hfh. inversion Hfh; subst. exists (snd item).
    split; [now apply Hin | exact Hm].
  - split.
    + intros Hnone fh fam Hfam Hch.
      destruct (find _ (rev families)) as [item|] eqn:Hfind; [discriminate|].
      apply dict_get_In in Hfam. apply in_rev in Hfam.
      pose proof (List.find_none _ _ Hfind _ Hfam) as Hm. simpl in Hm.
      apply mem_str_not_In in Hm. contradiction.
    + intros Hno.
      destruct (find _ (rev families)) as [item|] eqn:Hfind; [|reflexivity].
      apply find_some in Hfind. destruct Hfind as [Hi Hm].
      apply in_rev in Hi. apply mem_str_In in Hm.
      elim (Hno (fst item) (snd item) (Hin item Hi) Hm).
  - intros fh Hfh. apply in_flat_map in Hfh. destruct Hfh as (item & Hi & Hx).
    apply families_from_In in Hx. destruct Hx as [-> Hpar'].
    exists (snd item). split; [now apply Hin | exact Hpar'].
  - intros x Hx. apply in_flat_map in Hx. destruct Hx as (item & Hi & Hx).
    apply parents_from_In in Hx. destruct Hx as [Hch Hpp].
    apply present_parents_In in Hpp. destruct Hpp as [_ Hpp].
    exists (fst item), (snd item). split; [now apply Hin|]. now split.
Qed.

Lemma convert_backlinks_witness :
  convert Example.fromstring Example.basename Example.path_join "" None None
          None = Ok Example.output
  /\ dict_get (Output.people Example.output) "P2"
     = Some (nth 1 (map snd (Output.people Example.output)) Example.nobody)
  /\ exists fam,
      dict_get (Output.families Example.output) "F1" = Some fam
      /\ In "P2" (Family.children fam).
Proof.
  split; [reflexivity|]. split; [reflexivity|].
  exact (proj1 (convert_backlinks Example.fromstring Example.basename
                  Example.path_join "" None None None Example.output "P2" _
                  eq_refl eq_refl) "F1" eq_refl).
Defined.

(** ** When the conversion returns *)

Lemma is_ok_bind {A B : Type} (m : result A) (k : A -> result B) :
  is_ok (bind m k) = match m with
                     | Ok a => is_ok (k a)
                     | Raise _ => false
                     end.
Proof. now destruct m. Qed.

Lemma is_ok_true {A : Type} (r : result A) :
  is_ok r = true -> exists a, r = Ok a.
Proof. destruct r as [a|e]; [now exists a | discriminate]. Qed.

Lemma reserved_clash_children t a x cs c :
  reserved_clash (Elem t a x cs) = false -> In c cs ->
  reserved_clash c = false.
Proof.
  simpl. induction cs as [|c0 r IH]; [intros _ []|].
  intros Hcl [->|Hin].
  - apply orb_false_elim in Hcl. destruct Hcl as [Hcl _].
    apply orb_false_elim in Hcl. now destruct Hcl.
  - apply orb_false_elim in Hcl. destruct Hcl as [_ Hcl]. now apply IH.
Qed.

Lemma map_result_ok {A B : Type} (f : A -> result B) l :
  (forall x, In x l -> is_ok (f x) = true) ->
  exists ys, map_result f l = Ok ys.
Proof.
  induction l as [|x r IH]; intros Hall; simpl; [now exists []|].
  destruct (is_ok_true _ (Hall x (or_introl eq_refl))) as (y & ->).
  destruct IH as (ys & ->); [intros z Hz; apply Hall; now right|].
  now exists (y :: ys).
Qed.

Lemma elem_to_dict_child_ok p raw c :
  elem_to_dict p = Ok raw -> In c (subelements p) ->
  is_ok (elem_to_dict c) = true.
Proof.
  intros Hp Hin. rewrite elem_to_dict_ok_iff.
  pose proof (elem_to_dict_ok_iff p) as Hok. rewrite Hp in Hok. simpl in Hok.
  destruct p as [t a x cs].
  rewrite (reserved_clash_children t a x cs c); [reflexivity| |exact Hin].
  now destruct (reserved_clash (Elem t a x cs)).
Qed.

Lemma parse_name_ok name_el :
  is_ok (parse_name name_el) = is_ok (elem_to_dict name_el).
Proof.
  unfold parse_name.
  destruct (fold_left name_field (subelements name_el) _).
  now destruct (elem_to_dict name_el).
Qed.

Lemma parse_person_ok out p :
  is_ok (parse_person out p) = negb (reserved_clash p).
Proof.
  rewrite <- elem_to_dict_ok_iff. unfold parse_person.
  destruct (elem_to_dict p) as [raw|e] eqn:Hraw; [|reflexivity]. simpl.
  destruct (map_result_ok parse_name
              (filter (fun c => stag_in c ["name"; "names"; "display_name";
                                           "personal_name"])
                      (subelements p))) as (names & ->).
  { intros c Hc. apply filter_In in Hc. rewrite parse_name_ok.
    eapply elem_to_dict_child_ok; [eassumption | apply Hc]. }
  destruct (map_result_ok elem_to_dict
              (filter (fun c => stag_in c ["attribute"; "attributes";
                                           "custom"])
                      (subelements p))) as (attrs & Hattrs).
  { intros c Hc. apply filter_In in Hc.
    eapply elem_to_dict_child_ok; [eassumption | apply Hc]. }
  simpl. now rewrite Hattrs.
Qed.

Lemma parse_family_ok out f :
  is_ok (parse_family out f) = negb (reserved_clash f).
Proof.
  rewrite <- elem_to_dict_ok_iff. unfold parse_family.
  destruct (elem_to_dict f) as [raw|e]; [|reflexivity]. simpl.
  now destruct (fold_left family_field (subelements f) _).
Qed.

Lemma parse_generic_one_ok out el :
  is_ok (parse_generic_one out el) = negb (reserved_clash el).
Proof.
  rewrite <- elem_to_dict_ok_iff. unfold parse_generic_one.
  now destruct (elem_to_dict el).
Qed.

Lemma for_each_ok {A S : Type} (body : S -> A -> result S) (g : A -> bool) :
  (forall st x, is_ok (body st x) = g x) ->
  forall xs st, is_ok (for_each body xs st) = forallb g xs.
Proof.
  intros Hbody xs. induction xs as [|x r IH]; intros st; simpl; [reflexivity|].
  rewrite is_ok_bind, <- (Hbody st x).
  destruct (body st x) as [st'|e]; [apply IH | reflexivity].
Qed.

Lemma convert_is_ok fromstring basename path_join xml_bytes media_map
  extract_media_dir root_person :
  is_ok (convert fromstring basename path_join xml_bytes media_map
                 extract_media_dir root_person)
  = match fromstring xml_bytes with
    | Ok root => forallb clash_free (bucket_list (collect_objects root))
    | Raise _ => false
    end.
Proof.
  unfold convert. destruct (fromstring xml_bytes) as [root|e];
    [|reflexivity].
  cbn [bind bucket_list forallb]. unfold clash_free, parse_people,
    parse_families, parse_generic.
  rewrite <- (for_each_ok parse_person _ parse_person_ok
                (Buckets.people (collect_objects root)) []).
  rewrite <- (for_each_ok parse_family _ parse_family_ok
                (Buckets.families (collect_objects root)) []).
  rewrite <- !(for_each_ok parse_generic_one _ parse_generic_one_ok _ []).
  repeat match goal with
         | |- context [bind ?m _] =>
             destruct m; cbn [bind is_ok andb]; [|reflexivity]
         end.
  now destruct (build_treant_tree _ _ root_person).
Qed.

Lemma for_each_exn {A S : Type} (body : S -> A -> result S) :
  (forall st x e, body st x = Raise e -> e = AttributeError) ->
  forall xs st e, for_each body xs st = Raise e -> e = AttributeError.
Proof.
  intros Hbody xs. induction xs as [|x r IH]; intros st e; simpl;
    [discriminate|].
  destruct (body st x) as [st'|e'] eqn:Hb; simpl.
  - apply IH.
  - intros H. inversion H; subst. eapply Hbody; eassumption.
Qed.

Lemma map_result_exn {A B : Type} (f : A -> result B) :
  (forall x e, f x = Raise e -> e = AttributeError) ->
  forall l e, map_result f l = Raise e -> e = AttributeError.
Proof.
  intros Hf l. induction l as [|x r IH]; intros e; simpl; [discriminate|].
  destruct (f x) as [y|e'] eqn:Hx; simpl.
  - destruct (map_result f r) as [ys|e'']; simpl; [discriminate|].
    intros H. inversion H; subst. now apply IH.
  - intros H. inversion H; subst. eapply Hf; eassumption.
Qed.

Lemma parse_person_exn out p e :
  parse_person out p = Raise e -> e = AttributeError.
Proof.
  unfold parse_person.
  destruct (elem_to_dict p) as [raw|e'] eqn:Hraw; simpl.
  2:{ intros H. inversion H; subst. eapply elem_to_dict_exn; eassumption. }
  destruct (map_result parse_name _) as [names|e'] eqn:Hn; simpl.
  2:{ intros H. inversion H; subst. revert Hn. apply map_result_exn.
      intros x e0. unfold parse_name.
      destruct (fold_left name_field (subelements x) _).
      destruct (elem_to_dict x) as [r|e1] eqn:Hx; simpl; [discriminate|].
      intros H0. inversion H0; subst. eapply elem_to_dict_exn; eassumption. }
  destruct (map_result elem_to_dict _) as [attrs|e'] eqn:Ha; simpl;
    [discriminate|].
  intros H. inversion H; subst. revert Ha. apply map_result_exn.
  intros x e0. apply elem_to_dict_exn.
Qed.

Lemma parse_family_exn out f e :
  parse_family out f = Raise e -> e = AttributeError.
Proof.
  unfold parse_family.
  destruct (elem_to_dict f) as [raw|e'] eqn:Hraw; simpl.
  - now destruct (fold_left family_field (subelements f) _).
  - intros H. inversion H; subst. eapply elem_to_dict_exn; eassumption.
Qed.

Lemma parse_generic_one_exn out el e :
  parse_generic_one out el = Raise e -> e = AttributeError.
Proof.
  unfold parse_generic_one.
  destruct (elem_to_dict el) as [raw|e'] eqn:Hraw; simpl; [discriminate|].
  intros H. inversion H; subst. eapply elem_to_dict_exn; eassumption.
Qed.

Lemma convert_exn fromstring basename path_join xml_bytes media_map
  extract_media_dir root_person root e :
  fromstring xml_bytes = Ok root ->
  convert fromstring basename path_join xml_bytes media_map
          extract_media_dir root_person = Raise e ->
  e = AttributeError.
Proof.
  intros Hroot. unfold convert. rewrite Hroot. cbn [bind].
  pose proof (for_each_exn parse_person parse_person_exn) as Hpe.
  pose proof (for_each_exn parse_family parse_family_exn) as Hfa.
  pose proof (for_each_exn parse_generic_one parse_generic_one_exn) as Hge.
  unfold parse_people, parse_families, parse_generic.
  repeat match goal with
         | |- context [bind ?m _] =>
             let E := fresh "E" in
             destruct m eqn:E; cbn [bind];
             [|intros H; inversion H; subst;
               first [eapply Hpe; eassumption | eapply Hfa; eassumption
                     | eapply Hge; eassumption]]
         end.
  now destruct (build_treant_tree _ _ root_person).
Qed.

Lemma classified_tagged root el :
  (exists bucket, In bucket (map (fun A => tagged A root) alias_list)
                  /\ In el bucket)
  <-> In el (iter root) /\ classified el = true.
Proof.
  unfold classified, tagged. rewrite existsb_exists. split.
  - intros (bucket & Hb & Hel). apply in_map_iff in Hb.
    destruct Hb as (A & <- & HA). apply filter_In in Hel.
    destruct Hel as [Hin Ht]. split; [exact Hin | now exists A].
  - intros (Hin & A & HA & Ht). exists (filter (fun x => stag_in x A) (iter root)).
    split; [apply in_map_iff; now exists A | now apply filter_In].
Qed.

(** X12.  When no media file is to be written, [convert] passes on what
    the XML parser raises, and on a parsed document it returns exactly
    when no classified element, at any depth of the tree, contains an
    element with a child named as a reserved key in use; otherwise it
    raises, and then always [AttributeError].  Parsing, linking and tree
    synthesis have no other way to fail. *)
Theorem convert_returns_iff :
  forall fromstring basename path_join xml_bytes media_map extract_media_dir
         root_person,
    no_extraction media_map extract_media_dir = true ->
    (forall e,
        fromstring xml_bytes = Raise e ->
        convert fromstring basename path_join xml_bytes media_map
                extract_media_dir root_person = Raise e)
    /\ forall root,
        fromstring xml_bytes = Ok root ->
        ((exists out,
             convert fromstring basename path_join xml_bytes media_map
                     extract_media_dir root_person = Ok out)
         <-> forall el,
             In el (iter root) -> classified el = true ->
             reserved_clash el = false)
        /\ forall e,
            convert fromstring basename path_join xml_bytes media_map
                    extract_media_dir root_person = Raise e ->
            e = AttributeError.
Proof.
  intros fromstring basename path_join xml_bytes media_map extract_media_dir
         root_person _.
  split; [intros e He; unfold convert; now rewrite He|].
  intros root Hroot. split; [|intros e; now apply convert_exn with root].
  pose proof (convert_is_ok fromstring basename path_join xml_bytes media_map
                extract_media_dir root_person) as Hok.
  rewrite Hroot, collect_objects_bucket_list in Hok. split.
  - intros (out & Hout) el Hin Hcl. rewrite Hout in Hok.
    cbn [is_ok] in Hok. symmetry in Hok. rewrite forallb_forall in Hok.
    destruct (proj2 (classified_tagged root el) (conj Hin Hcl))
      as (bucket & Hb & Hel).
    specialize (Hok bucket Hb). unfold clash_free in Hok.
    rewrite forallb_forall in Hok. specialize (Hok el Hel).
    now destruct (reserved_clash el).
  - intros Hall. apply is_ok_true. rewrite Hok. apply forallb_forall.
    intros bucket Hb. apply forallb_forall. intros el Hel.
    destruct (proj1 (classified_tagged root el)) as [Hin Hcl];
      [now exists bucket|].
    now rewrite (Hall el Hin Hcl).
Qed.

Lemma convert_returns_iff_witness :
  no_extraction None None = true
  /\ Example.fromstring "" = Ok Example.root
  /\ forallb (fun el => negb (classified el) || negb (reserved_clash el))
             (iter Example.root) = true
  /\ exists out,
      convert Example.fromstring Example.basename Example.path_join ""
              None None None = Ok out.
Proof.
  split; [reflexivity|]. split; [reflexivity|]. split; [reflexivity|].
  apply (proj2 (proj1 (proj2 (convert_returns_iff Example.fromstring
                                Example.basename Example.path_join "" None
                                None None eq_refl)
                             Example.root eq_refl))).
  intros el Hin Hcl.
  assert (H : forallb (fun el => negb (classified el)
                                 || negb (reserved_clash el))
                      (iter Example.root) = true) by reflexivity.
  rewrite forallb_forall in H. specialize (H el Hin). rewrite Hcl in H.
  now destruct (reserved_clash el).
Defined.

(** ** Tree synthesis: shape of the result *)

Lemma build_treant_tree_spec people families root_handle :
  fst (build_treant_tree people families root_handle)
  = expected_root people root_handle
  /\ extends people families []
             (snd (build_treant_tree people families root_handle))
  /\ sound (snd (build_treant_tree people families root_handle))
  /\ forall ch,
      In (Cached ch)
         (root_refs (fst (build_treant_tree people families root_handle))) ->
      dict_mem (snd (build_treant_tree people families root_handle)) ch
      = true.
Proof.
  pose proof (build_treant_tree_fuel_enough people families
                (S (length people)) root_handle (Nat.lt_succ_diag_r _))
    as Hres.
  destruct (build_treant_tree people families root_handle) as [root nodes].
  exact (build_treant_tree_fuel_spec people families _ _ _ _ Hres).
Qed.

Lemma nodes_final people families root_handle k n :
  dict_get (snd (build_treant_tree people families root_handle)) k = Some n ->
  exists p, dict_get people k = Some p /\ n = final_node people families k p.
Proof.
  intros Hk.
  destruct (build_treant_tree_spec people families root_handle)
    as (_ & Hext & _).
  specialize (Hext k). simpl in Hext.
  destruct Hext as [Hnone|(p & Hp & Hfin)]; [congruence|].
  exists p. split; [assumption | congruence].
Qed.

Lemma map_option_some {A B : Type} (f : A -> option B) l :
  (forall x, In x l -> exists y, f x = Some y) ->
  exists ys, map_option f l = Some ys.
Proof.
  induction l as [|x r IH]; intros Hall; simpl; [now exists []|].
  destruct (Hall x (or_introl eq_refl)) as (y & ->).
  destruct IH as (ys & ->); [intros z Hz; apply Hall; now right|].
  now exists (y :: ys).
Qed.

Lemma unfold_ranked people families root_handle rank :
  ranked rank people families = true ->
  forall n r,
    depth_needed rank r <= n ->
    (forall h, r = Cached h ->
               dict_mem (snd (build_treant_tree people families root_handle))
                        h = true) ->
    exists t,
      unfold_ref (snd (build_treant_tree people families root_handle)) n r
      = Some t.
Proof.
  intros Hrank.
  destruct (build_treant_tree_spec people families root_handle)
    as (_ & _ & [Hclosed _] & _).
  induction n as [|d IH]; intros r Hneed Hmem.
  - destruct r; simpl in Hneed; lia.
  - destruct r as [name|h]; [now eexists|]. cbn [unfold_ref].
    specialize (Hmem h eq_refl). apply dict_mem_get in Hmem.
    destruct Hmem as (nd & Hnd). rewrite Hnd.
    destruct (nodes_final _ _ _ _ _ Hnd) as (p & Hp & ->).
    cbn [Node.children final_node Node.name].
    destruct (map_option_some
                (unfold_ref (snd (build_treant_tree people families
                                    root_handle)) d)
                (map (ref_of people)
                     (unique_in_order (children_handles families p) [])))
      as (ts & ->); [|now eexists].
    intros c Hc. apply IH.
    + apply in_map_iff in Hc. destruct Hc as (ch & <- & Hch).
      apply unique_in_order_In in Hch. destruct Hch as (Hch & _).
      unfold ref_of. simpl in Hneed.
      destruct (dict_get people ch) as [q|] eqn:Hq; simpl; [|lia].
      unfold ranked in Hrank. rewrite forallb_forall in Hrank.
      specialize (Hrank (h, p) (dict_get_In _ _ _ Hp)). simpl in Hrank.
      rewrite forallb_forall in Hrank. specialize (Hrank ch Hch).
      unfold dict_mem in Hrank. rewrite Hq in Hrank. simpl in Hrank.
      apply Nat.ltb_lt in Hrank. lia.
    + intros ch ->. eapply Hclosed; [exact Hnd|reflexivity|exact Hc].
Qed.

(** X13.  When the gathered-children relation between known people has no
    cycle, which a rank that goes down from parent to child certifies, the
    structure [build_treant_tree] returns is a finite tree: some depth
    exhausts every branch below the root, whatever the root handle. *)
Theorem build_treant_tree_finite_tree :
  forall people families root_handle rank,
    ranked rank people families = true ->
    finite_tree (fst (build_treant_tree people families root_handle))
                (snd (build_treant_tree people families root_handle)).
Proof.
  intros people families root_handle rank Hrank.
  destruct (build_treant_tree_spec people families root_handle)
    as (_ & _ & _ & Hrefs).
  exists (list_max (map rank (dict_keys people)) + 2).
  apply map_option_some. intros r Hr.
  apply (unfold_ranked people families root_handle rank Hrank).
  - destruct r as [name|h]; simpl; [lia|].
    specialize (Hrefs h Hr). apply dict_mem_get in Hrefs.
    destruct Hrefs as (nd & Hnd).
    destruct (nodes_final _ _ _ _ _ Hnd) as (p & Hp & _).
    assert (Hin : In (rank h) (map rank (dict_keys people))).
    { apply in_map. apply dict_get_In in Hp. apply in_map_iff.
      now exists (h, p). }
    pose proof (proj1 (list_max_le (map rank (dict_keys people))
                         (list_max (map rank (dict_keys people))))
                      (le_n _)) as Hmax.
    rewrite Forall_forall in Hmax. specialize (Hmax _ Hin). lia.
  - intros h ->. now apply Hrefs.
Qed.

Lemma build_treant_tree_finite_tree_witness :
  ranked (fun h => if h =? "P1" then 1 else 0)
         (Output.people Example.output) (Output.families Example.output)
  = true
  /\ finite_tree
       (fst (build_treant_tree (Output.people Example.output)
                               (Output.families Example.output) None))
       (snd (build_treant_tree (Output.people Example.output)
                               (Output.families Example.output) None)).
Proof.
  split; [reflexivity|].
  exact (build_treant_tree_finite_tree (Output.people Example.output)
           (Output.families Example.output) None
           (fun h => if h =? "P1" then 1 else 0) eq_refl).
Defined.

(** X14.  [build_treant_tree] creates at most one node object per person:
    the node objects it returns are never more than the people, and each
    sits under the handle of a known person, with that handle as its id
    and handle and the person's display name as its name. *)
Theorem build_treant_tree_node_count :
  forall people families root_handle,
    length (snd (build_treant_tree people families root_handle))
    <= length people
    /\ forall k n,
        In (k, n) (snd (build_treant_tree people families root_handle)) ->
        exists p,
          dict_get people k = Some p
          /\ Node.id n = k /\ Node.handle n = k
          /\ Node.name n = fst (display_info p).
Proof.
  intros people families root_handle.
  destruct (build_treant_tree_spec people families root_handle)
    as (_ & _ & [_ Hnd] & _).
  assert (Hin : forall k n,
             In (k, n) (snd (build_treant_tree people families root_handle)) ->
             exists p, dict_get people k = Some p
                       /\ n = final_node people families k p).
  { intros k n Hkn. apply (nodes_final people families root_handle).
    now apply dict_In_get. }
  split.
  - rewrite <- (length_map fst
                   (snd (build_treant_tree people families root_handle))).
    rewrite <- (length_map fst people).
    apply NoDup_incl_length; [exact Hnd|].
    intros k Hk. apply in_map_iff in Hk. destruct Hk as ([k' n] & <- & Hkn).
    destruct (Hin k' n Hkn) as (p & Hp & _).
    apply dict_get_In in Hp. apply in_map_iff. now exists (k', p).
  - intros k n Hkn. destruct (Hin k n Hkn) as (p & Hp & ->).
    exists p. now repeat split.
Qed.

Lemma build_treant_tree_node_count_witness :
  In ("P1", nth 0 (map snd (Output.tree_nodes Example.output))
                (Node.mk "" "" "" "" "" None))
     (snd (build_treant_tree (Output.people Example.output)
                             (Output.families Example.output) None))
  /\ exists p,
      dict_get (Output.people Example.output) "P1" = Some p
      /\ Node.name (nth 0 (map snd (Output.tree_nodes Example.output))
                        (Node.mk "" "" "" "" "" None))
         = fst (display_info p).
Proof.
  split; [now left|].
  destruct (proj2 (build_treant_tree_node_count
                     (Output.people Example.output)
                     (Output.families Example.output) None)
              "P1" _ (or_introl eq_refl)) as (p & Hp & _ & _ & Hname).
  exists p. split; [exact Hp | exact Hname].
Defined.

(** ** Tree synthesis: the root *)

Lemma dict_In_known {V : Type} (d : dict V) k v :
  In (k, v) d -> exists w, dict_get d k = Some w.
Proof.
  induction d as [|[k' v'] r IH]; simpl; [intros []|].
  destruct (String.eqb_spec k' k) as [->|Hne]; [now eexists|].
  intros [Heq|Hin]; [inversion Heq; contradiction | now apply IH].
Qed.

Lemma ref_of_known {V : Type} people (l : list (string * V)) :
  (forall hp, In hp l -> exists p, dict_get people (fst hp) = Some p) ->
  map (ref_of people) (map fst l) = map Cached (map fst l).
Proof.
  intros Hl. rewrite !map_map. apply map_ext_in. intros hp Hin.
  destruct (Hl hp Hin) as (p & Hp). unfold ref_of. now rewrite Hp.
Qed.

Lemma parentless_known people :
  map (ref_of people) (parentless people) = map Cached (parentless people).
Proof.
  unfold parentless. apply ref_of_known. intros [h p] Hin.
  apply filter_In in Hin. destruct Hin as [Hin _].
  now apply (dict_In_known people h p).
Qed.

(** X15.  How [build_treant_tree] picks its root.  A non-empty root handle
    of a known person gives that person's node, which is then among the
    node objects.  Without root handle (absent or empty): exactly one
    person without [families_as_child] gives that person's node; two or
    more give the synthetic node whose children are their nodes, in the
    order of the people mapping; none gives the node of the first person
    of the mapping. *)
Theorem build_treant_tree_root :
  forall people families,
    (forall h,
        h <> "" -> dict_get people h <> None ->
        fst (build_treant_tree people families (Some h)) = Single (Cached h)
        /\ dict_mem (snd (build_treant_tree people families (Some h))) h
           = true)
    /\ forall root_handle,
        otruthy root_handle = false ->
        (forall h,
            parentless people = [h] ->
            fst (build_treant_tree people families root_handle)
            = Single (Cached h))
        /\ (forall h1 h2 r,
               parentless people = h1 :: h2 :: r ->
               fst (build_treant_tree people families root_handle)
               = Roots (map Cached (parentless people)))
        /\ (forall h p rest,
               parentless people = [] -> people = (h, p) :: rest ->
               fst (build_treant_tree people families root_handle)
               = Single (Cached h)).
Proof.
  intros people families. split.
  - intros h Hne Hknown.
    destruct (build_treant_tree_spec people families (Some h))
      as (Hroot & _ & _ & Hrefs).
    assert (Hr : fst (build_treant_tree people families (Some h))
                 = Single (Cached h)).
    { rewrite Hroot. unfold expected_root. apply truthy_iff in Hne.
      simpl. rewrite Hne. unfold ref_of.
      destruct (dict_get people h); [reflexivity | now elim Hknown]. }
    split; [exact Hr|]. apply Hrefs. rewrite Hr. now left.
  - intros root_handle Hroot.
    destruct (build_treant_tree_spec people families root_handle)
      as (-> & _).
    unfold expected_root, root_candidates. rewrite Hroot.
    fold (parentless people). pose proof (parentless_known people) as Hk.
    split; [|split].
    + intros h Hp. rewrite Hp in *. simpl in Hk. now inversion Hk.
    + intros h1 h2 r Hp. rewrite Hp in *. now rewrite Hk.
    + intros h p rest Hp Hpeople. rewrite Hp. subst people. simpl.
      unfold ref_of. simpl. now rewrite String.eqb_refl.
Qed.

Lemma build_treant_tree_root_witness :
  otruthy None = false
  /\ parentless (Output.people Example.output) = ["P1"]
  /\ fst (build_treant_tree (Output.people Example.output)
                            (Output.families Example.output) None)
     = Single (Cached "P1").
Proof.
  split; [reflexivity|]. split; [reflexivity|].
  exact (proj1 (proj2 (build_treant_tree_root (Output.people Example.output)
                         (Output.families Example.output))
                      None eq_refl) "P1" eq_refl).
Defined.

(** ** Media records *)

Lemma dict_set_fresh {V : Type} (d : dict V) k v :
  dict_get d k = None -> dict_set d k v = d ++ [(k, v)].
Proof.
  induction d as [|[k' v'] r IH]; simpl; [reflexivity|].
  destruct (k' =? k); [discriminate|]. intros Hn. now rewrite IH.
Qed.

Lemma dict_get_app_fresh {V : Type} (d : dict V) k v k' :
  dict_get d k' = None -> k <> k' -> dict_get (d ++ [(k, v)]) k' = None.
Proof.
  induction d as [|[k0 v0] r IH]; simpl; intros Hn Hne.
  - destruct (String.eqb_spec k k'); [contradiction | reflexivity].
  - destruct (k0 =? k'); [discriminate | now apply IH].
Qed.

Lemma fold_dict_set_fresh {A V : Type} (f : A -> V) (l : dict A) :
  forall acc,
    NoDup (dict_keys l) ->
    (forall k, In k (dict_keys l) -> dict_get acc k = None) ->
    fold_left (fun out m => dict_set out (fst m) (f (snd m))) l acc
    = acc ++ map (fun m => (fst m, f (snd m))) l.
Proof.
  induction l as [|[k a] r IH]; intros acc Hnd Hfresh; simpl.
  - now rewrite app_nil_r.
  - inversion Hnd as [|? ? Hnotin Hr]; subst.
    rewrite (dict_set_fresh acc k (f a)) by (apply Hfresh; now left).
    rewrite IH; [now rewrite <- app_assoc | exact Hr |].
    intros k' Hk'. apply dict_get_app_fresh.
    + apply Hfresh. now right.
    + intros ->. contradiction.
Qed.

Section MediaFacts.
Variable basename : string -> string.
Variable path_join : string -> string -> string.

Lemma last_map_some {A B : Type} (g : A -> B) (l : list A) :
  (forall r, last (map (fun x => Some (g x)) l) None = Some r ->
             exists x, In x l /\ r = g x)
  /\ (l <> [] -> exists x, In x l
                           /\ last (map (fun x => Some (g x)) l) None
                              = Some (g x)).
Proof.
  destruct l as [|y l]; [split; [discriminate | intros H; now elim H]|].
  destruct (exists_last (l := y :: l)) as (l' & x & Hl); [discriminate|].
  rewrite Hl, map_app. cbn [map]. rewrite last_last.
  assert (Hin : In x (l' ++ [x])) by (apply in_or_app; right; now left).
  split.
  - intros r Hr. inversion Hr; subst. now exists x.
  - intros _. now exists x.
Qed.

Lemma media_out_extracted_fold dir (members : dict string) :
  forall acc k,
    dict_get
      (fold_left
         (fun out member =>
            dict_set out (basename (fst member))
              (Media.mk (basename (fst member))
                 [("_attrs", RAttrs [("source_name", fst member)])]
                 (Some (path_join dir (basename (fst member))))))
         members acc) k
    = last (map (fun name => Some (extracted_record basename path_join dir
                                                    name))
                (members_named basename k members))
           (dict_get acc k).
Proof.
  unfold members_named.
  induction members as [|[name data] ms IH]; intros acc k; [reflexivity|].
  cbn [fold_left dict_keys map fst filter]. rewrite IH, dict_get_set.
  fold (dict_keys ms).
  destruct (basename name =? k); [|reflexivity].
  change (Some (Media.mk (basename name)
                         [("_attrs", RAttrs [("source_name", name)])]
                         (Some (path_join dir (basename name)))))
    with (Some (extracted_record basename path_join dir name)).
  cbn [map].
  destruct (map _ (filter _ (dict_keys ms))) as [|z zs]; [reflexivity|].
  change (last (z :: zs)
               (Some (extracted_record basename path_join dir name))
          = last (z :: zs) (dict_get acc k)).
  apply last_cons_default.
Qed.

(** X16.  The media records of the result.  Without extraction (no target
    directory, or no auxiliary file) the media records parsed from the
    document pass through unchanged, in order and without a file path.
    With extraction the parsed media records are left out: under a key
    the result holds the record of the last auxiliary member whose base
    name is that key, and nothing when there is no such member.  So every
    auxiliary member has a record under its base name, and every record
    stands for a member of the auxiliary mapping: it is keyed by the base
    name of that member's name, which is also its handle, points to that
    base name under the target directory, and keeps the member name in
    its raw form. *)
Theorem media_out_cases :
  forall media media_map extract_media_dir,
    (NoDup (dict_keys media) ->
     media_map = None \/ media_map = Some []
     \/ otruthy extract_media_dir = false ->
     media_out basename path_join media media_map extract_media_dir
     = map (fun m => (fst m, Media.of_generic (snd m))) media)
    /\ (forall member members dir,
           media_map = Some (member :: members) ->
           extract_media_dir = Some dir -> dir <> "" ->
           (forall k,
               dict_get (media_out basename path_join media media_map
                                   extract_media_dir) k
               = last (map (fun name =>
                              Some (extracted_record basename path_join dir
                                                     name))
                           (members_named basename k (member :: members)))
                      None)
           /\ (forall name,
                  In name (dict_keys (member :: members)) ->
                  exists r,
                    dict_get (media_out basename path_join media media_map
                                        extract_media_dir) (basename name)
                    = Some r
                    /\ Media.handle r = basename name
                    /\ Media.file r
                       = Some (path_join dir (basename name)))
           /\ (forall k r,
                  dict_get (media_out basename path_join media media_map
                                      extract_media_dir) k = Some r ->
                  exists name,
                    In name (dict_keys (member :: members))
                    /\ k = basename name
                    /\ Media.handle r = k
                    /\ Media.file r = Some (path_join dir k)
                    /\ Media.raw r
                       = [("_attrs", RAttrs [("source_name", name)])])).
Proof.
  intros media media_map extract_media_dir. split.
  - intros Hnd Hcase.
    assert (Hpass : fold_left (fun out m => dict_set out (fst m)
                                              (Media.of_generic (snd m)))
                              media []
                    = map (fun m => (fst m, Media.of_generic (snd m))) media).
    { rewrite (fold_dict_set_fresh Media.of_generic media [] Hnd);
        [reflexivity | intros k _; reflexivity]. }
    unfold media_out.
    destruct media_map as [[|m ms]|]; try exact Hpass.
    destruct Hcase as [Hc|[Hc|Hc]]; try discriminate.
    now rewrite Hc.
  - intros member members dir -> -> Hdir.
    assert (Hget : forall k,
               dict_get (media_out basename path_join media
                                   (Some (member :: members)) (Some dir)) k
               = last (map (fun name =>
                              Some (extracted_record basename path_join dir
                                                     name))
                           (members_named basename k (member :: members)))
                      None).
    { intros k. unfold media_out. apply truthy_iff in Hdir.
      simpl otruthy. rewrite Hdir. unfold or_empty. rewrite Hdir.
      apply (media_out_extracted_fold dir (member :: members) [] k). }
    split; [exact Hget|]. split.
    + intros name Hin. rewrite Hget.
      destruct (proj2 (last_map_some
                         (extracted_record basename path_join dir)
                         (members_named basename (basename name)
                                        (member :: members))))
        as (x & Hx & ->).
      * intros Hnil.
        assert (Hm : In name (members_named basename (basename name)
                                            (member :: members))).
        { apply filter_In. split; [exact Hin | apply String.eqb_refl]. }
        rewrite Hnil in Hm. destruct Hm.
      * apply filter_In in Hx. destruct Hx as [_ Hx].
        apply String.eqb_eq in Hx. eexists. split; [reflexivity|].
        unfold extracted_record. simpl. now rewrite Hx.
    + intros k r Hr. rewrite Hget in Hr.
      destruct (proj1 (last_map_some
                         (extracted_record basename path_join dir)
                         (members_named basename k (member :: members)))
                      r Hr) as (name & Hname & ->).
      apply filter_In in Hname. destruct Hname as [Hin Hk].
      apply String.eqb_eq in Hk. exists name. subst k.
      now repeat split.
Qed.
End MediaFacts.

Lemma media_out_cases_witness :
  NoDup (dict_keys [("m1", Generic.mk "m1" [])])
  /\ media_out Example.basename Example.path_join
               [("m1", Generic.mk "m1" [])] None (Some "out")
     = [("m1", Media.mk "m1" [] None)]
  /\ "out" <> ""
  /\ In "pkg/a.jpg" (dict_keys [("pkg/a.jpg", "bytes")])
  /\ exists r,
      dict_get (media_out Example.basename Example.path_join
                          [("m1", Generic.mk "m1" [])]
                          (Some [("pkg/a.jpg", "bytes")]) (Some "out"))
               "pkg/a.jpg" = Some r
      /\ Media.handle r = "pkg/a.jpg"
      /\ Media.file r = Some "out/pkg/a.jpg".
Proof.
  split; [repeat constructor; intros []|]. split.
  - refine (proj1 (media_out_cases Example.basename Example.path_join
                     [("m1", Generic.mk "m1" [])] None (Some "out")) _
                  (or_introl eq_refl)).
    repeat constructor. intros [].
  - split; [discriminate|]. split; [now left|].
    refine (proj1 (proj2 (proj2 (media_out_cases Example.basename
                                   Example.path_join
                                   [("m1", Generic.mk "m1" [])]
                                   (Some [("pkg/a.jpg", "bytes")])
                                   (Some "out"))
                                ("pkg/a.jpg", "bytes") [] "out" eq_refl
                                eq_refl _))
                  "pkg/a.jpg" (or_introl eq_refl)).
    discriminate.
Defined.

(** ** Reading an archive *)

Lemma scan_member_step st m :
  Archive.xml_bytes (scan_member st m)
  = last (map Some (documents [m])) (Archive.xml_bytes st)
  /\ forall name,
      dict_get (Archive.media_map (scan_member st m)) name
      = last (map Some (media_named name [m]))
             (dict_get (Archive.media_map st) name).
Proof.
  destruct m as [n f]. unfold scan_member, documents, media_named,
    media_members. cbn [flat_map fst snd]. rewrite !app_nil_r.
  destruct (is_document_name n); cbn [negb andb].
  - destruct f as [data|]; split; try reflexivity; intros name; reflexivity.
  - destruct f as [data|]; [|now destruct (is_media_name n)].
    destruct (is_media_name n); [|now split].
    split; [reflexivity|]. intros name. cbn [Archive.media_map filter fst].
    rewrite dict_get_set. now destruct (n =? name).
Qed.

Lemma scan_members_fold ms :
  forall st,
    Archive.xml_bytes (fold_left scan_member ms st)
    = last (map Some (documents ms)) (Archive.xml_bytes st)
    /\ forall name,
        dict_get (Archive.media_map (fold_left scan_member ms st)) name
        = last (map Some (media_named name ms))
               (dict_get (Archive.media_map st) name).
Proof.
  induction ms as [|m r IH]; intros st; [now split|].
  cbn [fold_left]. destruct (IH (scan_member st m)) as [Hx Hm].
  destruct (scan_member_step st m) as [Hx1 Hm1].
  assert (Hdoc : documents (m :: r) = documents [m] ++ documents r).
  { unfold documents. cbn [flat_map]. now rewrite app_nil_r. }
  assert (Hmed : forall name,
             media_named name (m :: r)
             = media_named name [m] ++ media_named name r).
  { intros name. unfold media_named, media_members. cbn [flat_map].
    now rewrite app_nil_r, filter_app, map_app. }
  split.
  - now rewrite Hx, Hx1, Hdoc, map_app, last_app.
  - intros name. now rewrite Hm, Hm1, Hmed, map_app, last_app.
Qed.

(** X17.  [read_gramps_bytes] on an archive path ([.gpkg], [.tar.gz],
    [.tgz]) whose members [tarfile] lists.  The document is the content
    of the last readable member named [*.gramps] or [*.xml]; without such
    a member [FileNotFoundError] is raised, whatever else the archive
    holds.  The media mapping gives, for a name, the content of the last
    readable member of that name that is no document and ends, case
    ignored, in one of the media extensions; any other name is absent. *)
Theorem read_gramps_bytes_archive :
  forall (E : Type) tar_members read_file gzip_decompress path members,
    is_archive_path path = true ->
    tar_members path = inr members ->
    (documents members = [] ->
     read_gramps_bytes E tar_members read_file gzip_decompress path
     = inl FileNotFoundError)
    /\ forall xml,
        last (map Some (documents members)) None = Some xml ->
        exists media,
          read_gramps_bytes E tar_members read_file gzip_decompress path
          = inr (xml, media)
          /\ forall name,
              dict_get media name
              = last (map Some (media_named name members)) None.
Proof.
  intros E tar_members read_file gzip_decompress path members Hpath Htar.
  unfold read_gramps_bytes. rewrite Hpath, Htar.
  destruct (scan_members_fold members (Archive.mk None [])) as [Hx Hm].
  fold (scan_members members) in Hx, Hm. cbn in Hx, Hm. split.
  - intros Hnone. now rewrite Hx, Hnone.
  - intros xml Hxml. rewrite Hx, Hxml. eexists. split; [reflexivity|].
    exact Hm.
Qed.

Lemma read_gramps_bytes_archive_witness :
  is_archive_path "tree.gpkg" = true
  /\ documents [("data.gramps", Some "<a/>"); ("img/P.PNG", Some "png");
                ("dir", None)] = ["<a/>"]
  /\ exists media,
      read_gramps_bytes unit
        (fun _ => inr [("data.gramps", Some "<a/>"); ("img/P.PNG", Some "png");
                       ("dir", None)])
        (fun _ => inl tt) (fun _ => inl tt) "tree.gpkg"
      = inr ("<a/>", media)
      /\ dict_get media "img/P.PNG" = Some "png".
Proof.
  split; [reflexivity|]. split; [reflexivity|].
  destruct (proj2 (read_gramps_bytes_archive unit
                     (fun _ => inr [("data.gramps", Some "<a/>");
                                    ("img/P.PNG", Some "png"); ("dir", None)])
                     (fun _ => inl tt) (fun _ => inl tt) "tree.gpkg" _
                     eq_refl eq_refl) "<a/>" eq_refl)
    as (media & Hrun & Hmedia).
  exists media. split; [exact Hrun|]. now rewrite Hmedia.
Defined.

(** ** People without a name *)

Lemma filter_none {A : Type} (f : A -> bool) l :
  (forall x, In x l -> f x = false) -> filter f l = [].
Proof.
  induction l as [|x r IH]; intros Hall; simpl; [reflexivity|].
  rewrite (Hall x (or_introl eq_refl)). apply IH. intros y Hy. apply Hall.
  now right.
Qed.

Lemma nameless_tags p c :
  nameless p = true -> In c (subelements p) ->
  stag_in c ["name"; "names"; "display_name"; "personal_name"] = false
  /\ stag_in c ["display_name"; "display"] = false.
Proof.
  unfold nameless. rewrite forallb_forall. intros Hall Hin.
  specialize (Hall c Hin). unfold stag_in in *.
  destruct (stag c) as [s|]; [|now split]. unfold mem_str in *.
  cbn [existsb] in *.
  destruct (s =? "name"), (s =? "names"), (s =? "display_name"),
    (s =? "personal_name"), (s =? "display"); try discriminate; now split.
Qed.

Lemma fallback_name_nameless p raw :
  nameless p = true ->
  fallback_name p raw = Name.mk None None None None None raw.
Proof.
  intros Hn. unfold fallback_name. f_equal.
  assert (H : forall l, incl l (subelements p) ->
                        fold_left
                          (fun m c =>
                             if stag_in c ["display_name"; "display"]
                             then text_strip_or_none c else m) l None
                        = None).
  { induction l as [|c r IH]; intros Hl; simpl; [reflexivity|].
    destruct (nameless_tags p c Hn (Hl c (or_introl eq_refl))) as [_ ->].
    apply IH. intros x Hx. apply Hl. now right. }
  apply H, incl_refl.
Qed.

(** X18.  A person element without any name or display child is stored
    with one name entry that has no formatted value, given name or
    surname, and tree synthesis shows such a person with the empty string
    as display text: the handle is not used as a fallback for parsed
    people. *)
Theorem nameless_person_display :
  forall out el out',
    nameless el = true ->
    parse_person out el = Ok out' ->
    exists p,
      dict_get out' (handle_or el "person" out) = Some p
      /\ Person.names p = [Name.mk None None None None None (Person.raw p)]
      /\ display_info p = ("", None).
Proof.
  intros out el out' Hn Hrun. unfold parse_person in Hrun.
  bind_inv Hrun. rename a into raw.
  rewrite (filter_none _ (subelements el)) in Hrun
    by (intros c Hc; apply (nameless_tags el c Hn Hc)).
  cbn [map_result bind] in Hrun. bind_inv Hrun.
  inversion Hrun; subst; clear Hrun.
  eexists. split; [apply dict_get_set_same|].
  cbn [Person.names Person.raw]. rewrite (fallback_name_nameless el raw Hn).
  split; reflexivity.
Qed.

Lemma nameless_person_display_witness :
  nameless (Elem "person" [("handle", "P2")] None []) = true
  /\ parse_person [] (Elem "person" [("handle", "P2")] None [])
     = Ok [("P2", Example.P2)]
  /\ display_info Example.P2 = ("", None).
Proof.
  split; [reflexivity|]. split; [reflexivity|].
  destruct (nameless_person_display [] (Elem "person" [("handle", "P2")] None
                                             [])
              [("P2", Example.P2)] eq_refl eq_refl) as (p & Hget & _ & Hd).
  inversion Hget; subst. exact Hd.
Defined.

(** ** Tree synthesis: the children of a node *)

Lemma children_handles_In families p ch :
  In ch (children_handles families p) <-> child_of families p ch.
Proof.
  unfold children_handles, child_of. rewrite in_flat_map. split.
  - intros (fh & Hfh & Hch).
    destruct (dict_get families fh) as [fam|] eqn:Hfam; [|destruct Hch].
    apply filter_In in Hch. destruct Hch as [Hch Ht].
    split; [now apply truthy_iff|]. now exists fh, fam.
  - intros (Hne & fh & fam & Hfh & Hfam & Hch). exists fh.
    split; [exact Hfh|]. rewrite Hfam. apply filter_In.
    split; [exact Hch | now apply truthy_iff].
Qed.

Lemma ref_of_inj people a b :
  a <> "" -> b <> "" -> ref_of people a = ref_of people b -> a = b.
Proof.
  intros Ha Hb. apply truthy_iff in Ha. apply truthy_iff in Hb.
  unfold ref_of. rewrite Ha, Hb.
  destruct (dict_get people a), (dict_get people b); intros H;
    now inversion H.
Qed.

Lemma map_ref_of_NoDup people l :
  NoDup l -> (forall x, In x l -> x <> "") -> NoDup (map (ref_of people) l).
Proof.
  induction 1 as [|x l Hnotin Hnd IH]; intros Hne; simpl; constructor.
  - intros Hin. apply in_map_iff in Hin. destruct Hin as (y & Hy & Hyl).
    apply ref_of_inj in Hy; [subst; contradiction| |];
      apply Hne; [now right | now left].
  - apply IH. intros y Hy. apply Hne. now right.
Qed.

(** X19.  The children list of every node object [build_treant_tree]
    returns is set, holds no reference twice, and holds exactly the
    references of the non-empty child handles of the families the person
    is a parent of: the cached node for a known child, and for a child
    handle without person record a leaf that shows the bare handle. *)
Theorem build_treant_tree_children :
  forall people families root_handle k n,
    In (k, n) (snd (build_treant_tree people families root_handle)) ->
    exists p l,
      dict_get people k = Some p
      /\ Node.children n = Some l
      /\ NoDup l
      /\ (forall r,
             In r l <->
             exists ch, child_of families p ch /\ r = ref_of people ch)
      /\ forall ch,
          child_of families p ch ->
          if dict_mem people ch then In (Cached ch) l else In (Leaf ch) l.
Proof.
  intros people families root_handle k n Hkn.
  destruct (build_treant_tree_spec people families root_handle)
    as (_ & _ & [_ Hnd] & _).
  destruct (nodes_final people families root_handle k n
              (dict_In_get _ _ _ Hnd Hkn)) as (p & Hp & ->).
  assert (Hin : forall ch,
             In ch (unique_in_order (children_handles families p) [])
             <-> child_of families p ch).
  { intros ch. rewrite unique_in_order_In, children_handles_In.
    unfold child_of. simpl. tauto. }
  exists p. eexists. split; [exact Hp|]. split; [reflexivity|].
  split; [|split].
  - apply map_ref_of_NoDup; [apply unique_in_order_NoDup|].
    intros x Hx. apply Hin in Hx. apply Hx.
  - intros r. rewrite in_map_iff. split.
    + intros (ch & <- & Hch). exists ch. split; [now apply Hin | reflexivity].
    + intros (ch & Hch & ->). exists ch. split; [reflexivity | now apply Hin].
  - intros ch Hch.
    assert (Hr : In (ref_of people ch)
                    (map (ref_of people)
                         (unique_in_order (children_handles families p) [])))
      by (apply in_map; now apply Hin).
    unfold ref_of in Hr. unfold dict_mem.
    destruct (dict_get people ch); [exact Hr|].
    destruct Hch as [Hne _]. apply truthy_iff in Hne. now rewrite Hne in Hr.
Qed.

Lemma build_treant_tree_children_witness :
  In ("P1", nth 0 (map snd (Output.tree_nodes Example.output))
                (Node.mk "" "" "" "" "" None))
     (snd (build_treant_tree (Output.people Example.output)
                             (Output.families Example.output) None))
  /\ Node.children (nth 0 (map snd (Output.tree_nodes Example.output))
                        (Node.mk "" "" "" "" "" None))
     = Some [Cached "P2"; Leaf "X7"]
  /\ exists p l,
      dict_get (Output.people Example.output) "P1" = Some p
      /\ Node.children (nth 0 (map snd (Output.tree_nodes Example.output))
                            (Node.mk "" "" "" "" "" None)) = Some l
      /\ NoDup l.
Proof.
  split; [now left|]. split; [reflexivity|].
  destruct (build_treant_tree_children (Output.people Example.output)
              (Output.families Example.output) None "P1" _
              (or_introl eq_refl)) as (p & l & Hp & Hl & Hnd & _).
  exists p, l. split; [exact Hp|]. split; [exact Hl | exact Hnd].
Defined.

(** ** Synthesized handles in a row *)

Lemma str_of_nat_inj a b : str_of_nat a = str_of_nat b -> a = b.
Proof.
  unfold str_of_nat. intros H.
  apply (f_equal NilEmpty.uint_of_string) in H.
  rewrite !NilEmpty.usu in H. inversion H as [H'].
  apply (f_equal Nat.of_uint) in H'. now rewrite !Unsigned.of_to in H'.
Qed.

Lemma obj_handle_inj a b : obj_handle a = obj_handle b -> a = b.
Proof.
  unfold obj_handle. intros H. simpl in H. inversion H.
  now apply str_of_nat_inj.
Qed.

Lemma dict_get_none_keys {V : Type} (d : dict V) k :
  ~ In k (dict_keys d) -> dict_get d k = None.
Proof.
  induction d as [|[k' v] r IH]; simpl; [reflexivity|]. intros Hn.
  destruct (String.eqb_spec k' k) as [->|Hne]; [elim Hn; now left|].
  apply IH. intros Hin. apply Hn. now right.
Qed.

Lemma parse_generic_synth els :
  forall out,
    dict_keys out = map obj_handle (seq 1 (length out)) ->
    (forall el, In el els ->
                has_identity el = false /\ reserved_clash el = false) ->
    exists out',
      for_each parse_generic_one els out = Ok out'
      /\ dict_keys out' = map obj_handle (seq 1 (length out + length els))
      /\ length out' = length out + length els.
Proof.
  induction els as [|el r IH]; intros out Hkeys Hall; simpl.
  - exists out. rewrite Nat.add_0_r. now repeat split.
  - destruct (Hall el (or_introl eq_refl)) as [Hid Hcl].
    unfold parse_generic_one at 1.
    rewrite (handle_or_synth el "obj" out Hid).
    fold (obj_handle (length out + 1)).
    pose proof (elem_to_dict_ok_iff el) as Hok. rewrite Hcl in Hok.
    destruct (elem_to_dict el) as [raw|e]; [|discriminate]. cbn [bind].
    assert (Hfresh : dict_get out (obj_handle (length out + 1)) = None).
    { apply dict_get_none_keys. rewrite Hkeys. intros Hin.
      apply in_map_iff in Hin. destruct Hin as (i & Hi & Hseq).
      apply obj_handle_inj in Hi. apply in_seq in Hseq. lia. }
    rewrite (dict_set_fresh out _ _ Hfresh).
    destruct (IH (out ++ [(obj_handle (length out + 1),
                           Generic.mk (obj_handle (length out + 1)) raw)]))
      as (out' & Hrun & Hk & Hlen).
    + unfold dict_keys. rewrite map_app, length_app. simpl.
      rewrite Nat.add_1_r, seq_S, map_app. simpl.
      unfold dict_keys in Hkeys. now rewrite Hkeys.
    + intros x Hx. apply Hall. now right.
    + exists out'. split; [exact Hrun|]. rewrite length_app in Hk, Hlen.
      simpl in Hk, Hlen. rewrite <- Nat.add_assoc in Hk, Hlen.
      now split.
Qed.

(** X20.  Elements without explicit identity, given to [parse_generic] in
    a row, are stored one record each under [obj_1], [obj_2], ... in
    encounter order: no two of them share a handle and none is lost. *)
Theorem parse_generic_numbering :
  forall els,
    (forall el, In el els ->
                has_identity el = false /\ reserved_clash el = false) ->
    exists out,
      parse_generic els = Ok out
      /\ dict_keys out = map obj_handle (seq 1 (length els))
      /\ length out = length els.
Proof.
  intros els Hall.
  destruct (parse_generic_synth els [] eq_refl Hall) as (out & Hrun & Hk & Hl).
  exists out. now repeat split.
Qed.

Lemma parse_generic_numbering_witness :
  has_identity (Elem "event" [] None []) = false
  /\ reserved_clash (Elem "event" [] None []) = false
  /\ exists out,
      parse_generic [Elem "event" [] None []; Elem "event" [] None []]
      = Ok out
      /\ dict_keys out = ["obj_1"; "obj_2"].
Proof.
  split; [reflexivity|]. split; [reflexivity|].
  destruct (parse_generic_numbering
              [Elem "event" [] None []; Elem "event" [] None []])
    as (out & Hrun & Hk & _).
  - intros el [<-|[<-|[]]]; now split.
  - exists out. split; [exact Hrun | exact Hk].
Defined.
